(** * A BitTorrent client in Python: codec, wire protocol, sessions, scheduler

    Shallow embedding of the modules under [src/client]:
    - [bencode.py]        (module [Bencode]),
    - [communication.py]  (modules [Wire], [PeerConnection], [Handshake],
                           [PeerHandshake] and [PeerStreamIterator]),
    - [client.py]         (module [Scheduler]),
    - [torrent.py]        (module [TorrentFile]),
    - [tracker.py]        (modules [Tracker] and [TrackerResponse]).

    Python exceptions are values of [exn]; a call that may raise returns a
    [result]; a method that mutates its object is a function from the object's
    state to a [result] and the state at the point where it returned or
    raised. *)

From Stdlib Require Import ZArith Lia List Ascii String DecimalString.
From stdpp Require Import sorting.
From stdpp Require Import gmap strings list fin_maps.

Set Warnings "-register-all".
Local Open Scope Z_scope.

(** ** Python exceptions and results *)

Inductive exn : Type :=
| EOFError | RuntimeError | IndexError | ValueError | TypeError
| AttributeError | KeyError | StructError | ConnectionError
| ZeroDivisionError | OverflowError | NameError
| ConnectionRefusedError | TimeoutError
| ConnectionResetError | CancelledError.

Inductive result (A : Type) : Type :=
| Ok (a : A)
| Raise (e : exn).
Arguments Ok {A} a.
Arguments Raise {A} e.

Definition rbind {A B} (r : result A) (k : A -> result B) : result B :=
  match r with
  | Ok a => k a
  | Raise e => Raise e
  end.

(** A method of an object whose state has type [S]: the state is threaded,
    and survives a raise as it was when the exception left the method. *)
Definition M (S A : Type) : Type := S -> result A * S.

Definition ret {S A} (a : A) : M S A := fun s => (Ok a, s).
Definition raise {S A} (e : exn) : M S A := fun s => (Raise e, s).
Definition bind {S A B} (m : M S A) (k : A -> M S B) : M S B :=
  fun s => match m s with
           | (Ok a, s') => k a s'
           | (Raise e, s') => (Raise e, s')
           end.
Definition get {S} : M S S := fun s => (Ok s, s).
Definition put {S} (s : S) : M S unit := fun _ => (Ok tt, s).
Definition lift {S A} (r : result A) : M S A := fun s => (r, s).

Declare Scope py_scope.
Delimit Scope py_scope with py.
Notation "x <- c ;; k" := (bind c (fun x => k))
  (at level 100, c at next level, right associativity) : py_scope.
Notation "c ;;; k" := (bind c (fun _ => k))
  (at level 100, right associativity) : py_scope.

(** ** Python sequences: indexing and slicing with integer positions *)

Section Sequences.
Context {A : Type}.

(** [l[i]]: a negative position counts from the end, a position outside the
    sequence raises [IndexError]. *)
Definition py_getitem (l : list A) (i : Z) : result A :=
  let n := Z.of_nat (length l) in
  let j := if i <? 0 then i + n else i in
  if (j <? 0) || (n <=? j) then Raise IndexError
  else match l !! Z.to_nat j with
       | Some x => Ok x
       | None => Raise IndexError
       end.

(** Bounds of a slice are clamped to the sequence, never raise. *)
Definition py_clamp (n i : Z) : Z :=
  if i <? 0 then Z.max (i + n) 0 else Z.min i n.

Definition py_slice (l : list A) (lo hi : Z) : list A :=
  let n := Z.of_nat (length l) in
  let lo' := py_clamp n lo in
  let hi' := py_clamp n hi in
  take (Z.to_nat (hi' - lo')) (drop (Z.to_nat lo') l).

(** [l[lo:]] *)
Definition py_slice_from (l : list A) (lo : Z) : list A :=
  py_slice l lo (Z.of_nat (length l)).

(** [l[:hi]] *)
Definition py_slice_to (l : list A) (hi : Z) : list A :=
  py_slice l 0 hi.
End Sequences.

(** ** bencode.py *)

Module Bencode.

(** A [bytes] object is a list of characters; literals are written as
    strings. *)
Definition bytes : Type := list ascii.
Definition b (s : string) : bytes := list_ascii_of_string s.

(** The Python objects the codec handles. [VBytes] is [bytes],
    [VByteArray] is [bytearray], [VDict] is a [dict] or an [OrderedDict]
    in key order. *)
Inductive value : Type :=
| VNone
| VInt (z : Z)
| VStr (s : string)
| VBytes (d : bytes)
| VByteArray (d : bytes)
| VList (l : list value)
| VDict (d : list (value * value)).

Definition TOKEN_LIST : bytes := b "1".
Definition TOKEN_INTEGER : bytes := b "i".
Definition TOKEN_DICT : bytes := b "d".
Definition TOKEN_END : bytes := b "e".
Definition TOKEN_STRING_SEPERATOR : bytes := b ":".

(** [str(n)] for an [int], as bytes. *)
Definition str_of_int (z : Z) : bytes :=
  b (NilZero.string_of_int (Z.to_int z)).

(** [int(s)] for a [bytes] object holding an optional sign and decimal
    digits; anything else raises [ValueError]. *)
Definition digits_to_Z (s : bytes) : result Z :=
  match NilZero.uint_of_string (string_of_list_ascii s) with
  | Some u => Ok (Z.of_uint u)
  | None => Raise ValueError
  end.

Definition int_of_bytes (s : bytes) : result Z :=
  match s with
  | "+"%char :: r => digits_to_Z r
  | "-"%char :: r => rbind (digits_to_Z r) (fun z => Ok (- z))
  | _ => digits_to_Z s
  end.

(** First position [>= start] at which [token] occurs in [data]
    ([bytes.index(token, start)] for a one-byte token). *)
Fixpoint find_from (tok : ascii) (data : bytes) (pos : nat) : option nat :=
  match data with
  | [] => None
  | c :: r => if Ascii.eqb c tok then Some pos else find_from tok r (S pos)
  end.

Definition bytes_index (data tok : bytes) (start : Z) : result Z :=
  let n := Z.of_nat (length data) in
  let s := Z.to_nat (py_clamp n start) in
  match tok with
  | [t] =>
    match find_from t (drop s data) s with
    | Some p => Ok (Z.of_nat p)
    | None => Raise ValueError
    end
  | _ => Raise ValueError
  end.

(** *** class Decoder *)

Record Decoder : Type := mkDecoder { _data : bytes; _index : Z }.

(** [Decoder.__init__]; the type test is read as [isinstance]. *)
Definition Decoder_init (data : value) : result Decoder :=
  match data with
  | VBytes d => Ok (mkDecoder d 0)
  | _ => Raise TypeError
  end.

Local Open Scope py_scope.

Definition _peek : M Decoder (option ascii) :=
  s <- get ;;
  if Z.of_nat (length (_data s)) <=? _index s + 1 then ret None
  else c <- lift (py_getitem (_data s) (_index s + 1)) ;; ret (Some c).

Definition _consume : M Decoder unit :=
  s <- get ;; put (mkDecoder (_data s) (_index s + 1)).

Definition _read (len : Z) : M Decoder bytes :=
  s <- get ;;
  if Z.of_nat (length (_data s)) <? _index s + len then raise IndexError
  else
    let res := py_slice (_data s) (_index s) (_index s + len) in
    put (mkDecoder (_data s) (_index s + len)) ;;; ret res.

Definition _read_until (token : bytes) : M Decoder bytes :=
  s <- get ;;
  match bytes_index (_data s) token (_index s) with
  | Ok occurence =>
    let res := py_slice (_data s) (_index s) occurence in
    put (mkDecoder (_data s) (occurence + 1)) ;;; ret res
  | Raise _ => raise RuntimeError
  end.

Definition _decode_int : M Decoder value :=
  r <- _read_until TOKEN_END ;; z <- lift (int_of_bytes r) ;; ret (VInt z).

Definition _decode_string : M Decoder value :=
  r <- _read_until TOKEN_STRING_SEPERATOR ;;
  bytes_to_read <- lift (int_of_bytes r) ;;
  data <- _read bytes_to_read ;;
  ret (VBytes data).

(** [c == TOKEN] in [decode]: [c] is an element of a [bytes] object, an
    [int], and [TOKEN] is a [bytes] object; the two never compare equal. *)
Definition int_eq_bytes (c : ascii) (tok : bytes) : bool := false.

(** [c in b'0123456789']: membership of the byte value. *)
Definition int_in_bytes (c : ascii) (s : bytes) : bool :=
  existsb (Ascii.eqb c) s.

(** [Decoder.decode]. The branches for the integer, list and dictionary
    tokens consume the token and fall off the end of the method, which
    returns [None]; [_decode_int], [decode_list] and [decode_dict] are not
    called from here. *)
Definition decode : M Decoder value :=
  c <- _peek ;;
  match c with
  | None => raise EOFError
  | Some c =>
    if int_eq_bytes c TOKEN_INTEGER then _consume ;;; ret VNone
    else if int_eq_bytes c TOKEN_LIST then _consume ;;; ret VNone
    else if int_eq_bytes c TOKEN_DICT then _consume ;;; ret VNone
    else if int_eq_bytes c TOKEN_END then ret VNone
    else if int_in_bytes c (b "0123456789") then _decode_string
    else raise RuntimeError
  end.

(** *** class Encoder *)

Definition _encode_int (z : Z) : result value :=
  Ok (VBytes (b "i" ++ str_of_int z ++ b "e")).

(** [str(len(value) + ':' + value)] adds an [int] and a [str]. *)
Definition _encode_string (s : string) : result value :=
  Raise TypeError.

Definition _encode_bytes (d : bytes) : result value :=
  Ok (VByteArray (str_of_int (Z.of_nat (length d)) ++ b ":" ++ d)).

(** The loop of [_encode_dict]: each item is encoded through
    [self._encode_next], a name the class does not define. *)
Definition _encode_dict (d : list (value * value)) : result value :=
  match d with
  | [] => Ok (VByteArray (b "d" ++ b "e"))
  | _ :: _ => Raise AttributeError
  end.

Definition encode_next (data : value) : result value :=
  match data with
  | VStr s => _encode_string s
  | VInt z => _encode_int z
  | VDict d => _encode_dict d
  | VBytes d => _encode_bytes d
  | _ => Ok VNone
  end.

Definition encode (data : value) : result value := encode_next data.

(** [Decoder(Encoder(x).encode()).decode()] *)
Definition roundtrip (x : value) : result value :=
  rbind (encode x) (fun e =>
  rbind (Decoder_init e) (fun d => fst (decode d))).

End Bencode.


(** ** communication.py: the typed messages and the frame parser *)

Module Wire.

(** A [bytes] object of the wire protocol: byte values in [0, 256). *)
Definition bytes : Type := list Z.

Definition REQUEST_SIZE : Z := 2 ^ 14.

(** *** struct: big-endian packing without padding ([>]) *)

(** [I]: unsigned 32-bit; a value outside the range raises [struct.error]. *)
Definition pack_I (n : Z) : result bytes :=
  if (0 <=? n) && (n <? 2 ^ 32)
  then Ok [n / 2 ^ 24 mod 256; n / 2 ^ 16 mod 256; n / 2 ^ 8 mod 256; n mod 256]
  else Raise StructError.

(** [b]: signed 8-bit. *)
Definition pack_b (n : Z) : result bytes :=
  if (-128 <=? n) && (n <? 128) then Ok [n mod 256] else Raise StructError.

(** [<k>s]: exactly [k] bytes, the argument cut or padded with zero bytes. *)
Definition pack_s (k : Z) (d : bytes) : result bytes :=
  if k <? 0 then Raise StructError
  else Ok (take (Z.to_nat k) d ++ replicate (Z.to_nat k - length d)%nat 0).

Definition unpack_I (d : bytes) : result Z :=
  match d with
  | [b0; b1; b2; b3] => Ok (b0 * 2 ^ 24 + b1 * 2 ^ 16 + b2 * 2 ^ 8 + b3)
  | _ => Raise StructError
  end.

Definition unpack_b (d : bytes) : result Z :=
  match d with
  | [b0] => Ok (if b0 <? 128 then b0 else b0 - 256)
  | _ => Raise StructError
  end.

(** [struct.unpack('>IbI', data)[2]] and the like: the buffer must have
    exactly the size of the format. *)
Definition unpack_IbI (d : bytes) : result (Z * Z * Z) :=
  if Z.of_nat (length d) =? 9 then
    rbind (unpack_I (py_slice d 0 4)) (fun l =>
    rbind (unpack_b (py_slice d 4 5)) (fun i =>
    rbind (unpack_I (py_slice d 5 9)) (fun x => Ok (l, i, x))))
  else Raise StructError.

Definition unpack_IbIII (d : bytes) : result (Z * Z * Z * Z * Z) :=
  if Z.of_nat (length d) =? 17 then
    rbind (unpack_I (py_slice d 0 4)) (fun l =>
    rbind (unpack_b (py_slice d 4 5)) (fun i =>
    rbind (unpack_I (py_slice d 5 9)) (fun x =>
    rbind (unpack_I (py_slice d 9 13)) (fun y =>
    rbind (unpack_I (py_slice d 13 17)) (fun z => Ok (l, i, x, y, z))))))
  else Raise StructError.

(** [struct.unpack('>Ib' + str(k) + 's', data)]; a negative [k] makes the
    format string invalid. *)
Definition unpack_Ibs (k : Z) (d : bytes) : result (Z * Z * bytes) :=
  if (0 <=? k) && (Z.of_nat (length d) =? 5 + k) then
    rbind (unpack_I (py_slice d 0 4)) (fun l =>
    rbind (unpack_b (py_slice d 4 5)) (fun i =>
    Ok (l, i, py_slice d 5 (5 + k))))
  else Raise StructError.

Definition unpack_IbIIs (k : Z) (d : bytes) : result (Z * Z * Z * Z * bytes) :=
  if (0 <=? k) && (Z.of_nat (length d) =? 13 + k) then
    rbind (unpack_I (py_slice d 0 4)) (fun l =>
    rbind (unpack_b (py_slice d 4 5)) (fun i =>
    rbind (unpack_I (py_slice d 5 9)) (fun x =>
    rbind (unpack_I (py_slice d 9 13)) (fun y =>
    Ok (l, i, x, y, py_slice d 13 (13 + k))))))
  else Raise StructError.

(** *** bitstring.BitArray *)

(** A [BitArray] is its sequence of bits; [BitArray(bytes=data)] lists the
    bits of each byte from the most significant one. *)
Definition bits_of_byte (x : Z) : list bool :=
  map (fun k => Z.testbit x (Z.of_nat k)) [7; 6; 5; 4; 3; 2; 1; 0]%nat.

Definition BitArray (data : bytes) : list bool :=
  concat (map bits_of_byte data).

(** *** class PeerMessage and its subclasses *)

Module PeerMessage.
Definition stall : Z := 0.
Definition Unstall : Z := 1.
Definition Interested : Z := 2.
Definition NotInterested : Z := 3.
Definition Have : Z := 4.
Definition BitField : Z := 5.
Definition Request : Z := 6.
Definition Piece : Z := 7.
Definition Cancel : Z := 8.
Definition Port : Z := 9.
End PeerMessage.

(** An instance of one of the message classes, with its attributes. *)
Inductive message : Type :=
| KeepAlive
| stall
| Unstall
| Interested
| NotInterested
| Have (index : Z)
| BitField (bitfield : list bool)
| Request (index begin length : Z)
| Piece (index begin : Z) (block : bytes)
| Cancel (index begin length : Z).

(** [M.encode()]. [KeepAlive], [stall], [Unstall] and [NotInterested]
    define no [encode], and neither does [PeerMessage]: the attribute
    lookup raises. [BitField.encode] passes the [BitArray] itself to an
    [s] field, which takes [bytes] only. *)
Definition encode (m : message) : result bytes :=
  match m with
  | KeepAlive | stall | Unstall | NotInterested => Raise AttributeError
  | Interested =>
    rbind (pack_I 1) (fun l =>
    rbind (pack_b PeerMessage.Interested) (fun i => Ok (l ++ i)))
  | Have index =>
    rbind (pack_I 5) (fun l =>
    rbind (pack_b PeerMessage.Have) (fun i =>
    rbind (pack_I index) (fun x => Ok (l ++ i ++ x))))
  | BitField bitfield => Raise StructError
  | Request index begin length =>
    rbind (pack_I 13) (fun l =>
    rbind (pack_b PeerMessage.Request) (fun i =>
    rbind (pack_I index) (fun x =>
    rbind (pack_I begin) (fun y =>
    rbind (pack_I length) (fun z => Ok (l ++ i ++ x ++ y ++ z))))))
  | Piece index begin block =>
    let message_length := 9 + Z.of_nat (List.length block) in
    rbind (pack_I message_length) (fun l =>
    rbind (pack_b PeerMessage.Piece) (fun i =>
    rbind (pack_I index) (fun x =>
    rbind (pack_I begin) (fun y =>
    rbind (pack_s (Z.of_nat (List.length block)) block) (fun z =>
    Ok (l ++ i ++ x ++ y ++ z))))))
  | Cancel index begin length =>
    rbind (pack_I 13) (fun l =>
    rbind (pack_b PeerMessage.Cancel) (fun i =>
    rbind (pack_I index) (fun x =>
    rbind (pack_I begin) (fun y =>
    rbind (pack_I length) (fun z => Ok (l ++ i ++ x ++ y ++ z))))))
  end.

(** The [decode] class methods. *)
Definition BitField_decode (data : bytes) : result message :=
  rbind (unpack_I (py_slice_to data 4)) (fun message_length =>
  rbind (unpack_Ibs (message_length - 1) data) (fun parts =>
  Ok (BitField (BitArray (snd parts))))).

Definition Have_decode (data : bytes) : result message :=
  rbind (unpack_IbI data) (fun parts => Ok (Have (snd parts))).

Definition Request_decode (data : bytes) : result message :=
  rbind (unpack_IbIII data) (fun parts =>
  match parts with (_, _, x, y, z) => Ok (Request x y z) end).

Definition Piece_decode (data : bytes) : result message :=
  rbind (unpack_I (py_slice_to data 4)) (fun length =>
  rbind (unpack_IbIIs (length - 9) (py_slice_to data (length + 4))) (fun parts =>
  match parts with (_, _, x, y, blk) => Ok (Piece x y blk) end)).

Definition Cancel_decode (data : bytes) : result message :=
  rbind (unpack_IbIII data) (fun parts =>
  match parts with (_, _, x, y, z) => Ok (Cancel x y z) end).

(** *** PeerStreamIterator.parse *)

Local Open Scope py_scope.

(** The chain of tests on [message_id] in [parse]: [data] is what
    [_data()] returns, [consumed] the buffer [_consume()] leaves. *)
Definition parse_id (message_id : Z) (data consumed : bytes)
    : M bytes (option message) :=
  let _consume : M bytes unit := put consumed in
  if message_id =? PeerMessage.BitField then
    _consume ;;; m <- lift (BitField_decode data) ;; ret (Some m)
  else if message_id =? PeerMessage.Interested then
    _consume ;;; ret (Some Interested)
  else if message_id =? PeerMessage.NotInterested then
    _consume ;;; ret (Some NotInterested)
  else if message_id =? PeerMessage.stall then
    _consume ;;; ret (Some stall)
  else if message_id =? PeerMessage.Unstall then
    _consume ;;; ret (Some Unstall)
  else if message_id =? PeerMessage.Have then
    _consume ;;; m <- lift (Have_decode data) ;; ret (Some m)
  else if message_id =? PeerMessage.Piece then
    _consume ;;; m <- lift (Piece_decode data) ;; ret (Some m)
  else if message_id =? PeerMessage.Request then
    _consume ;;; m <- lift (Request_decode data) ;; ret (Some m)
  else if message_id =? PeerMessage.Cancel then
    _consume ;;; m <- lift (Cancel_decode data) ;; ret (Some m)
  else ret None.

(** [parse]; the state is [self.buffer]. *)
Definition parse : M bytes (option message) :=
  let header_length := 4 in
  buffer <- get ;;
  if 4 <? Z.of_nat (length buffer) then
    message_length <- lift (unpack_I (py_slice buffer 0 4)) ;;
    if message_length =? 0 then ret (Some KeepAlive)
    else if message_length <=? Z.of_nat (length buffer) then
      message_id <- lift (unpack_b (py_slice buffer 4 5)) ;;
      parse_id message_id
        (py_slice_to buffer (header_length + message_length))
        (py_slice_from buffer (header_length + message_length))
    else ret None
  else ret None.

End Wire.

(** ** client.py: blocks, pieces and the piece manager *)

Module Scheduler.

Definition bytes : Type := Wire.bytes.
Definition REQUEST_SIZE : Z := Wire.REQUEST_SIZE.

(** *** Division in floating point *)

(** A double is a pair [(m, e)], the number [m * 2 ^ e]. *)
Definition double : Type := (Z * Z)%type.

(** The double nearest to the integer [a]: [a] itself when it has at most
    53 bits, else its 53 leading bits, rounded to nearest with ties to
    even. *)
Definition nearest_double (a : Z) : double :=
  let bits := Z.log2 (Z.abs a) + 1 in
  if bits <=? 53 then (a, 0)
  else
    let shift := bits - 53 in
    let q := Z.abs a / 2 ^ shift in
    let r := Z.abs a mod 2 ^ shift in
    let half := 2 ^ (shift - 1) in
    let q' := if (half <? r) || ((r =? half) && Z.odd q) then q + 1 else q in
    (Z.sgn a * q', shift).

(** [a / REQUEST_SIZE] for an [int] [a]: the quotient rounded to the
    nearest double ([REQUEST_SIZE] is a power of two, so that is the
    nearest double to [a] with the exponent lowered by 14);
    [OverflowError] when the result is too large for a double. *)
Definition truediv_REQUEST_SIZE (a : Z) : result double :=
  let (m, e) := nearest_double a in
  if 2 ^ 1024 * REQUEST_SIZE <=? Z.abs m * 2 ^ e then Raise OverflowError
  else Ok (m, e - Z.log2 REQUEST_SIZE).

(** [math.ceil(x)] for a double. *)
Definition math_ceil (x : double) : Z :=
  let (m, e) := x in
  if 0 <=? e then m * 2 ^ e else - ((- m) / 2 ^ (- e)).

(** [math.ceil(a / REQUEST_SIZE)] *)
Definition ceil_div (a : Z) : result Z :=
  rbind (truediv_REQUEST_SIZE a) (fun x => Ok (math_ceil x)).

(** *** class Block *)
Module Block.
Inductive status_t : Type := Missing | Pending | Retrieved.

Record t : Type := mk {
  piece : Z;
  offset : Z;
  length : Z;
  status : status_t;
  data : option bytes
}.

Definition init (piece offset length : Z) : t :=
  mk piece offset length Missing None.

Definition set_status (s : status_t) (b : t) : t :=
  mk (piece b) (offset b) (length b) s (data b).
Definition set_length (n : Z) (b : t) : t :=
  mk (piece b) (offset b) n (status b) (data b).
Definition set_data (d : bytes) (b : t) : t :=
  mk (piece b) (offset b) (length b) (status b) (Some d).

Definition is_missing (b : t) : bool :=
  match status b with Missing => true | _ => false end.
Definition is_retrieved (b : t) : bool :=
  match status b with Retrieved => true | _ => false end.
End Block.

(** *** class Piece *)
Module Piece.
Record t : Type := mk {
  index : Z;
  blocks : list Block.t;
  hash : bytes
}.

Definition set_blocks (bs : list Block.t) (p : t) : t :=
  mk (index p) bs (hash p).

Definition reset (p : t) : t :=
  set_blocks (map (Block.set_status Block.Missing) (blocks p)) p.

(** The first block whose status is [Missing] becomes [Pending] and is
    returned. *)
Fixpoint take_missing (bs : list Block.t) : option Block.t * list Block.t :=
  match bs with
  | [] => (None, [])
  | blk :: rest =>
    if Block.is_missing blk
    then let blk' := Block.set_status Block.Pending blk in
         (Some blk', blk' :: rest)
    else let (r, rest') := take_missing rest in (r, blk :: rest')
  end.

Definition next_request (p : t) : option Block.t * t :=
  let (r, bs) := take_missing (blocks p) in (r, set_blocks bs p).

(** The first block at [offset] becomes [Retrieved] and keeps [data];
    without such a block only a warning is logged. *)
Fixpoint store (offset : Z) (data : bytes) (bs : list Block.t) : list Block.t :=
  match bs with
  | [] => []
  | blk :: rest =>
    if Block.offset blk =? offset
    then Block.set_data data (Block.set_status Block.Retrieved blk) :: rest
    else blk :: store offset data rest
  end.

Definition block_received (offset : Z) (data : bytes) (p : t) : t :=
  set_blocks (store offset data (blocks p)) p.

Definition is_complete (p : t) : bool :=
  forallb Block.is_retrieved (blocks p).

(** [sorted(self.blocks, key=lambda b: b.offset)]: a stable sort. *)
Fixpoint insert_by_offset (x : Block.t) (l : list Block.t) : list Block.t :=
  match l with
  | [] => [x]
  | y :: r => if Block.offset y <=? Block.offset x
              then y :: insert_by_offset x r else x :: l
  end.

Definition sorted_by_offset (l : list Block.t) : list Block.t :=
  foldl (fun acc x => insert_by_offset x acc) [] l.

(** [b''.join(...)]: a block without payload is [None], which [join]
    rejects. *)
Fixpoint join (ds : list (option bytes)) : result bytes :=
  match ds with
  | [] => Ok []
  | None :: _ => Raise TypeError
  | Some d :: r => rbind (join r) (fun tl => Ok (d ++ tl))
  end.

Definition data (p : t) : result bytes :=
  join (map Block.data (sorted_by_offset (blocks p))).

Definition is_hash_matching (sha1 : bytes -> bytes) (p : t) : result bool :=
  rbind (data p) (fun d =>
    Ok (bool_decide (hash p = sha1 d))).
End Piece.

(** [PendingRequest = namedtuple('PendingRequest', ['block', 'added'])].
    A request reads [block.piece] and [block.offset] only, which never
    change once the manager is built. *)
Record PendingRequest : Type := mkPendingRequest {
  block : Block.t;
  added : Z
}.

(** What the manager reads of a [Torrent]. *)
Record Torrent : Type := mkTorrent {
  piece_length : Z;
  total_size : Z;
  pieces : list bytes;
  output_file : string
}.

(** *** class PieceManager *)
Module PieceManager.

(** [peers] maps a peer id to the peer's [BitArray]; [fd] is the output
    file as the sequence of positional writes made so far. *)
Record t : Type := mk {
  torrent : Torrent;
  peers : gmap bytes (list bool);
  pending_blocks : list PendingRequest;
  missing_pieces : list Piece.t;
  ongoing_pieces : list Piece.t;
  have_pieces : list Piece.t;
  max_pending_time : Z;
  total_pieces : Z;
  fd : list (Z * bytes)
}.

Definition set_peers (x : gmap bytes (list bool)) (pm : t) : t :=
  mk (torrent pm) x (pending_blocks pm) (missing_pieces pm)
     (ongoing_pieces pm) (have_pieces pm) (max_pending_time pm)
     (total_pieces pm) (fd pm).
Definition set_pending_blocks (x : list PendingRequest) (pm : t) : t :=
  mk (torrent pm) (peers pm) x (missing_pieces pm)
     (ongoing_pieces pm) (have_pieces pm) (max_pending_time pm)
     (total_pieces pm) (fd pm).
Definition set_missing_pieces (x : list Piece.t) (pm : t) : t :=
  mk (torrent pm) (peers pm) (pending_blocks pm) x
     (ongoing_pieces pm) (have_pieces pm) (max_pending_time pm)
     (total_pieces pm) (fd pm).
Definition set_ongoing_pieces (x : list Piece.t) (pm : t) : t :=
  mk (torrent pm) (peers pm) (pending_blocks pm) (missing_pieces pm)
     x (have_pieces pm) (max_pending_time pm)
     (total_pieces pm) (fd pm).
Definition set_have_pieces (x : list Piece.t) (pm : t) : t :=
  mk (torrent pm) (peers pm) (pending_blocks pm) (missing_pieces pm)
     (ongoing_pieces pm) x (max_pending_time pm)
     (total_pieces pm) (fd pm).
Definition set_fd (x : list (Z * bytes)) (pm : t) : t :=
  mk (torrent pm) (peers pm) (pending_blocks pm) (missing_pieces pm)
     (ongoing_pieces pm) (have_pieces pm) (max_pending_time pm)
     (total_pieces pm) x.

(** [Block(index, offset * REQUEST_SIZE, REQUEST_SIZE) for offset in
    range(n)] *)
Definition request_blocks (index n : Z) : list Block.t :=
  map (fun offset => Block.init index (Z.of_nat offset * REQUEST_SIZE) REQUEST_SIZE)
      (seq 0 (Z.to_nat n)).

(** The [else] branch of the loop of [_initiate_pieces]: the blocks of
    the piece at [total_pieces - 1]. *)
Definition final_blocks (tor : Torrent) (index : Z) : result (list Block.t) :=
  if piece_length tor =? 0 then Raise ZeroDivisionError
  else
    let last_length := total_size tor mod piece_length tor in
    rbind (ceil_div last_length) (fun num_blocks =>
    let blocks := request_blocks index num_blocks in
    if 0 <? last_length mod REQUEST_SIZE then
      match last blocks with
      | None => Raise IndexError
      | Some last_block =>
        Ok (<[(length blocks - 1)%nat :=
               Block.set_length (last_length mod REQUEST_SIZE) last_block]> blocks)
      end
    else Ok blocks).

Fixpoint initiate_loop (tor : Torrent) (total_pieces std_piece_blocks : Z)
    (index : Z) (hashes : list bytes) : result (list Piece.t) :=
  match hashes with
  | [] => Ok []
  | hash_value :: rest =>
    rbind (if index <? total_pieces - 1
           then Ok (request_blocks index std_piece_blocks)
           else final_blocks tor index) (fun blocks =>
    rbind (initiate_loop tor total_pieces std_piece_blocks (index + 1) rest)
          (fun tl => Ok (Piece.mk index blocks hash_value :: tl)))
  end.

Definition _initiate_pieces (tor : Torrent) : result (list Piece.t) :=
  let total_pieces := Z.of_nat (length (pieces tor)) in
  rbind (ceil_div (piece_length tor)) (fun std_piece_blocks =>
  initiate_loop tor total_pieces std_piece_blocks 0 (pieces tor)).

(** [PieceManager.__init__] *)
Definition init (tor : Torrent) : result t :=
  rbind (_initiate_pieces tor) (fun missing =>
    Ok (mk tor ∅ [] missing [] [] (300 * 1000)
           (Z.of_nat (length (pieces tor))) [])).

Definition complete (pm : t) : bool :=
  Z.of_nat (length (have_pieces pm)) =? total_pieces pm.

Definition bytes_downloaded (pm : t) : Z :=
  Z.of_nat (length (have_pieces pm)) * piece_length (torrent pm).

Local Open Scope py_scope.

Definition add_peer (peer_id : bytes) (bitfield : list bool) : M t unit :=
  fun pm => (Ok tt, set_peers (<[peer_id := bitfield]> (peers pm)) pm).

(** [self.peers[peer_id][index] = 1]: a position outside the bit array
    raises. *)
Definition update_peer (peer_id : bytes) (index : Z) : M t unit :=
  fun pm =>
    match peers pm !! peer_id with
    | None => (Ok tt, pm)
    | Some bf =>
      let n := Z.of_nat (length bf) in
      let j := if index <? 0 then index + n else index in
      if (j <? 0) || (n <=? j) then (Raise IndexError, pm)
      else (Ok tt, set_peers (<[peer_id := <[Z.to_nat j := true]> bf]> (peers pm)) pm)
    end.

Definition remove_peer (peer_id : bytes) : M t unit :=
  fun pm =>
    match peers pm !! peer_id with
    | None => (Ok tt, pm)
    | Some _ => (Ok tt, set_peers (delete peer_id (peers pm)) pm)
    end.

(** [self.peers[peer_id][index]] *)
Definition peer_has (pm : t) (peer_id : bytes) (index : Z) : result bool :=
  match peers pm !! peer_id with
  | None => Raise KeyError
  | Some bf => py_getitem bf index
  end.

(** The loop of [_expired_requests]. [request.added = current] assigns
    to a field of a named tuple, which raises [AttributeError]. *)
Fixpoint expired_loop (pm : t) (peer_id : bytes) (current : Z)
    (requests : list PendingRequest) : result (option Block.t) :=
  match requests with
  | [] => Ok None
  | request :: rest =>
    rbind (peer_has pm peer_id (Block.piece (block request))) (fun bit =>
      if bit then
        if added request + max_pending_time pm <? current
        then Raise AttributeError
        else expired_loop pm peer_id current rest
      else expired_loop pm peer_id current rest)
  end.

Definition _expired_requests (peer_id : bytes) (current : Z)
    : M t (option Block.t) :=
  fun pm => (expired_loop pm peer_id current (pending_blocks pm), pm).

(** The loop of [_next_ongoing] over [self.ongoing_pieces]: [seen] is
    the part of the list already visited. *)
Fixpoint ongoing_loop (pm : t) (peer_id : bytes)
    (seen rest : list Piece.t)
    : result (option (Block.t * list Piece.t)) :=
  match rest with
  | [] => Ok None
  | piece :: rest' =>
    rbind (peer_has pm peer_id (Piece.index piece)) (fun bit =>
      if bit then
        match Piece.next_request piece with
        | (Some blk, piece') => Ok (Some (blk, seen ++ piece' :: rest'))
        | (None, _) => ongoing_loop pm peer_id (seen ++ [piece]) rest'
        end
      else ongoing_loop pm peer_id (seen ++ [piece]) rest')
  end.

Definition _next_ongoing (peer_id : bytes) (now : Z) : M t (option Block.t) :=
  fun pm =>
    match ongoing_loop pm peer_id [] (ongoing_pieces pm) with
    | Raise e => (Raise e, pm)
    | Ok None => (Ok None, pm)
    | Ok (Some (blk, ongoing)) =>
      (Ok (Some blk),
       set_pending_blocks (pending_blocks pm ++ [mkPendingRequest blk now])
         (set_ongoing_pieces ongoing pm))
    end.

(** [for p in self.peers: if self.peers[p][index]: piece_count[piece] += 1] *)
Definition holders (pm : t) (index : Z) : result nat :=
  foldr (fun kv acc =>
           rbind acc (fun n =>
           rbind (py_getitem (snd kv) index) (fun bit =>
           Ok (if bit : bool then S n else n))))
        (Ok 0%nat) (map_to_list (peers pm)).

(** The first loop of [_get_rarest_piece]: [piece_count] in key order,
    each key a piece of [self.missing_pieces] given by its position. A
    piece nobody holds gets no key. *)
Fixpoint count_loop (pm : t) (peer_id : bytes) (pos : nat)
    (ps : list Piece.t) : result (list (nat * nat)) :=
  match ps with
  | [] => Ok []
  | piece :: rest =>
    rbind (peer_has pm peer_id (Piece.index piece)) (fun bit =>
      if negb bit then count_loop pm peer_id (S pos) rest
      else
        rbind (holders pm (Piece.index piece)) (fun c =>
        rbind (count_loop pm peer_id (S pos) rest) (fun tl =>
        Ok (if (c =? 0)%nat then tl else (pos, c) :: tl))))
  end.

(** [min(piece_count, key=...)]: the first key of least count. *)
Fixpoint py_min (l : list (nat * nat)) : option (nat * nat) :=
  match l with
  | [] => None
  | x :: r =>
    match py_min r with
    | None => Some x
    | Some y => if (snd y <? snd x)%nat then Some y else Some x
    end
  end.

Definition _get_rarest_piece (peer_id : bytes) : M t Piece.t :=
  fun pm =>
    match count_loop pm peer_id 0 (missing_pieces pm) with
    | Raise e => (Raise e, pm)
    | Ok piece_count =>
      match py_min piece_count with
      | None => (Raise ValueError, pm)
      | Some (pos, _) =>
        match missing_pieces pm !! pos with
        | None => (Raise ValueError, pm)
        | Some rarest_piece =>
          (Ok rarest_piece,
           set_ongoing_pieces (ongoing_pieces pm ++ [rarest_piece])
             (set_missing_pieces (delete pos (missing_pieces pm)) pm))
        end
      end
    end.

(** [next_request]; [current] and [now] are the clock readings of
    [_expired_requests] and [_next_ongoing]. The piece returned by
    [_get_rarest_piece] is the last of [self.ongoing_pieces]; its
    [next_request] marks a block there. *)
Definition next_request (peer_id : bytes) (current now : Z)
    : M t (option Block.t) :=
  fun pm =>
    match peers pm !! peer_id with
    | None => (Ok None, pm)
    | Some _ =>
      (block <- _expired_requests peer_id current ;;
       match block with
       | Some _ => ret block
       | None =>
         block <- _next_ongoing peer_id now ;;
         match block with
         | Some _ => ret block
         | None =>
           rarest <- _get_rarest_piece peer_id ;;
           fun pm' =>
             let (blk, rarest') := Piece.next_request rarest in
             (Ok blk,
              set_ongoing_pieces
                (<[(length (ongoing_pieces pm') - 1)%nat := rarest']>
                   (ongoing_pieces pm')) pm')
         end
       end) pm
    end.

(** The first loop of [block_received]: the first pending request for
    the block is deleted. *)
Fixpoint drop_pending (piece_index block_offset : Z)
    (requests : list PendingRequest) : list PendingRequest :=
  match requests with
  | [] => []
  | request :: rest =>
    if (Block.piece (block request) =? piece_index)
       && (Block.offset (block request) =? block_offset)
    then rest
    else request :: drop_pending piece_index block_offset rest
  end.

(** Position of the first piece with the given index. *)
Fixpoint find_piece (piece_index : Z) (ps : list Piece.t) (pos : nat)
    : option (nat * Piece.t) :=
  match ps with
  | [] => None
  | p :: rest => if Piece.index p =? piece_index then Some (pos, p)
                 else find_piece piece_index rest (S pos)
  end.

Definition _write (piece : Piece.t) : M t unit :=
  fun pm =>
    let pos := Piece.index piece * piece_length (torrent pm) in
    match Piece.data piece with
    | Raise e => (Raise e, pm)
    | Ok d => (Ok tt, set_fd (fd pm ++ [(pos, d)]) pm)
    end.

(** [block_received]. The piece is mutated in place in
    [self.ongoing_pieces]; the progress message divides by
    [self.total_pieces]. *)
Definition block_received (sha1 : bytes -> bytes)
    (peer_id : bytes) (piece_index block_offset : Z) (data : bytes)
    : M t unit :=
  fun pm0 =>
    let pm := set_pending_blocks
                (drop_pending piece_index block_offset (pending_blocks pm0)) pm0 in
    match find_piece piece_index (ongoing_pieces pm) 0 with
    | None => (Ok tt, pm)
    | Some (pos, piece0) =>
      let piece := Piece.block_received block_offset data piece0 in
      let pm := set_ongoing_pieces (<[pos := piece]> (ongoing_pieces pm)) pm in
      if Piece.is_complete piece then
        match Piece.is_hash_matching sha1 piece with
        | Raise e => (Raise e, pm)
        | Ok true =>
          (_write piece ;;;
           fun pm =>
             let pm := set_have_pieces (have_pieces pm ++ [piece])
                         (set_ongoing_pieces (delete pos (ongoing_pieces pm)) pm) in
             if total_pieces pm =? 0 then (Raise ZeroDivisionError, pm)
             else (Ok tt, pm)) pm
        | Ok false =>
          (Ok tt, set_ongoing_pieces (<[pos := Piece.reset piece]> (ongoing_pieces pm)) pm)
        end
      else (Ok tt, pm)
    end.

End PieceManager.

End Scheduler.

(** ** communication.py: class PeerConnection *)

Module PeerConnection.
Import Scheduler.

(** [x in l] and [l.remove(x)] on a list of strings: [remove] deletes the
    first occurrence and raises [ValueError] when there is none. *)
Definition py_in (x : string) (l : list string) : bool :=
  existsb (String.eqb x) l.

Fixpoint py_remove (x : string) (l : list string) : result (list string) :=
  match l with
  | [] => Raise ValueError
  | y :: r => if String.eqb x y then Ok r
              else rbind (py_remove x r) (fun r' => Ok (y :: r'))
  end.

(** A connection after the handshake. [written] is what went to
    [self.writer], [closed] whether [cancel] has closed it. *)
Record t : Type := mk {
  my_state : list string;
  peer_state : list string;
  remote_id : bytes;
  written : list bytes;
  closed : bool
}.

Definition set_my_state (x : list string) (c : t) : t :=
  mk x (peer_state c) (remote_id c) (written c) (closed c).
Definition set_peer_state (x : list string) (c : t) : t :=
  mk (my_state c) x (remote_id c) (written c) (closed c).
Definition set_written (x : list bytes) (c : t) : t :=
  mk (my_state c) (peer_state c) (remote_id c) x (closed c).

(** The connection and the piece manager it shares with the other
    connections of the client. *)
Definition world : Type := t * PieceManager.t.

Definition on_conn (f : t -> t) : M world unit :=
  fun w => (Ok tt, (f (fst w), snd w)).

Definition on_manager {A} (m : M PieceManager.t A) : M world A :=
  fun w => let (r, pm) := m (snd w) in (r, (fst w, pm)).

Local Open Scope py_scope.

(** [cancel] *)
Definition cancel (c : t) : t :=
  mk (my_state c) (peer_state c) (remote_id c) (written c) true.

(** [_request_piece]; the two clock readings are those of
    [PieceManager.next_request]. *)
Definition _request_piece (current now : Z) : M world unit :=
  w <- get ;;
  block <- on_manager (PieceManager.next_request (remote_id (fst w)) current now) ;;
  match block with
  | Some blk =>
    message <- lift (Wire.encode
                 (Wire.Request (Block.piece blk) (Block.offset blk) (Block.length blk))) ;;
    on_conn (fun c => set_written (written c ++ [message]) c)
  | None => ret tt
  end.

(** The end of the loop body of [_start]: "Sends a block to remote peers
    we're interested in". *)
Definition request_step (current now : Z) : M world unit :=
  w <- get ;;
  if negb (py_in "stalled" (my_state (fst w))) then
    if py_in "interested" (my_state (fst w)) then
      if negb (py_in "pending_request" (my_state (fst w))) then
        on_conn (fun c => set_my_state (my_state c ++ ["pending_request"]) c) ;;;
        _request_piece current now
      else ret tt
    else ret tt
  else ret tt.

(** The dispatch on the type of the message; [on_block_cb] is
    [TorrentClient._on_block_retrieved], which calls
    [PieceManager.block_received]. *)
Definition dispatch (sha1 : bytes -> bytes) (message : Wire.message)
    : M world unit :=
  w <- get ;;
  let c := fst w in
  match message with
  | Wire.BitField bitfield =>
    on_manager (PieceManager.add_peer (remote_id c) bitfield)
  | Wire.Interested =>
    on_conn (fun c => set_peer_state (peer_state c ++ ["interested"]) c)
  | Wire.NotInterested =>
    if py_in "interested" (peer_state c) then
      l <- lift (py_remove "interested" (peer_state c)) ;;
      on_conn (set_peer_state l)
    else ret tt
  | Wire.stall =>
    on_conn (fun c => set_my_state (my_state c ++ ["stalled"]) c)
  | Wire.Unstall =>
    if py_in "stalled" (my_state c) then
      l <- lift (py_remove "stalled" (my_state c)) ;;
      on_conn (set_my_state l)
    else ret tt
  | Wire.Have index =>
    on_manager (PieceManager.update_peer (remote_id c) index)
  | Wire.KeepAlive => ret tt
  | Wire.Piece index begin blk =>
    l <- lift (py_remove "pending_request" (my_state c)) ;;
    on_conn (set_my_state l) ;;;
    on_manager (PieceManager.block_received sha1 (remote_id c) index begin blk)
  | Wire.Request _ _ _ => ret tt
  | Wire.Cancel _ _ _ => ret tt
  end.

(** One turn of [async for message in PeerStreamIterator(...)]: [false]
    when the loop is left by [break]. *)
Definition on_message (sha1 : bytes -> bytes) (current now : Z)
    (message : Wire.message) : M world bool :=
  w <- get ;;
  if py_in "stopped" (my_state (fst w)) then ret false
  else dispatch sha1 message ;;; request_step current now ;;; ret true.

Fixpoint message_loop (sha1 : bytes -> bytes) (current now : Z)
    (messages : list Wire.message) : M world unit :=
  match messages with
  | [] => ret tt
  | message :: rest =>
    continue <- on_message sha1 current now message ;;
    if continue : bool then message_loop sha1 current now rest else ret tt
  end.

(** The [try] statement of [_start] from the message loop on, for the
    messages the peer sends. When the loop ends, [cancel] runs behind the
    [try]. An exception in the [try] meets [except ProtocolError] first:
    no module defines or imports that name, so the clause itself raises
    [NameError], which leaves [_start] before any handler and before
    [cancel]. *)
Definition serve (sha1 : bytes -> bytes) (current now : Z)
    (messages : list Wire.message) : M world unit :=
  fun w =>
    match message_loop sha1 current now messages w with
    | (Ok _, (c, pm)) => (Ok tt, (cancel c, pm))
    | (Raise _, w') => (Raise NameError, w')
    end.

End PeerConnection.

(** ** tracker.py *)

Module Tracker.
Import Bencode.

(** [TrackerResponse(response)] *)
Record TrackerResponse : Type := mkTrackerResponse { response : value }.

(** [self.response[key]] for a [dict] with [bytes] keys. *)
Definition dict_get (d : list (value * value)) (key : bytes) : option value :=
  snd <$> List.find (fun kv => match fst kv with
                               | VBytes k => bool_decide (k = key)
                               | _ => false
                               end) d.

(** The [failure] property, for the [dict] a tracker reply decodes to. *)
Definition failure (r : TrackerResponse) : option value :=
  match response r with
  | VDict d => dict_get d (b "failure reason")
  | _ => None
  end.

(** What [self.http_client.get(url)] answers. *)
Record http_response : Type := mk_http_response {
  status : Z;
  body : bytes
}.

(** The names [class Tracker] defines. *)
Definition Tracker_attributes : list string :=
  ["__init__"; "connect"; "close"; "_construct_tracker_parameters"]%string.

(** [self.<name>(...)]: a name the class does not define raises
    [AttributeError] before anything is called. *)
Definition Tracker_getattr {A} (name : string) (call : result A) : result A :=
  if existsb (String.eqb name) Tracker_attributes then call
  else Raise AttributeError.

(** [connect], from the answer of the announce request on. *)
Definition connect (r : http_response) : result TrackerResponse :=
  if negb (status r =? 200) then Raise ConnectionError
  else
    rbind (Tracker_getattr "raise_for_error" (Ok tt)) (fun _ =>
    rbind (Decoder_init (VBytes (body r))) (fun d =>
    rbind (fst (decode d)) (fun v => Ok (mkTrackerResponse v)))).

End Tracker.


(** ** communication.py: class Handshake *)

Module Handshake.

Definition bytes : Type := Wire.bytes.

Record t : Type := mk {
  info_hash : bytes;
  peer_id : bytes
}.

(** [Handshake.length] *)
Definition length : Z := 49 + 19.

(** [b'BitTorrent protocol'] *)
Definition pstr : bytes :=
  [66; 105; 116; 84; 111; 114; 114; 101; 110; 116; 32;
   112; 114; 111; 116; 111; 99; 111; 108].

(** A field [<k>s] of [struct.pack]: the argument cut or padded with zero
    bytes to [k] bytes. *)
Definition field_s (k : nat) (d : bytes) : bytes :=
  take k d ++ replicate (k - List.length d)%nat 0.

(** [struct.pack('>B19s8x20s20s', 19, b'BitTorrent protocol', info_hash,
    peer_id)] *)
Definition encode (h : t) : bytes :=
  [19] ++ field_s 19 pstr ++ replicate 8 0
  ++ field_s 20 (info_hash h) ++ field_s 20 (peer_id h).

(** [decode]: [None] for fewer than 68 bytes; [struct.unpack] wants exactly
    68 and returns the two 20-byte fields as [parts[2]] and [parts[3]]. *)
Definition decode (data : bytes) : result (option t) :=
  if Z.of_nat (List.length data) <? 49 + 19 then Ok None
  else if Z.of_nat (List.length data) =? 68
  then Ok (Some (mk (py_slice data 28 48) (py_slice data 48 68)))
  else Raise StructError.

End Handshake.

(** ** communication.py: reading from the peer *)

(** A stream reader is the sequence of results its [read] calls are going
    to return; once they are used up [read] returns [b''], the end of the
    stream. *)
Definition stream_read (reader : list Wire.bytes) : Wire.bytes * list Wire.bytes :=
  match reader with
  | [] => ([], [])
  | data :: rest => (data, rest)
  end.

Module PeerHandshake.

Definition bytes : Type := Wire.bytes.

(** The loop of [_handshake]: [tries] counts from 1 and stops the loop at
    10, which leaves nine turns; each turn replaces [buf] by what [read]
    returns. *)
Fixpoint read_loop (turns : nat) (buf : bytes) (reader : list bytes)
    : bytes * list bytes :=
  match turns with
  | O => (buf, reader)
  | S turns' =>
    if Z.of_nat (length buf) <? Handshake.length then
      let (data, reader') := stream_read reader in
      read_loop turns' data reader'
    else (buf, reader)
  end.

(** The connection as [_handshake] sees it: the reader, and what was
    written to the writer. *)
Record io : Type := mk_io {
  reader : list bytes;
  written : list bytes
}.

(** [PeerConnection._handshake] for a connection with [info_hash] and
    [peer_id]: the result is the new [self.remote_id] and the returned
    rest of the buffer. The two [raise ProtocolError(...)] statements name
    a class that no module defines or imports: they raise [NameError]. *)
Definition _handshake (info_hash peer_id : bytes) : M io (bytes * bytes) :=
  fun s =>
    let s1 := mk_io (reader s)
                (written s ++ [Handshake.encode (Handshake.mk info_hash peer_id)]) in
    let (buf, reader') := read_loop 9 [] (reader s1) in
    let s2 := mk_io reader' (written s1) in
    match Handshake.decode (py_slice_to buf Handshake.length) with
    | Raise e => (Raise e, s2)
    | Ok None => (Raise NameError, s2)
    | Ok (Some response) =>
      if bool_decide (Handshake.info_hash response = info_hash)
      then (Ok (Handshake.peer_id response, py_slice_from buf Handshake.length), s2)
      else (Raise NameError, s2)
    end.

End PeerHandshake.

(** ** communication.py: class PeerStreamIterator *)

Module PeerStreamIterator.

Definition bytes : Type := Wire.bytes.

Record t : Type := mk {
  reader : list bytes;
  buffer : bytes
}.

(** What [__anext__] does: return a message or raise
    [StopAsyncIteration]. *)
Inductive outcome : Type :=
| Message (m : Wire.message)
| StopAsyncIteration.

(** The branch of [__anext__] for a [read] that returned nothing: one last
    [parse] of a buffer that is not empty. An exception of [parse] is
    caught and ends the iteration. *)
Definition at_end (reader : list bytes) (buffer : bytes) : outcome * t :=
  match buffer with
  | [] => (StopAsyncIteration, mk reader buffer)
  | _ :: _ =>
    match Wire.parse buffer with
    | (Ok (Some m), buffer') => (Message m, mk reader buffer')
    | (_, buffer') => (StopAsyncIteration, mk reader buffer')
    end
  end.

(** The loop of [__anext__]: each turn reads once. *)
Fixpoint anext_loop (reader : list bytes) (buffer : bytes) : outcome * t :=
  match reader with
  | [] => at_end [] buffer
  | [] :: reader' => at_end reader' buffer
  | data :: reader' =>
    match Wire.parse (buffer ++ data) with
    | (Ok (Some m), buffer') => (Message m, mk reader' buffer')
    | (Ok None, buffer') => anext_loop reader' buffer'
    | (Raise _, buffer') => (StopAsyncIteration, mk reader' buffer')
    end
  end.

Definition __anext__ (s : t) : outcome * t :=
  anext_loop (reader s) (buffer s).

End PeerStreamIterator.

(** ** torrent.py: the piece hashes *)

Module TorrentFile.

(** The loop of the [pieces] property over [data], the value of
    [info[b'pieces']]; [turns] bounds the number of turns. *)
Fixpoint pieces_loop (turns : nat) (data : Bencode.bytes) (offset : Z)
    : list Bencode.bytes :=
  match turns with
  | O => []
  | S turns' =>
    if offset <? Z.of_nat (length data)
    then py_slice data offset (offset + 20)
         :: pieces_loop turns' data (offset + 20)
    else []
  end.

(** [pieces]: the offset grows by 20 each turn, so [len(data)] turns are
    never used up. *)
Definition pieces (data : Bencode.bytes) : list Bencode.bytes :=
  pieces_loop (length data) data 0.

End TorrentFile.

(** ** tracker.py: the fields of a tracker response *)

Module TrackerResponse.
Import Bencode.

(** What the properties of [TrackerResponse] raise. *)
Inductive error : Type :=
| AttributeError | KeyError | NotImplementedError | OSError | StructError
| TypeError.

(** [self.response.get(key, 0)]; only a [dict] has [get]. *)
Definition get_or_zero (r : Tracker.TrackerResponse) (key : bytes)
    : error + value :=
  match Tracker.response r with
  | VDict d => match Tracker.dict_get d key with
               | Some v => inr v
               | None => inr (VInt 0)
               end
  | _ => inl AttributeError
  end.

Definition interval (r : Tracker.TrackerResponse) : error + value :=
  get_or_zero r (b "interval").
Definition complete (r : Tracker.TrackerResponse) : error + value :=
  get_or_zero r (b "complete").
Definition incomplete (r : Tracker.TrackerResponse) : error + value :=
  get_or_zero r (b "incomplete").

(** [[peers[i:i+6] for i in range(0, len(peers), 6)]] *)
Fixpoint records (turns : nat) (peers : bytes) (i : Z) : list bytes :=
  match turns with
  | O => []
  | S turns' =>
    if i <? Z.of_nat (length peers)
    then py_slice peers i (i + 6) :: records turns' peers (i + 6)
    else []
  end.

Definition byte_value (c : ascii) : Z := Z.of_N (N_of_ascii c).

(** [str(n)] as a string. *)
Definition decimal (n : Z) : string :=
  NilZero.string_of_int (Z.to_int n).

(** [socket.inet_ntoa]: four bytes give the dotted quad, any other length
    raises [OSError]. *)
Definition inet_ntoa (p : bytes) : error + string :=
  match p with
  | [a; b0; c; d] =>
    inr (decimal (byte_value a) +:+ "." +:+ decimal (byte_value b0) +:+ "."
         +:+ decimal (byte_value c) +:+ "." +:+ decimal (byte_value d))%string
  | _ => inl OSError
  end.

(** [_decode_port]: [unpack(">H", port)[0]]. *)
Definition _decode_port (port : bytes) : error + Z :=
  match port with
  | [hi; lo] => inr (byte_value hi * 256 + byte_value lo)
  | _ => inl StructError
  end.

(** The list comprehension over the six-byte records. *)
Fixpoint addresses (ps : list bytes) : error + list (string * Z) :=
  match ps with
  | [] => inr []
  | p :: rest =>
    match inet_ntoa (py_slice_to p 4) with
    | inl e => inl e
    | inr ip =>
      match _decode_port (py_slice_from p 4) with
      | inl e => inl e
      | inr port =>
        match addresses rest with
        | inl e => inl e
        | inr tl => inr ((ip, port) :: tl)
        end
      end
    end
  end.

(** The [peers] property for the [dict] a reply decodes to. An empty
    [str] or [dict] under the key gives no record; any other value that is
    neither a list nor a byte string fails on [len], on the slice or in
    [inet_ntoa]. *)
Definition peers (r : Tracker.TrackerResponse) : error + list (string * Z) :=
  match Tracker.response r with
  | VDict d =>
    match Tracker.dict_get d (b "peers") with
    | None => inl KeyError
    | Some (VList _) => inl NotImplementedError
    | Some (VBytes peers) => addresses (records (length peers) peers 0)
    | Some (VByteArray peers) => addresses (records (length peers) peers 0)
    | Some (VStr EmptyString) => inr []
    | Some (VDict []) => inr []
    | Some _ => inl TypeError
    end
  | _ => inl TypeError
  end.

End TrackerResponse.
(** * Properties *)

Import Scheduler.

(** ** The piece inventory of the manager *)

(** The indexes of the pieces of the three lists, in list order. *)
Definition inventory (pm : PieceManager.t) : list Z :=
  Piece.index <$> (PieceManager.missing_pieces pm
                   ++ PieceManager.ongoing_pieces pm
                   ++ PieceManager.have_pieces pm).

(** [range(total)] *)
Definition piece_indexes (total : Z) : list Z :=
  Z.of_nat <$> seq 0 (Z.to_nat total).

(** Every piece index occurs once in the three lists together, and the
    lists hold [total_pieces] pieces. *)
Definition inventory_invariant (pm : PieceManager.t) : Prop :=
  Forall (fun i => count_occ Z.eq_dec (inventory pm) i = 1%nat)
         (piece_indexes (PieceManager.total_pieces pm))
  /\ Z.of_nat (length (PieceManager.missing_pieces pm)
               + length (PieceManager.ongoing_pieces pm)
               + length (PieceManager.have_pieces pm))
     = PieceManager.total_pieces pm.

(** An operation that only moves pieces between the lists. *)
Definition same_inventory (pm pm' : PieceManager.t) : Prop :=
  inventory pm' ≡ₚ inventory pm
  /\ PieceManager.total_pieces pm' = PieceManager.total_pieces pm.


(** The sum of the lengths of the blocks of a piece. *)
Definition blocks_size (blocks : list Block.t) : Z :=
  foldr Z.add 0 (Block.length <$> blocks).

(** ** The request step of a connection *)

(** The flags under which the loop of [_start] asks for a block. *)
Definition ready_to_request (c : PeerConnection.t) : Prop :=
  PeerConnection.py_in "interested" (PeerConnection.my_state c) = true
  /\ PeerConnection.py_in "stalled" (PeerConnection.my_state c) = false
  /\ PeerConnection.py_in "pending_request" (PeerConnection.my_state c) = false.

(** [next_request] has no block for the peer of the connection. *)
Definition no_block_for (current now : Z) (w : PeerConnection.world) : Prop :=
  fst (PieceManager.next_request (PeerConnection.remote_id (fst w))
         current now (snd w)) = Ok None.

(** Whether the flags hold [pending_request] after the request step. *)
Definition pending_after_request (current now : Z) (w : PeerConnection.world)
    : bool :=
  PeerConnection.py_in "pending_request"
    (PeerConnection.my_state
       (fst (snd (PeerConnection.request_step current now w)))).

(** ** Round trips *)

(** [n] fits the [I] field of a frame. *)
Definition u32 (n : Z) : Prop := 0 <= n < 2 ^ 32.

(** The messages whose class defines [encode] and whose attributes the
    fields of the frame can hold. *)
Definition sendable (m : Wire.message) : Prop :=
  match m with
  | Wire.Interested => True
  | Wire.Have index => u32 index
  | Wire.Request index begin length => u32 index /\ u32 begin /\ u32 length
  | Wire.Cancel index begin length => u32 index /\ u32 begin /\ u32 length
  | Wire.Piece index begin block =>
    u32 index /\ u32 begin /\ u32 (9 + Z.of_nat (List.length block))
  | _ => False
  end.

(** [m.encode()] gives a frame which [parse] turns back into [m], using up
    the frame. *)
Definition frame_roundtrip (m : Wire.message) : Prop :=
  exists frame, Wire.encode m = Ok frame
                /\ Wire.parse frame = (Ok (Some m), []).

(** ** Example states *)

(** A hash function for the examples. *)
Definition example_sha1 (d : bytes) : bytes := d.

(** Three pieces of 32768 bytes and a total size of 90000 bytes. *)
Definition example_torrent : Torrent :=
  mkTorrent 32768 90000 [[1]; [2]; [3]] "example.bin".

(** Two pieces of 16384 bytes and a total size of 32768 bytes: the size is
    a multiple of the piece length. *)
Definition even_torrent : Torrent :=
  mkTorrent 16384 32768 [[1]; [2]] "even.bin".

(** The manager built by [PieceManager.__init__] for [example_torrent]. *)
Definition example_manager : PieceManager.t :=
  PieceManager.mk example_torrent ∅ []
    [Piece.mk 0 [Block.init 0 0 16384; Block.init 0 16384 16384] [1];
     Piece.mk 1 [Block.init 1 0 16384; Block.init 1 16384 16384] [2];
     Piece.mk 2 [Block.init 2 0 16384; Block.init 2 16384 8080] [3]]
    [] [] 300000 3 [].

Definition example_peer : bytes := [80; 49].

(** [example_manager] after [add_peer(example_peer, bitfield)]. *)
Definition manager_with_peer (bitfield : list bool) : PieceManager.t :=
  snd (PieceManager.add_peer example_peer bitfield example_manager).

(** The manager after two calls of [next_request] for a peer that has all
    pieces, both at time 0: the block at offset 16384 of piece 0 has a
    pending request stamped 0. *)
Definition manager_with_pending : PieceManager.t :=
  snd (PieceManager.next_request example_peer 0 0
         (snd (PieceManager.next_request example_peer 0 0
                 (manager_with_peer [true; true; true])))).

(** A connection after handshake and [Unstall], with no request under
    way. *)
Definition example_connection : PeerConnection.t :=
  PeerConnection.mk ["interested"%string] [] example_peer [] false.

(** ** Further notions *)

(** The blocks as [_initiate_pieces] lays them out. *)
Definition laid_out (index : Z) (blocks : list Block.t) : Prop :=
  forall (j : nat) (blk : Block.t),
    blocks !! j = Some blk ->
    Block.piece blk = index
    /\ Block.offset blk = Z.of_nat j * REQUEST_SIZE
    /\ Block.status blk = Block.Missing
    /\ Block.data blk = None
    /\ 0 < Block.length blk <= REQUEST_SIZE.

(** The bytes asked of a block are there. *)
Definition has_data (blk : Block.t) : Prop := is_Some (Block.data blk).

(** The blocks are in ascending order of offset. *)
Definition ascending (blocks : list Block.t) : Prop :=
  StronglySorted (fun x y => Block.offset x <= Block.offset y) blocks.

(** ** Further example states *)

(** A torrent with a single piece, whose hash under [example_sha1] is the
    payload [1, 2, 3] itself. *)
Definition small_torrent : Torrent :=
  mkTorrent 32768 20000 [[1; 2; 3]] "small.bin".

(** The piece of [small_torrent] with its first block retrieved and its
    second block asked for. *)
Definition half_piece : Piece.t :=
  Piece.mk 0 [Block.mk 0 0 16384 Block.Retrieved (Some [1; 2]);
              Block.mk 0 16384 3616 Block.Pending None] [1; 2; 3].

Definition manager_downloading : PieceManager.t :=
  PieceManager.mk small_torrent ∅
    [mkPendingRequest (Block.mk 0 16384 3616 Block.Pending None) 0]
    [] [half_piece] [] 300000 1 [].

(** [example_manager] with two peers: [example_peer] has pieces 0 and 1,
    the other peer pieces 1 and 2. *)
Definition two_peers : PieceManager.t :=
  snd (PieceManager.add_peer [80; 50] [false; true; true]
         (manager_with_peer [true; true; false])).

(** The consecutive slices of [k] elements of a sequence, the last one
    shorter when the length is no multiple of [k]; [fuel] bounds their
    number. *)
Fixpoint chunks {A : Type} (fuel k : nat) (l : list A) : list (list A) :=
  match fuel with
  | O => []
  | S fuel' =>
    match l with
    | [] => []
    | _ :: _ => take k l :: chunks fuel' k (drop k l)
    end
  end.

(** A connection as [_start] leaves it after the handshake: stalled and
    interested. *)
Definition stalled_connection : PeerConnection.t :=
  PeerConnection.mk ["stalled"%string; "interested"%string] [] example_peer [] false.

(** The manager after one call of [next_request] for a peer that has all
    pieces: piece 0 is ongoing and its first block handed out. *)
Definition manager_requesting : PieceManager.t :=
  snd (PieceManager.next_request example_peer 0 0
         (manager_with_peer [true; true; true])).

(** The number of registered peers whose bit array shows the piece at
    [index]. *)
Definition holder_count (pm : PieceManager.t) (index : Z) : nat :=
  length (filter (fun kv => snd kv !! Z.to_nat index = Some true)
                 (map_to_list (PieceManager.peers pm))).

(** A manager that has verified piece 1 and still holds two requests for
    its first block, behind a request for a block of the ongoing piece
    0. *)
Definition manager_three_pending : PieceManager.t :=
  PieceManager.mk example_torrent ∅
    [mkPendingRequest (Block.mk 0 16384 16384 Block.Pending None) 5;
     mkPendingRequest (Block.mk 1 0 16384 Block.Pending None) 10;
     mkPendingRequest (Block.mk 1 0 16384 Block.Pending None) 20]
    [Piece.mk 2 [Block.init 2 0 16384; Block.init 2 16384 8080] [3]]
    [Piece.mk 0 [Block.mk 0 0 16384 Block.Retrieved (Some [1]);
                 Block.mk 0 16384 16384 Block.Pending None] [1]]
    [Piece.mk 1 [Block.mk 1 0 16384 Block.Retrieved (Some [2]);
                 Block.mk 1 16384 16384 Block.Retrieved (Some [])] [2]]
    300000 3 [(32768, [2])].

(** A peer in the compact format of a tracker response: the four bytes of
    its address and the two bytes of its port, the high byte first. *)
Definition compact_peer : Type :=
  (ascii * ascii * ascii * ascii * ascii * ascii)%type.

Definition compact_bytes (r : compact_peer) : Bencode.bytes :=
  let '(a, b0, c, d, hi, lo) := r in [a; b0; c; d; hi; lo].

(** The value of a byte in decimal digits. *)
Definition byte_decimal (c : ascii) : string :=
  NilZero.string_of_uint (N.to_uint (N_of_ascii c)).

Definition dotted_quad (r : compact_peer) : string :=
  let '(a, b0, c, d, _, _) := r in
  (byte_decimal a ++ "." ++ byte_decimal b0 ++ "." ++ byte_decimal c ++ "."
   ++ byte_decimal d)%string.

Definition port_number (r : compact_peer) : Z :=
  let '(_, _, _, _, hi, lo) := r in
  256 * Z.of_N (N_of_ascii hi) + Z.of_N (N_of_ascii lo).

(** * Proofs *)

(** ** The piece inventory of the manager *)

Lemma same_inventory_refl pm : same_inventory pm pm.
Proof. split; reflexivity. Qed.

Lemma same_inventory_trans pm1 pm2 pm3 :
  same_inventory pm1 pm2 -> same_inventory pm2 pm3 -> same_inventory pm1 pm3.
Proof.
  intros [H1 H2] [H3 H4]. split; [by rewrite H3 | congruence].
Qed.

Lemma inventory_length pm :
  length (inventory pm)
  = (length (PieceManager.missing_pieces pm)
     + length (PieceManager.ongoing_pieces pm)
     + length (PieceManager.have_pieces pm))%nat.
Proof.
  unfold inventory. rewrite length_fmap, !length_app. lia.
Qed.

Lemma same_inventory_invariant pm pm' :
  same_inventory pm pm' -> inventory_invariant pm -> inventory_invariant pm'.
Proof.
  intros [Hp Ht] [Hc Hl]. split.
  - rewrite Ht. eapply Forall_impl; [exact Hc |].
    intros i Hi. cbn in Hi |- *.
    rewrite <- Hi. apply Permutation_count_occ. exact Hp.
  - rewrite Ht, <- Hl, <- !inventory_length.
    f_equal. by apply Permutation_length.
Qed.

(** *** The pieces keep their index *)

Lemma next_request_index p :
  Piece.index (snd (Piece.next_request p)) = Piece.index p.
Proof.
  unfold Piece.next_request. by destruct (Piece.take_missing (Piece.blocks p)).
Qed.

Lemma insert_same_index (l : list Piece.t) (pos : nat) (p p' : Piece.t) :
  l !! pos = Some p -> Piece.index p' = Piece.index p ->
  Piece.index <$> <[pos := p']> l = Piece.index <$> l.
Proof.
  intros Hl Hi. rewrite list_fmap_insert, Hi.
  apply list_insert_id. by rewrite list_lookup_fmap, Hl.
Qed.

Lemma find_piece_lookup piece_index ps pos0 pos p :
  PieceManager.find_piece piece_index ps pos0 = Some (pos, p) ->
  (pos0 <= pos)%nat /\ ps !! (pos - pos0)%nat = Some p.
Proof.
  revert pos0. induction ps as [|q rest IH]; intros pos0; [done |].
  cbn. destruct (Piece.index q =? piece_index).
  - intros [= <- <-]. split; [lia |]. by rewrite Nat.sub_diag.
  - intros H. apply IH in H as [Hle Hl]. split; [lia |].
    replace (pos - pos0)%nat with (S (pos - S pos0)) by lia. done.
Qed.

Lemma ongoing_loop_indexes pm peer_id seen rest blk ongoing :
  PieceManager.ongoing_loop pm peer_id seen rest = Ok (Some (blk, ongoing)) ->
  Piece.index <$> ongoing = Piece.index <$> (seen ++ rest).
Proof.
  revert seen. induction rest as [|piece rest IH]; intros seen; [done |].
  cbn. destruct (PieceManager.peer_has pm peer_id (Piece.index piece)) as [bit|]; [|done].
  cbn. assert (Hnext : PieceManager.ongoing_loop pm peer_id (seen ++ [piece]) rest
                       = Ok (Some (blk, ongoing)) ->
                       Piece.index <$> ongoing = Piece.index <$> seen ++ piece :: rest).
  { intros H. apply IH in H. by rewrite <- app_assoc in H. }
  destruct bit; [|exact Hnext].
  pose proof (next_request_index piece) as Hi.
  destruct (Piece.next_request piece) as [[blk'|] piece']; [|exact Hnext].
  intros [= <- <-]. cbn in Hi. by rewrite !fmap_app, !fmap_cons, Hi.
Qed.

(** *** Each operation moves pieces between the lists at most *)

Lemma add_peer_same_inventory peer_id bitfield pm :
  same_inventory pm (snd (PieceManager.add_peer peer_id bitfield pm)).
Proof. by split. Qed.

Lemma update_peer_same_inventory peer_id index pm :
  same_inventory pm (snd (PieceManager.update_peer peer_id index pm)).
Proof.
  unfold PieceManager.update_peer.
  destruct (PieceManager.peers pm !! peer_id); [|apply same_inventory_refl].
  cbn zeta. case_match; by split.
Qed.

Lemma remove_peer_same_inventory peer_id pm :
  same_inventory pm (snd (PieceManager.remove_peer peer_id pm)).
Proof.
  unfold PieceManager.remove_peer.
  destruct (PieceManager.peers pm !! peer_id); by split.
Qed.

Lemma next_ongoing_same_inventory peer_id now pm :
  same_inventory pm (snd (PieceManager._next_ongoing peer_id now pm)).
Proof.
  unfold PieceManager._next_ongoing.
  destruct (PieceManager.ongoing_loop pm peer_id [] (PieceManager.ongoing_pieces pm))
    as [[[blk ongoing]|]|] eqn:Hloop; try apply same_inventory_refl.
  apply ongoing_loop_indexes in Hloop. cbn in Hloop.
  split; [|done]. unfold inventory. cbn.
  by rewrite !fmap_app, Hloop.
Qed.

Lemma get_rarest_piece_same_inventory peer_id pm :
  same_inventory pm (snd (PieceManager._get_rarest_piece peer_id pm)).
Proof.
  unfold PieceManager._get_rarest_piece.
  destruct (PieceManager.count_loop pm peer_id 0 (PieceManager.missing_pieces pm))
    as [piece_count|]; [|apply same_inventory_refl].
  destruct (PieceManager.py_min piece_count) as [[pos c]|];
    [|apply same_inventory_refl].
  destruct (PieceManager.missing_pieces pm !! pos) as [rarest|] eqn:Hl;
    [|apply same_inventory_refl].
  split; [|done]. unfold inventory. cbn.
  apply fmap_Permutation.
  rewrite (delete_Permutation _ _ _ Hl) at 2.
  rewrite <- !app_assoc. cbn.
  rewrite !app_assoc. symmetry. apply Permutation_middle.
Qed.

(** The piece [_get_rarest_piece] returns is the last ongoing one. *)
Lemma get_rarest_piece_last peer_id pm rarest pm' :
  PieceManager._get_rarest_piece peer_id pm = (Ok rarest, pm') ->
  PieceManager.ongoing_pieces pm'
  !! (length (PieceManager.ongoing_pieces pm') - 1)%nat = Some rarest.
Proof.
  unfold PieceManager._get_rarest_piece.
  destruct (PieceManager.count_loop pm peer_id 0 (PieceManager.missing_pieces pm))
    as [piece_count|]; [|done].
  destruct (PieceManager.py_min piece_count) as [[pos c]|]; [|done].
  destruct (PieceManager.missing_pieces pm !! pos) as [rarest'|]; [|done].
  intros [= <- <-]. cbn. rewrite length_app. cbn.
  replace (length (PieceManager.ongoing_pieces pm) + 1 - 1)%nat
    with (length (PieceManager.ongoing_pieces pm) + 0)%nat by lia.
  by rewrite lookup_app_r, Nat.add_0_r, Nat.sub_diag by lia.
Qed.

Lemma set_ongoing_same_inventory pm pos p p' :
  PieceManager.ongoing_pieces pm !! pos = Some p ->
  Piece.index p' = Piece.index p ->
  same_inventory pm
    (PieceManager.set_ongoing_pieces (<[pos := p']> (PieceManager.ongoing_pieces pm)) pm).
Proof.
  intros Hl Hi. split; [|done]. unfold inventory. cbn.
  by rewrite !fmap_app, (insert_same_index _ _ _ _ Hl Hi).
Qed.

Lemma next_request_same_inventory peer_id current now pm :
  same_inventory pm (snd (PieceManager.next_request peer_id current now pm)).
Proof.
  unfold PieceManager.next_request.
  destruct (PieceManager.peers pm !! peer_id); [|apply same_inventory_refl].
  unfold bind at 1. cbn.
  destruct (PieceManager.expired_loop pm peer_id current (PieceManager.pending_blocks pm))
    as [[blk|]|]; try apply same_inventory_refl.
  unfold bind at 1.
  pose proof (next_ongoing_same_inventory peer_id now pm) as Hong.
  destruct (PieceManager._next_ongoing peer_id now pm) as [[[blk|]|] pm1];
    cbn in Hong; try exact Hong.
  unfold bind.
  pose proof (get_rarest_piece_same_inventory peer_id pm1) as Hrare.
  pose proof (get_rarest_piece_last peer_id pm1) as Hlast.
  destruct (PieceManager._get_rarest_piece peer_id pm1) as [[rarest|] pm2];
    cbn in Hrare; [|by eapply same_inventory_trans].
  specialize (Hlast _ _ eq_refl).
  pose proof (next_request_index rarest) as Hi.
  destruct (Piece.next_request rarest) as [blk rarest']. cbn in Hi |- *.
  eapply same_inventory_trans; [exact Hong |].
  eapply same_inventory_trans; [exact Hrare |].
  by eapply set_ongoing_same_inventory.
Qed.

Lemma block_received_same_inventory sha1 peer_id piece_index block_offset data pm :
  same_inventory pm
    (snd (PieceManager.block_received sha1 peer_id piece_index block_offset data pm)).
Proof.
  unfold PieceManager.block_received. cbn zeta.
  destruct (PieceManager.find_piece piece_index _ 0) as [[pos piece0]|] eqn:Hfind;
    [|by split].
  cbn in Hfind. apply find_piece_lookup in Hfind as [_ Hl].
  rewrite Nat.sub_0_r in Hl.
  set (piece := Piece.block_received block_offset data piece0).
  assert (Hstore : same_inventory pm
            (PieceManager.set_ongoing_pieces
               (<[pos := piece]> (PieceManager.ongoing_pieces pm))
               (PieceManager.set_pending_blocks
                  (PieceManager.drop_pending piece_index block_offset
                     (PieceManager.pending_blocks pm)) pm))).
  { split; [|done]. unfold inventory. cbn.
    by rewrite !fmap_app, (insert_same_index _ pos piece0 piece Hl eq_refl). }
  destruct (Piece.is_complete piece); [|exact Hstore].
  destruct (Piece.is_hash_matching sha1 piece) as [[|]|]; [| |exact Hstore].
  - unfold bind, PieceManager._write.
    destruct (Piece.data piece); [|exact Hstore].
    assert (Hmove : same_inventory pm
              (PieceManager.set_have_pieces (PieceManager.have_pieces pm ++ [piece])
                 (PieceManager.set_ongoing_pieces
                    (delete pos (<[pos := piece]> (PieceManager.ongoing_pieces pm)))
                    pm))).
    { split; [|done]. unfold inventory. cbn.
      apply lookup_lt_Some in Hl as Hlt.
      assert (Hp : <[pos := piece]> (PieceManager.ongoing_pieces pm) !! pos = Some piece)
        by by apply list_lookup_insert_eq.
      rewrite !fmap_app. apply Permutation_app_head.
      rewrite <- (insert_same_index _ pos piece0 piece Hl eq_refl).
      rewrite <- !fmap_app. apply fmap_Permutation.
      rewrite (delete_Permutation _ _ _ Hp) at 2.
      rewrite app_assoc. symmetry. apply Permutation_cons_append. }
    cbn. case_match; exact Hmove.
  - cbn. split; [|done]. unfold inventory. cbn.
    rewrite !fmap_app, list_insert_insert_eq.
    by rewrite (insert_same_index _ pos piece0 (Piece.reset piece) Hl eq_refl).
Qed.

(** The manager [__init__] builds satisfies the invariant. *)
Lemma example_manager_init :
  PieceManager.init example_torrent = Ok example_manager.
Proof. reflexivity. Qed.

Lemma example_manager_invariant : inventory_invariant example_manager.
Proof. split; [repeat constructor | reflexivity]. Qed.

(** C5. Every public operation of the piece manager ([add_peer],
    [update_peer], [remove_peer], [next_request], [block_received]),
    whether it returns or raises, leaves a manager in which each piece
    index occurs in exactly one of [missing_pieces], [ongoing_pieces] and
    [have_pieces], whose lengths add up to [total_pieces], provided the
    manager was such before. *)
Theorem operations_preserve_inventory
    (sha1 : bytes -> bytes) (pm : PieceManager.t) :
  inventory_invariant pm ->
  (forall peer_id bitfield,
     inventory_invariant (snd (PieceManager.add_peer peer_id bitfield pm)))
  /\ (forall peer_id index,
        inventory_invariant (snd (PieceManager.update_peer peer_id index pm)))
  /\ (forall peer_id,
        inventory_invariant (snd (PieceManager.remove_peer peer_id pm)))
  /\ (forall peer_id current now,
        inventory_invariant
          (snd (PieceManager.next_request peer_id current now pm)))
  /\ (forall peer_id piece_index block_offset data,
        inventory_invariant
          (snd (PieceManager.block_received sha1 peer_id piece_index
                  block_offset data pm))).
Proof.
  intros Hinv. split; [|split; [|split; [|split]]]; intros;
    (eapply same_inventory_invariant; [|exact Hinv]).
  - apply add_peer_same_inventory.
  - apply update_peer_same_inventory.
  - apply remove_peer_same_inventory.
  - apply next_request_same_inventory.
  - apply block_received_same_inventory.
Qed.

Lemma operations_preserve_inventory_witness :
  inventory_invariant (manager_with_peer [true; true; false])
  /\ inventory_invariant
       (snd (PieceManager.next_request example_peer 0 0
               (manager_with_peer [true; true; false]))).
Proof.
  assert (H : inventory_invariant (manager_with_peer [true; true; false])).
  { split; [repeat constructor | reflexivity]. }
  split; [exact H |].
  apply (operations_preserve_inventory example_sha1
           (manager_with_peer [true; true; false]) H).
Defined.
(** ** Frames of the wire protocol *)

Section Slices.
Context {A : Type}.
Implicit Types l : list A.

Lemma py_slice_nonneg l lo hi :
  0 <= lo <= hi -> hi <= Z.of_nat (length l) ->
  py_slice l lo hi = take (Z.to_nat (hi - lo)) (drop (Z.to_nat lo) l).
Proof.
  intros Hlo Hhi. unfold py_slice, py_clamp.
  destruct (Z.ltb_spec lo 0), (Z.ltb_spec hi 0); try lia.
  by rewrite !Z.min_l by lia.
Qed.

Lemma py_slice_to_app l1 l2 :
  py_slice_to (l1 ++ l2) (Z.of_nat (length l1)) = l1.
Proof.
  unfold py_slice_to. rewrite py_slice_nonneg by (rewrite ?length_app; lia).
  rewrite Z.sub_0_r, Nat2Z.id. change (Z.to_nat 0) with 0%nat.
  by rewrite drop_0, take_app_length.
Qed.

Lemma py_slice_from_app l1 l2 :
  py_slice_from (l1 ++ l2) (Z.of_nat (length l1)) = l2.
Proof.
  unfold py_slice_from. rewrite py_slice_nonneg by (rewrite ?length_app; lia).
  rewrite Nat2Z.id, drop_app_length. apply take_ge. rewrite length_app. lia.
Qed.
Lemma py_getitem_nonneg l i x :
  0 <= i -> l !! Z.to_nat i = Some x -> py_getitem l i = Ok x.
Proof.
  intros Hi Hl. unfold py_getitem.
  apply lookup_lt_Some in Hl as Hlt.
  destruct (Z.ltb_spec i 0); [lia |].
  destruct (Z.ltb_spec i 0), (Z.leb_spec (Z.of_nat (length l)) i); try lia.
  by rewrite Hl.
Qed.
End Slices.

Lemma pack_I_ok n :
  0 <= n < 2 ^ 32 ->
  exists a b c d, Wire.pack_I n = Ok [a; b; c; d]
                  /\ Wire.unpack_I [a; b; c; d] = Ok n.
Proof.
  intros Hn. unfold Wire.pack_I.
  destruct (Z.leb_spec 0 n), (Z.ltb_spec n (2 ^ 32)); try lia. cbn [andb].
  do 4 eexists. split; [reflexivity |].
  unfold Wire.unpack_I. f_equal. 
  change (2 ^ 24) with 16777216. change (2 ^ 16) with 65536. change (2 ^ 8) with 256.
  change (2 ^ 32) with 4294967296 in *.
  Z.div_mod_to_equations. lia.
Qed.

Lemma pack_I_inv n l :
  Wire.pack_I n = Ok l ->
  exists a b c d, l = [a; b; c; d] /\ Wire.unpack_I [a; b; c; d] = Ok n.
Proof.
  intros H. assert (Hn : 0 <= n < 2 ^ 32).
  { unfold Wire.pack_I in H.
    destruct (Z.leb_spec 0 n), (Z.ltb_spec n (2 ^ 32)); try discriminate. lia. }
  destruct (pack_I_ok n Hn) as (a & b0 & c & d & Hp & Hu).
  rewrite Hp in H. injection H as <-. by exists a, b0, c, d.
Qed.


Ltac eval_tests :=
  repeat match goal with
         | |- context [Z.eqb ?a ?b] =>
           let v := eval vm_compute in (Z.eqb a b) in
           match v with
           | true => change (Z.eqb a b) with true
           | false => change (Z.eqb a b) with false
           end
         end.

Lemma pack_b_inv i l :
  Wire.pack_b i = Ok l -> l = [i mod 256] /\ Wire.unpack_b l = Ok i.
Proof.
  unfold Wire.pack_b.
  destruct (Z.leb_spec (-128) i), (Z.ltb_spec i 128); try discriminate.
  intros [= <-]. split; [done |]. unfold Wire.unpack_b. f_equal.
  destruct (Z.ltb_spec (i mod 256) 128); Z.div_mod_to_equations; lia.
Qed.

(** A frame [<length><id><body>] in front of the buffer passes the tests of
    [parse] on the header and is handed to the chain of tests on the id. *)
Lemma parse_framed (hdr body rest : Wire.bytes) (id : Z) :
  -128 <= id < 128 ->
  Wire.pack_I (1 + Z.of_nat (length body)) = Ok hdr ->
  let frame := hdr ++ [id mod 256] ++ body in
  Wire.parse (frame ++ rest) = Wire.parse_id id frame rest (frame ++ rest).
Proof.
  intros Hid Hhdr frame.
  apply pack_I_inv in Hhdr as (a & b0 & c & d & -> & Hu).
  assert (Hlen : Z.of_nat (length (frame ++ rest))
                 = 5 + Z.of_nat (length body) + Z.of_nat (length rest)).
  { unfold frame. rewrite !length_app. cbn [length]. lia. }
  assert (Hframe : Z.of_nat (length frame) = 4 + (1 + Z.of_nat (length body))).
  { unfold frame. rewrite !length_app. cbn [length]. lia. }
  assert (H04 : py_slice (frame ++ rest) 0 4 = [a; b0; c; d]).
  { rewrite py_slice_nonneg by lia. done. }
  assert (H45 : py_slice (frame ++ rest) 4 5 = [id mod 256]).
  { rewrite py_slice_nonneg by lia. done. }
  unfold Wire.parse, bind, get, lift.
  rewrite H04, H45, Hu, Hlen.
  destruct (Z.ltb_spec 4 (5 + Z.of_nat (length body) + Z.of_nat (length rest)));
    [|lia].
  destruct (Z.eqb_spec (1 + Z.of_nat (length body)) 0); [lia |].
  destruct (Z.leb_spec (1 + Z.of_nat (length body))
              (5 + Z.of_nat (length body) + Z.of_nat (length rest))); [|lia].
  assert (Hb : Wire.unpack_b [id mod 256] = Ok id).
  { apply (pack_b_inv id). unfold Wire.pack_b.
    destruct (Z.leb_spec (-128) id), (Z.ltb_spec id 128); try lia. done. }
  rewrite Hb. rewrite <- Hframe.
  by rewrite py_slice_to_app, py_slice_from_app.
Qed.

Lemma pack_s_exact (d : Wire.bytes) :
  Wire.pack_s (Z.of_nat (length d)) d = Ok d.
Proof.
  unfold Wire.pack_s. destruct (Z.ltb_spec (Z.of_nat (length d)) 0); [lia |].
  rewrite Nat2Z.id, Nat.sub_diag, take_ge by lia. cbn. by rewrite app_nil_r.
Qed.

Lemma unpack_IbI_frame hdr l i lx x :
  Wire.unpack_I hdr = Ok l -> length hdr = 4%nat ->
  Wire.unpack_I lx = Ok x -> length lx = 4%nat ->
  -128 <= i < 128 ->
  Wire.unpack_IbI (hdr ++ [i mod 256] ++ lx) = Ok (l, i, x).
Proof.
  intros Hl H1 Hx H2 Hi.
  destruct hdr as [|h0 [|h1 [|h2 [|h3 [|]]]]]; try discriminate.
  destruct lx as [|x0 [|x1 [|x2 [|x3 [|]]]]]; try discriminate.
  unfold Wire.unpack_IbI. cbn [app length].
  change (py_slice [h0; h1; h2; h3; i mod 256; x0; x1; x2; x3] 0 4) with [h0; h1; h2; h3].
  change (py_slice [h0; h1; h2; h3; i mod 256; x0; x1; x2; x3] 4 5) with [i mod 256].
  change (py_slice [h0; h1; h2; h3; i mod 256; x0; x1; x2; x3] 5 9) with [x0; x1; x2; x3].
  rewrite Hl, Hx. cbn [rbind Z.of_nat Z.eqb Pos.eqb Pos.of_succ_nat Pos.succ].
  assert (Hb : Wire.unpack_b [i mod 256] = Ok i).
  { apply (pack_b_inv i). unfold Wire.pack_b.
    destruct (Z.leb_spec (-128) i), (Z.ltb_spec i 128); try lia. done. }
  by rewrite Hb.
Qed.

Lemma unpack_b_id i : -128 <= i < 128 -> Wire.unpack_b [i mod 256] = Ok i.
Proof.
  intros Hi. apply (pack_b_inv i). unfold Wire.pack_b.
  destruct (Z.leb_spec (-128) i), (Z.ltb_spec i 128); try lia. done.
Qed.

Lemma unpack_IbIII_frame hdr l i lx x ly y lz z :
  Wire.unpack_I hdr = Ok l -> length hdr = 4%nat ->
  Wire.unpack_I lx = Ok x -> length lx = 4%nat ->
  Wire.unpack_I ly = Ok y -> length ly = 4%nat ->
  Wire.unpack_I lz = Ok z -> length lz = 4%nat ->
  -128 <= i < 128 ->
  Wire.unpack_IbIII (hdr ++ [i mod 256] ++ lx ++ ly ++ lz) = Ok (l, i, x, y, z).
Proof.
  intros Hl H1 Hx H2 Hy H3 Hz H4 Hi.
  destruct hdr as [|h0 [|h1 [|h2 [|h3 [|]]]]]; try discriminate.
  destruct lx as [|x0 [|x1 [|x2 [|x3 [|]]]]]; try discriminate.
  destruct ly as [|y0 [|y1 [|y2 [|y3 [|]]]]]; try discriminate.
  destruct lz as [|z0 [|z1 [|z2 [|z3 [|]]]]]; try discriminate.
  unfold Wire.unpack_IbIII. cbn [app length].
  set (frame := [h0; h1; h2; h3; i mod 256; x0; x1; x2; x3;
                 y0; y1; y2; y3; z0; z1; z2; z3]).
  change (py_slice frame 0 4) with [h0; h1; h2; h3].
  change (py_slice frame 4 5) with [i mod 256].
  change (py_slice frame 5 9) with [x0; x1; x2; x3].
  change (py_slice frame 9 13) with [y0; y1; y2; y3].
  change (py_slice frame 13 17) with [z0; z1; z2; z3].
  rewrite Hl, Hx, Hy, Hz, (unpack_b_id i Hi). done.
Qed.

Lemma unpack_IbIIs_frame hdr l i lx x ly y (blk : Wire.bytes) :
  Wire.unpack_I hdr = Ok l -> length hdr = 4%nat ->
  Wire.unpack_I lx = Ok x -> length lx = 4%nat ->
  Wire.unpack_I ly = Ok y -> length ly = 4%nat ->
  -128 <= i < 128 ->
  Wire.unpack_IbIIs (Z.of_nat (length blk)) (hdr ++ [i mod 256] ++ lx ++ ly ++ blk)
  = Ok (l, i, x, y, blk).
Proof.
  intros Hl H1 Hx H2 Hy H3 Hi.
  destruct hdr as [|h0 [|h1 [|h2 [|h3 [|]]]]]; try discriminate.
  destruct lx as [|x0 [|x1 [|x2 [|x3 [|]]]]]; try discriminate.
  destruct ly as [|y0 [|y1 [|y2 [|y3 [|]]]]]; try discriminate.
  unfold Wire.unpack_IbIIs.
  set (frame := [h0; h1; h2; h3] ++ [i mod 256] ++ [x0; x1; x2; x3]
                ++ [y0; y1; y2; y3] ++ blk).
  assert (Hlen : Z.of_nat (length frame) = 13 + Z.of_nat (length blk)).
  { unfold frame. cbn [app length]. lia. }
  rewrite Hlen, Z.eqb_refl.
  destruct (Z.leb_spec 0 (Z.of_nat (length blk))); [|lia]. cbn [andb].
  assert (H04 : py_slice frame 0 4 = [h0; h1; h2; h3])
    by (rewrite py_slice_nonneg by lia; done).
  assert (H45 : py_slice frame 4 5 = [i mod 256])
    by (rewrite py_slice_nonneg by lia; done).
  assert (H59 : py_slice frame 5 9 = [x0; x1; x2; x3])
    by (rewrite py_slice_nonneg by lia; done).
  assert (H913 : py_slice frame 9 13 = [y0; y1; y2; y3])
    by (rewrite py_slice_nonneg by lia; done).
  assert (Hblk : py_slice frame 13 (13 + Z.of_nat (length blk)) = blk).
  { rewrite py_slice_nonneg by lia.
    replace (Z.to_nat (13 + Z.of_nat (length blk) - 13)) with (length blk) by lia.
    change (drop (Z.to_nat 13) frame) with blk. by apply take_ge. }
  rewrite H04, H45, H59, H913, Hblk, Hl, Hx, Hy, (unpack_b_id i Hi). done.
Qed.

Ltac pack_fields :=
  repeat match goal with
         | |- context [Wire.pack_I ?n] =>
           let l := fresh "l" in
           let H := fresh "Hpack" in
           destruct (Wire.pack_I n) as [l|] eqn:H; cbn [rbind]; [|discriminate];
           apply pack_I_inv in H as (? & ? & ? & ? & -> & H)
         end.

Ltac split_fields :=
  match goal with
  | |- context [[?a; ?b; ?c; ?d; ?e; ?f; ?g; ?h; ?i; ?j; ?k; ?l]] =>
    change [a; b; c; d; e; f; g; h; i; j; k; l]
      with ([a; b; c; d] ++ [e; f; g; h] ++ [i; j; k; l])
  end.

Ltac run_parse_id :=
  unfold Wire.parse_id; eval_tests; unfold bind, put, lift, ret.

(** A frame made by [encode], in front of any bytes, is parsed back to the
    message, and the bytes behind it are left in the buffer. *)
Lemma parse_encode (m : Wire.message) (frame rest : Wire.bytes) :
  Wire.encode m = Ok frame ->
  Wire.parse (frame ++ rest) = (Ok (Some m), rest).
Proof.
  destruct m as [| | | | |index|bitfield|index begin len|index begin blk|index begin len];
    cbn [Wire.encode]; try discriminate.
  - intros [= <-].
    etrans; [apply (parse_framed [0; 0; 0; 1] [] rest 2); done || lia |].
    by run_parse_id.
  - change (Wire.pack_I 5) with (Ok (A:=Wire.bytes) [0; 0; 0; 5]).
    change (Wire.pack_b Wire.PeerMessage.Have) with (Ok (A:=Wire.bytes) [4]).
    cbn [rbind]. pack_fields. intros [= <-].
    etrans; [apply (parse_framed [0; 0; 0; 5] _ rest 4); done || lia |].
    run_parse_id. unfold Wire.Have_decode.
    by rewrite (unpack_IbI_frame [0; 0; 0; 5] 5 4 _ index).
  - change (Wire.pack_I 13) with (Ok (A:=Wire.bytes) [0; 0; 0; 13]).
    change (Wire.pack_b Wire.PeerMessage.Request) with (Ok (A:=Wire.bytes) [6]).
    cbn [rbind]. pack_fields. intros [= <-].
    etrans; [apply (parse_framed [0; 0; 0; 13] _ rest 6); done || lia |].
    run_parse_id. unfold Wire.Request_decode. split_fields.
    by rewrite (unpack_IbIII_frame [0; 0; 0; 13] 13 6 _ index _ begin _ len).
  - change (Wire.pack_b Wire.PeerMessage.Piece) with (Ok (A:=Wire.bytes) [7]).
    rewrite pack_s_exact.
    destruct (Wire.pack_I (9 + Z.of_nat (length blk))) as [hdr|] eqn:Hhdr;
      cbn [rbind]; [|discriminate].
    pack_fields. intros [= <-].
    etrans; [apply (parse_framed hdr _ rest 7);
             [lia|rewrite <- Hhdr; f_equal; rewrite ?length_app; cbn [length]; lia] |].
    apply pack_I_inv in Hhdr as (h0 & h1 & h2 & h3 & -> & Hhdr).
    run_parse_id. unfold Wire.Piece_decode.
    match goal with
    | |- context [?a :: ?b :: ?c :: ?d :: ?e :: ?f :: ?g :: ?h :: blk] =>
      change (a :: b :: c :: d :: e :: f :: g :: h :: blk)
        with ([a; b; c; d] ++ [e; f; g; h] ++ blk)
    end.
    set (frame := [h0; h1; h2; h3] ++ _).
    assert (Hlen : Z.of_nat (length frame) = 9 + Z.of_nat (length blk) + 4).
    { unfold frame. rewrite !length_app. cbn [length]. lia. }
    assert (H4 : py_slice_to frame 4 = [h0; h1; h2; h3]).
    { unfold py_slice_to. rewrite py_slice_nonneg by lia. done. }
    rewrite H4, Hhdr. cbn [rbind].
    rewrite <- Hlen, <- (app_nil_r frame) at 1. rewrite py_slice_to_app.
    replace (9 + Z.of_nat (length blk) - 9) with (Z.of_nat (length blk)) by lia.
    unfold frame.
    by rewrite (unpack_IbIIs_frame [h0; h1; h2; h3] (9 + Z.of_nat (length blk)) 7
                  _ index _ begin blk).
  - change (Wire.pack_I 13) with (Ok (A:=Wire.bytes) [0; 0; 0; 13]).
    change (Wire.pack_b Wire.PeerMessage.Cancel) with (Ok (A:=Wire.bytes) [8]).
    cbn [rbind]. pack_fields. intros [= <-].
    etrans; [apply (parse_framed [0; 0; 0; 13] _ rest 8); done || lia |].
    run_parse_id. unfold Wire.Cancel_decode. split_fields.
    by rewrite (unpack_IbIII_frame [0; 0; 0; 13] 13 8 _ index _ begin _ len).
Qed.

(** With at most four bytes in the buffer [parse] returns [None] and leaves
    the buffer alone. *)
Lemma parse_short_buffer (buffer : Wire.bytes) :
  (length buffer <= 4)%nat -> Wire.parse buffer = (Ok None, buffer).
Proof.
  intros H. unfold Wire.parse, bind, get.
  destruct (Z.ltb_spec 4 (Z.of_nat (length buffer))); [lia | done].
Qed.

(** [encode] returns a frame for every sendable message. *)
Lemma encode_sendable (m : Wire.message) :
  sendable m -> exists frame, Wire.encode m = Ok frame.
Proof.
  assert (Hpack : forall n, u32 n -> exists l, Wire.pack_I n = Ok l).
  { intros n Hn. destruct (pack_I_ok n Hn) as (a & b0 & c & d & H & _). eauto. }
  destruct m as [| | | | |index|bitfield|index begin len|index begin blk|index begin len];
    cbn [sendable Wire.encode]; try done.
  - intros _. by eexists.
  - intros (l & ->)%Hpack. by eexists.
  - intros ((l1 & ->)%Hpack & (l2 & ->)%Hpack & (l3 & ->)%Hpack). by eexists.
  - intros ((l1 & ->)%Hpack & (l2 & ->)%Hpack & (l3 & ->)%Hpack).
    rewrite pack_s_exact. by eexists.
  - intros ((l1 & ->)%Hpack & (l2 & ->)%Hpack & (l3 & ->)%Hpack). by eexists.
Qed.

(** C3. With the five bytes [00 00 00 03 02] in the buffer, fewer than the
    [4 + 3] the length prefix announces, [parse] returns [Interested]
    instead of [None]; with [00 00 00 05 04] it raises [struct.error] and
    empties the buffer; and for a keep-alive frame followed by one byte it
    returns [KeepAlive] and consumes nothing. *)
Theorem parse_incomplete_frames :
  Wire.parse [0; 0; 0; 3; 2] = (Ok (Some Wire.Interested), [])
  /\ Wire.parse [0; 0; 0; 5; 4] = (Raise StructError, [])
  /\ Wire.parse [0; 0; 0; 0; 9] = (Ok (Some Wire.KeepAlive), [0; 0; 0; 0; 9]).
Proof. by repeat split. Qed.

(** C9 as stated fails for the classes without [encode]:
    [NotInterested().encode()] raises [AttributeError], there is no frame
    to decode. *)
Lemma not_interested_has_no_frame : ~ frame_roundtrip Wire.NotInterested.
Proof. intros (frame & Hencode & _). discriminate Hencode. Qed.

(** C9, amended. For each message of the classes that define [encode]
    ([Interested], [Have], [Request], [Piece], [Cancel]) whose integer
    attributes fit 32 bits, [parse] applied to the frame [encode] returns
    gives back the message and uses up the frame. *)
Theorem sendable_frame_roundtrip (m : Wire.message) :
  sendable m -> frame_roundtrip m.
Proof.
  intros (frame & Hencode)%encode_sendable.
  exists frame. split; [exact Hencode |].
  rewrite <- (app_nil_r frame) at 1. by apply parse_encode.
Qed.

Lemma sendable_frame_roundtrip_witness :
  sendable (Wire.Piece 1 16384 [7; 8; 9])
  /\ frame_roundtrip (Wire.Piece 1 16384 [7; 8; 9]).
Proof.
  assert (H : sendable (Wire.Piece 1 16384 [7; 8; 9])).
  { unfold sendable, u32. cbn. lia. }
  split; [exact H |].
  apply (sendable_frame_roundtrip (Wire.Piece 1 16384 [7; 8; 9]) H).
Defined.

(** ** The number of blocks: [math.ceil(a / REQUEST_SIZE)] *)

Lemma log2_REQUEST_SIZE : Z.log2 REQUEST_SIZE = 14.
Proof. reflexivity. Qed.

(** Below [2 ** 53] the division is exact and the count is the integer
    ceiling. *)
Lemma ceil_div_exact (a : Z) :
  Z.abs a < 2 ^ 53 -> ceil_div a = Ok (- ((- a) / REQUEST_SIZE)).
Proof.
  intros Ha. unfold ceil_div, truediv_REQUEST_SIZE, nearest_double.
  assert (Hbits : Z.log2 (Z.abs a) + 1 <= 53).
  { destruct (Z.eq_dec (Z.abs a) 0) as [->|Hne]; [done |].
    assert (Z.log2 (Z.abs a) < 53); [|lia].
    apply Z.log2_lt_pow2; lia. }
  destruct (Z.leb_spec (Z.log2 (Z.abs a) + 1) 53); [|lia].
  assert (Hbig : 2 ^ 53 < 2 ^ 1024 * REQUEST_SIZE) by done.
  rewrite Z.pow_0_r, Z.mul_1_r.
  destruct (Z.leb_spec (2 ^ 1024 * REQUEST_SIZE) (Z.abs a)); [lia |].
  cbn [rbind math_ceil]. by rewrite log2_REQUEST_SIZE.
Qed.

Lemma ceil_div_0 : ceil_div 0 = Ok 0.
Proof. reflexivity. Qed.

Lemma math_ceil_positive (m e : Z) : 0 < m -> 0 < math_ceil (m, e).
Proof.
  intros Hm. unfold math_ceil. destruct (Z.leb_spec 0 e).
  - apply Z.mul_pos_pos; [done |]. by apply Z.pow_pos_nonneg.
  - assert (0 < 2 ^ (- e)) by (apply Z.pow_pos_nonneg; lia).
    Z.div_mod_to_equations. nia.
Qed.

(** Below [2 ** 1024] the division does not overflow, and a positive
    number gives a positive count. *)
Lemma ceil_div_returns (a : Z) :
  0 <= a < 2 ^ 1024 ->
  exists n, ceil_div a = Ok n /\ (0 < a -> 0 < n).
Proof.
  intros [H0 Ha]. unfold ceil_div, truediv_REQUEST_SIZE, nearest_double.
  rewrite (Z.abs_eq a) by done.
  assert (Hbig : 2 ^ 1024 < 2 ^ 1024 * REQUEST_SIZE) by done.
  destruct (Z.leb_spec (Z.log2 a + 1) 53) as [Hbits|Hbits].
  - rewrite (Z.abs_eq a) by done. rewrite Z.pow_0_r, Z.mul_1_r.
    destruct (Z.leb_spec (2 ^ 1024 * REQUEST_SIZE) a); [lia |].
    eexists. split; [reflexivity |]. apply math_ceil_positive.
  - assert (Hpos : 0 < a).
    { destruct (Z.eq_dec a 0) as [->|]; [done | lia]. }
    pose proof (Z.log2_spec a Hpos) as [Hlo Hhi].
    set (L := Z.log2 a) in *. set (shift := L + 1 - 53).
    assert (Hshift : 0 < shift) by (unfold shift; lia).
    assert (Hpow : 0 < 2 ^ shift) by (apply Z.pow_pos_nonneg; lia).
    assert (HL : 2 ^ L = 2 ^ 52 * 2 ^ shift).
    { rewrite <- Z.pow_add_r by lia. f_equal. unfold shift. lia. }
    assert (HL1 : 2 ^ (L + 1) = 2 ^ 53 * 2 ^ shift).
    { rewrite <- Z.pow_add_r by lia. f_equal. unfold shift. lia. }
    assert (Hq : 2 ^ 52 <= a / 2 ^ shift < 2 ^ 53).
    { split.
      - apply Z.div_le_lower_bound; lia.
      - apply Z.div_lt_upper_bound; lia. }
    set (q' := if _ : bool then a / 2 ^ shift + 1 else a / 2 ^ shift).
    assert (Hq' : 2 ^ 52 <= q' <= 2 ^ 53) by (unfold q'; destruct (_ || _); lia).
    assert (Hsgn : Z.sgn a = 1) by (apply Z.sgn_pos; lia).
    rewrite Hsgn, Z.mul_1_l.
    assert (H52 : 0 < 2 ^ 52) by done.
    rewrite (Z.abs_eq q') by lia.
    assert (HL2 : 2 ^ (L + 1) <= 2 ^ 1024).
    { apply Z.pow_le_mono_r; [lia |].
      assert (L < 1024); [|lia]. apply Z.log2_lt_pow2; lia. }
    destruct (Z.leb_spec (2 ^ 1024 * REQUEST_SIZE) (q' * 2 ^ shift)) as [Hov|_].
    + exfalso. assert (q' * 2 ^ shift <= 2 ^ 53 * 2 ^ shift) by nia. lia.
    + eexists. split; [reflexivity |]. intros _.
      apply math_ceil_positive. lia.
Qed.

(** ** The blocks of the final piece *)

Lemma blocks_size_app bs1 bs2 :
  blocks_size (bs1 ++ bs2) = blocks_size bs1 + blocks_size bs2.
Proof.
  unfold blocks_size. induction bs1 as [|blk bs1 IH]; cbn in *; lia.
Qed.

Lemma request_blocks_succ index (n : nat) :
  PieceManager.request_blocks index (Z.of_nat (S n))
  = PieceManager.request_blocks index (Z.of_nat n)
    ++ [Block.init index (Z.of_nat n * REQUEST_SIZE) REQUEST_SIZE].
Proof.
  unfold PieceManager.request_blocks. rewrite !Nat2Z.id.
  by rewrite seq_S, map_app.
Qed.

Lemma request_blocks_size index (n : nat) :
  blocks_size (PieceManager.request_blocks index (Z.of_nat n))
  = Z.of_nat n * REQUEST_SIZE.
Proof.
  induction n as [|n IH]; [done |].
  rewrite request_blocks_succ, blocks_size_app, IH.
  unfold blocks_size. cbn. lia.
Qed.

Lemma request_blocks_length index (n : nat) :
  length (PieceManager.request_blocks index (Z.of_nat n)) = n.
Proof.
  unfold PieceManager.request_blocks.
  by rewrite length_map, length_seq, Nat2Z.id.
Qed.

(** When the total size is a multiple of the piece length the final piece
    gets no block at all. *)
Lemma final_blocks_multiple tor index :
  piece_length tor <> 0 ->
  total_size tor mod piece_length tor = 0 ->
  PieceManager.final_blocks tor index = Ok [].
Proof.
  intros Hpl Hr. unfold PieceManager.final_blocks.
  destruct (Z.eqb_spec (piece_length tor) 0); [done |].
  cbn zeta. by rewrite Hr, ceil_div_0.
Qed.

(** When it is not, and the piece length is below [2 ** 53], where the
    division is exact, the blocks of the final piece add up to the
    remainder: there are [ceil(remainder / REQUEST_SIZE)] of them and only
    the last one is shorter than [REQUEST_SIZE]. *)
Lemma final_blocks_remainder tor index :
  0 < piece_length tor < 2 ^ 53 ->
  total_size tor mod piece_length tor <> 0 ->
  exists blocks,
    PieceManager.final_blocks tor index = Ok blocks
    /\ blocks_size blocks = total_size tor mod piece_length tor
    /\ Z.of_nat (length blocks)
       = - ((- (total_size tor mod piece_length tor)) / REQUEST_SIZE).
Proof.
  intros [Hpl Hbound] Hr. unfold PieceManager.final_blocks.
  destruct (Z.eqb_spec (piece_length tor) 0) as [|Hne]; [lia |]. cbn zeta.
  set (r := total_size tor mod piece_length tor) in *.
  assert (Hpos : 0 < r < 2 ^ 53)
    by (pose proof (Z.mod_pos_bound (total_size tor) _ Hpl); lia).
  rewrite ceil_div_exact by lia. cbn [rbind].
  assert (Hceil : exists n : nat,
             - ((- r) / REQUEST_SIZE) = Z.of_nat n
             /\ (r mod REQUEST_SIZE = 0 -> Z.of_nat n * REQUEST_SIZE = r)
             /\ (0 < r mod REQUEST_SIZE ->
                 (Z.of_nat n - 1) * REQUEST_SIZE + r mod REQUEST_SIZE = r
                 /\ (0 < n)%nat)).
  { exists (Z.to_nat (- ((- r) / REQUEST_SIZE))).
    unfold REQUEST_SIZE, Wire.REQUEST_SIZE in *.
    change (2 ^ 14) with 16384 in *.
    rewrite Z2Nat.id by (Z.div_mod_to_equations; lia).
    repeat split; intros; Z.div_mod_to_equations; lia. }
  destruct Hceil as (n & -> & Hzero & Hmore).
  destruct (Z.ltb_spec 0 (r mod REQUEST_SIZE)) as [Hlt|Hge].
  - destruct (Hmore Hlt) as [Hsum Hn].
    destruct n as [|n]; [lia |].
    rewrite request_blocks_succ, last_snoc.
    rewrite length_app, request_blocks_length. cbn [length].
    replace (n + 1 - 1)%nat
      with (length (PieceManager.request_blocks index (Z.of_nat n)) + 0)%nat
      by (rewrite request_blocks_length; lia).
    rewrite insert_app_r. cbn [insert list_insert].
    eexists. split; [reflexivity |].
    rewrite blocks_size_app, request_blocks_size, length_app,
      request_blocks_length.
    unfold blocks_size. cbn. split; lia.
  - assert (Hmod : r mod REQUEST_SIZE = 0).
    { unfold REQUEST_SIZE, Wire.REQUEST_SIZE in *. change (2 ^ 14) with 16384 in *.
      Z.div_mod_to_equations. lia. }
    eexists. split; [reflexivity |].
    rewrite request_blocks_size, request_blocks_length. split; [auto | done].
Qed.

Lemma initiate_loop_final tor total std index hashes ps :
  PieceManager.initiate_loop tor total std index hashes = Ok ps ->
  hashes <> [] -> index + Z.of_nat (length hashes) = total ->
  exists final,
    last ps = Some final
    /\ Piece.index final = total - 1
    /\ PieceManager.final_blocks tor (total - 1) = Ok (Piece.blocks final).
Proof.
  revert index ps. induction hashes as [|h rest IH]; intros index ps; [done |].
  intros Hloop _ Hlen. cbn [PieceManager.initiate_loop] in Hloop.
  cbn [length] in Hlen.
  destruct rest as [|h' rest].
  - destruct (Z.ltb_spec index (total - 1)); [cbn [length] in Hlen; lia |].
    assert (index = total - 1) as -> by (cbn [length] in Hlen; lia).
    destruct (PieceManager.final_blocks tor (total - 1)) as [blocks|]; [|done].
    cbn in Hloop. injection Hloop as <-. by eexists.
  - destruct (if index <? total - 1 then _ else _) as [blocks|]; [|done].
    cbn [rbind] in Hloop.
    destruct (PieceManager.initiate_loop tor total std (index + 1) (h' :: rest))
      as [tl|] eqn:Htl; [|done].
    cbn in Hloop. injection Hloop as <-.
    destruct (IH (index + 1) tl Htl) as (final & Hlast & Hfinal);
      [done | cbn [length] in *; lia |].
    exists final. split; [|done].
    destruct tl; [done |]. by rewrite last_cons, Hlast.
Qed.

(** The last piece [_initiate_pieces] returns has the blocks of
    [final_blocks]. *)
Lemma initiate_pieces_final tor ps :
  PieceManager._initiate_pieces tor = Ok ps -> pieces tor <> [] ->
  exists final,
    last ps = Some final
    /\ Piece.index final = Z.of_nat (length (pieces tor)) - 1
    /\ PieceManager.final_blocks tor (Z.of_nat (length (pieces tor)) - 1)
       = Ok (Piece.blocks final).
Proof.
  unfold PieceManager._initiate_pieces.
  destruct (ceil_div (piece_length tor)) as [std|]; [|done]. cbn [rbind].
  intros H Hne. eapply initiate_loop_final; [exact H | exact Hne | lia].
Qed.

(** For every torrent with a piece length below [2 ** 53] the blocks of
    the last piece add up to [total_size mod piece_length]: to nothing
    when the total size is a multiple of the piece length. *)
Lemma final_piece_size tor ps :
  0 < piece_length tor < 2 ^ 53 -> pieces tor <> [] ->
  PieceManager._initiate_pieces tor = Ok ps ->
  exists final,
    last ps = Some final
    /\ blocks_size (Piece.blocks final) = total_size tor mod piece_length tor.
Proof.
  intros Hpl Hne Hps.
  destruct (initiate_pieces_final tor ps Hps Hne) as (final & Hlast & _ & Hfinal).
  exists final. split; [exact Hlast |].
  destruct (Z.eq_dec (total_size tor mod piece_length tor) 0) as [Hr|Hr].
  - rewrite final_blocks_multiple in Hfinal by (lia || done).
    injection Hfinal as <-. by rewrite Hr.
  - destruct (final_blocks_remainder tor (Z.of_nat (length (pieces tor)) - 1) Hpl Hr)
      as (blocks & Hblocks & Hsize & _).
    rewrite Hblocks in Hfinal. by injection Hfinal as <-.
Qed.

(** C2. For a torrent whose total size is a multiple of the piece length
    (two pieces of 16384 bytes, 32768 bytes in all) [_initiate_pieces] gives
    the final piece no block: its blocks add up to 0, not to the piece
    length. *)
Theorem final_piece_of_even_torrent :
  total_size even_torrent mod piece_length even_torrent = 0
  /\ exists first final,
       PieceManager._initiate_pieces even_torrent = Ok [first; final]
       /\ Piece.blocks final = []
       /\ blocks_size (Piece.blocks final) = 0
       /\ blocks_size (Piece.blocks final) <> piece_length even_torrent.
Proof.
  split; [reflexivity |].
  eexists _, _. split; [reflexivity |]. by repeat split.
Qed.

(** ** Requests that have expired *)

(** [_expired_requests] never hands out a block: it returns [None] or
    raises. *)
Lemma expired_loop_no_block pm peer_id current requests blk :
  PieceManager.expired_loop pm peer_id current requests <> Ok (Some blk).
Proof.
  induction requests as [|request rest IH]; [done |].
  cbn. destruct (PieceManager.peer_has pm peer_id _) as [[|]|]; cbn; [|done..].
  by destruct (_ <? _).
Qed.

(** C4. With a pending request stamped 0 for a block of piece 0, a peer
    that has piece 0, and the clock at 300001 ms, [_expired_requests], and
    with it [next_request], raises [AttributeError] at the assignment to
    [request.added]: no block is returned and the stamp stays 0. *)
Theorem expired_request_raises :
  (exists blk, PieceManager.pending_blocks manager_with_pending
               = [mkPendingRequest blk 0]
               /\ Block.piece blk = 0 /\ Block.status blk = Block.Pending)
  /\ PieceManager.peer_has manager_with_pending example_peer 0 = Ok true
  /\ PieceManager._expired_requests example_peer 300001 manager_with_pending
     = (Raise AttributeError, manager_with_pending)
  /\ PieceManager.next_request example_peer 300001 300001 manager_with_pending
     = (Raise AttributeError, manager_with_pending).
Proof.
  split; [eexists; split; [reflexivity | by split] |].
  by repeat split.
Qed.

(** ** A peer without pieces *)

Lemma expired_loop_none pm peer_id current requests :
  Forall (fun r => PieceManager.peer_has pm peer_id (Block.piece (block r))
                   = Ok false) requests ->
  PieceManager.expired_loop pm peer_id current requests = Ok None.
Proof.
  induction 1 as [|request rest Hr _ IH]; [done |]. cbn. by rewrite Hr.
Qed.

Lemma ongoing_loop_none pm peer_id seen rest :
  Forall (fun p => PieceManager.peer_has pm peer_id (Piece.index p) = Ok false)
         rest ->
  PieceManager.ongoing_loop pm peer_id seen rest = Ok None.
Proof.
  intros H. revert seen. induction H as [|piece rest Hp _ IH]; intros seen; [done |].
  cbn. rewrite Hp. cbn. apply IH.
Qed.

Lemma count_loop_none pm peer_id pos ps :
  Forall (fun p => PieceManager.peer_has pm peer_id (Piece.index p) = Ok false)
         ps ->
  PieceManager.count_loop pm peer_id pos ps = Ok [].
Proof.
  intros H. revert pos. induction H as [|piece rest Hp _ IH]; intros pos; [done |].
  cbn. rewrite Hp. cbn. apply IH.
Qed.

(** A registered peer whose bit array shows none of the pieces the manager
    asks about gets [ValueError] from [min] over the empty [piece_count],
    and the manager stays as it was. *)
Lemma next_request_no_candidate pm peer_id current now :
  is_Some (PieceManager.peers pm !! peer_id) ->
  Forall (fun r => PieceManager.peer_has pm peer_id (Block.piece (block r))
                   = Ok false) (PieceManager.pending_blocks pm) ->
  Forall (fun p => PieceManager.peer_has pm peer_id (Piece.index p) = Ok false)
         (PieceManager.ongoing_pieces pm ++ PieceManager.missing_pieces pm) ->
  PieceManager.next_request peer_id current now pm = (Raise ValueError, pm).
Proof.
  intros [bf Hbf] Hpending Hpieces.
  apply Forall_app in Hpieces as [Hongoing Hmissing].
  unfold PieceManager.next_request. rewrite Hbf.
  unfold bind, PieceManager._expired_requests.
  rewrite (expired_loop_none _ _ _ _ Hpending).
  unfold PieceManager._next_ongoing.
  rewrite (ongoing_loop_none _ _ _ _ Hongoing).
  unfold PieceManager._get_rarest_piece.
  by rewrite (count_loop_none _ _ _ _ Hmissing).
Qed.

(** C7. For a peer registered with the bit array [0, 0, 0] in the manager
    of a three-piece torrent, [next_request] raises [ValueError]; it does
    not return [None]. *)
Theorem next_request_empty_bitfield :
  PieceManager.peers (manager_with_peer [false; false; false]) !! example_peer
  = Some [false; false; false]
  /\ PieceManager.next_request example_peer 0 0
       (manager_with_peer [false; false; false])
     = (Raise ValueError, manager_with_peer [false; false; false]).
Proof.
  split; [reflexivity |].
  apply next_request_no_candidate.
  - by eexists.
  - constructor.
  - by repeat constructor.
Qed.

(** ** The loop of a connection *)

Lemma py_in_app x l1 l2 :
  PeerConnection.py_in x (l1 ++ l2)
  = PeerConnection.py_in x l1 || PeerConnection.py_in x l2.
Proof. apply existsb_app. Qed.

Lemma py_remove_absent x l :
  PeerConnection.py_in x l = false -> PeerConnection.py_remove x l = Raise ValueError.
Proof.
  induction l as [|y l IH]; [done |]. cbn.
  destruct (String.eqb x y); [done |]. cbn. intros H. by rewrite IH.
Qed.

(** [_request_piece] does not touch the flags. *)
Lemma request_piece_my_state current now w :
  PeerConnection.my_state (fst (snd (PeerConnection._request_piece current now w)))
  = PeerConnection.my_state (fst w).
Proof.
  unfold PeerConnection._request_piece, bind, get, PeerConnection.on_manager.
  destruct w as [c pm]. cbn [fst snd].
  destruct (PieceManager.next_request _ current now pm) as [[[blk|]|] pm']; try done.
  unfold lift. by destruct (Wire.encode _).
Qed.

(** C6 as stated fails: a connection whose flags are [interested] alone,
    with a manager that does not know the peer, gets no block from
    [next_request], and yet holds [pending_request] after the request
    step. *)
Lemma request_step_without_block_example :
  ready_to_request example_connection
  /\ no_block_for 0 0 (example_connection, example_manager)
  /\ pending_after_request 0 0 (example_connection, example_manager) <> false.
Proof. by repeat split. Qed.

(** C6, amended. When the flags of an active connection hold [interested]
    and neither [stalled] nor [pending_request], and [next_request] has no
    block for the peer, the flags hold [pending_request] after the request
    step: the flag is added before the manager is asked and nothing takes
    it back. *)
Theorem request_step_without_block (current now : Z) (w : PeerConnection.world) :
  ready_to_request (fst w) ->
  no_block_for current now w ->
  pending_after_request current now w = true.
Proof.
  intros (Hinterested & Hstalled & Hpending) _.
  unfold pending_after_request, PeerConnection.request_step.
  unfold bind at 1, get at 1. rewrite Hstalled, Hinterested, Hpending.
  cbn [negb]. unfold bind, PeerConnection.on_conn.
  rewrite request_piece_my_state. cbn [fst snd PeerConnection.set_my_state
    PeerConnection.my_state].
  rewrite py_in_app. cbn. apply orb_true_r.
Qed.

Lemma request_step_without_block_witness :
  ready_to_request example_connection
  /\ no_block_for 0 0 (example_connection, example_manager)
  /\ pending_after_request 0 0 (example_connection, example_manager) = true.
Proof.
  assert (H1 : ready_to_request (fst (example_connection, example_manager)))
    by (by repeat split).
  assert (H2 : no_block_for 0 0 (example_connection, example_manager))
    by reflexivity.
  split; [exact H1 |]. split; [exact H2 |].
  apply (request_step_without_block 0 0 (example_connection, example_manager) H1 H2).
Defined.

(** When the flags of an active connection (one not [stopped]) do not hold
    [pending_request], a [Piece] message makes
    [my_state.remove('pending_request')] raise [ValueError]: the manager is
    left as it was, so [block_received] never ran. The [try] of [_start]
    turns the exception into [NameError] at [except ProtocolError]; the
    messages behind are not read and [cancel] does not run. *)
Lemma piece_without_pending_request
    (sha1 : bytes -> bytes) (current now : Z)
    (c : PeerConnection.t) (pm : PieceManager.t)
    (index begin : Z) (blk : bytes) (rest : list Wire.message) :
  PeerConnection.py_in "stopped" (PeerConnection.my_state c) = false ->
  PeerConnection.py_in "pending_request" (PeerConnection.my_state c) = false ->
  PeerConnection.dispatch sha1 (Wire.Piece index begin blk) (c, pm)
  = (Raise ValueError, (c, pm))
  /\ PeerConnection.serve sha1 current now
       (Wire.Piece index begin blk :: rest) (c, pm)
     = (Raise NameError, (c, pm)).
Proof.
  intros Hstopped Hpending.
  assert (Hd : PeerConnection.dispatch sha1 (Wire.Piece index begin blk) (c, pm)
               = (Raise ValueError, (c, pm))).
  { unfold PeerConnection.dispatch, bind, get, lift. cbn [fst].
    by rewrite (py_remove_absent _ _ Hpending). }
  split; [exact Hd |].
  unfold PeerConnection.serve. cbn [PeerConnection.message_loop].
  unfold bind at 1, PeerConnection.on_message, bind at 1, get at 1.
  cbn [fst]. rewrite Hstopped. unfold bind at 1. by rewrite Hd.
Qed.

(** C10. A connection whose flags are [interested] alone receives a
    [Piece] message: removing the absent [pending_request] raises
    [ValueError] and the manager is left as it was, but the connection is
    not closed. [_start] ends with [NameError], raised at
    [except ProtocolError], before [cancel] can run. *)
Theorem piece_message_leaves_connection_open :
  PeerConnection.py_in "pending_request"
    (PeerConnection.my_state example_connection) = false
  /\ PeerConnection.dispatch example_sha1 (Wire.Piece 0 0 [1; 2; 3])
       (example_connection, manager_with_peer [true; true; true])
     = (Raise ValueError,
        (example_connection, manager_with_peer [true; true; true]))
  /\ PeerConnection.serve example_sha1 0 0 [Wire.Piece 0 0 [1; 2; 3]]
       (example_connection, manager_with_peer [true; true; true])
     = (Raise NameError,
        (example_connection, manager_with_peer [true; true; true]))
  /\ PeerConnection.closed example_connection = false.
Proof.
  split; [reflexivity |].
  destruct (piece_without_pending_request example_sha1 0 0 example_connection
              (manager_with_peer [true; true; true]) 0 0 [1; 2; 3] []
              eq_refl eq_refl) as [Hd Hs].
  by repeat split.
Qed.

(** ** The bencoding codec and the tracker *)

(** The decimal numeral of an integer holds no [':']. *)
Lemma string_of_uint_no_colon (u : Decimal.uint) :
  Forall (fun c => c <> ":"%char)
         (list_ascii_of_string (NilEmpty.string_of_uint u)).
Proof. induction u; cbn; constructor; done. Qed.

Lemma str_of_int_no_colon (z : Z) :
  Forall (fun c => c <> ":"%char) (Bencode.str_of_int z).
Proof.
  unfold Bencode.str_of_int, Bencode.b, NilZero.string_of_int, NilZero.string_of_uint.
  destruct (Z.to_int z) as [u|u]; destruct u; cbn;
    repeat (constructor; [done |]); try apply string_of_uint_no_colon;
    by constructor.
Qed.

Lemma str_of_int_nonempty (z : Z) : Bencode.str_of_int z <> [].
Proof.
  unfold Bencode.str_of_int, Bencode.b, NilZero.string_of_int, NilZero.string_of_uint.
  by destruct (Z.to_int z) as [u|u]; destruct u.
Qed.

Lemma find_from_absent tok data pos :
  Forall (fun c => c <> tok) data -> Bencode.find_from tok data pos = None.
Proof.
  intros H. revert pos. induction H as [|c data Hc _ IH]; intros pos; [done |].
  cbn. destruct (Ascii.eqb_spec c tok); [done | apply IH].
Qed.

(** Encoding an integer and decoding the result raises [RuntimeError],
    whatever the integer. *)
Lemma roundtrip_int_raises (z : Z) :
  Bencode.roundtrip (Bencode.VInt z) = Raise RuntimeError.
Proof.
  unfold Bencode.roundtrip. cbn [Bencode.encode Bencode.encode_next
    Bencode._encode_int rbind Bencode.Decoder_init].
  pose proof (str_of_int_no_colon z) as Hcolon.
  pose proof (str_of_int_nonempty z) as Hne.
  destruct (Bencode.str_of_int z) as [|c digits]; [done |].
  unfold Bencode.decode, bind at 1, Bencode._peek, bind at 1, get at 1.
  cbn [Bencode._data Bencode._index Bencode.b list_ascii_of_string app].
  destruct (Z.leb_spec (Z.of_nat (length ("i"%char :: c :: digits ++ ["e"%char])))
              (0 + 1)) as [Hlen|_];
    [rewrite !length_cons in Hlen; lia |].
  rewrite (py_getitem_nonneg _ (0 + 1) c) by (done || lia).
  unfold bind at 1, lift, ret. unfold Bencode.int_eq_bytes.
  destruct (Bencode.int_in_bytes c _); [|done].
  unfold Bencode._decode_string, bind at 1, Bencode._read_until, bind at 1, get at 1.
  cbn [Bencode._data Bencode._index].
  unfold Bencode.bytes_index, Bencode.TOKEN_STRING_SEPERATOR. cbn [Bencode.b
    list_ascii_of_string].
  replace (Z.to_nat (py_clamp _ 0)) with 0%nat
    by (unfold py_clamp; cbn [Z.ltb Z.compare]; lia).
  rewrite drop_0, find_from_absent; [done |].
  constructor; [done |].
  change (c :: digits ++ ["e"%char]) with ((c :: digits) ++ ["e"%char]).
  apply Forall_app. split; [exact Hcolon |]. by constructor.
Qed.

(** The codec never returns from the round trip: it raises for every
    object. *)
Lemma roundtrip_raises (x : Bencode.value) :
  exists e, Bencode.roundtrip x = Raise e.
Proof.
  destruct x as [|z|s|d|d|l|d]; try by eexists.
  - exists RuntimeError. apply roundtrip_int_raises.
  - by destruct d; eexists.
Qed.

(** C1. For the integer 5, [Encoder(5).encode()] is [b'i5e'] and
    [Decoder(b'i5e').decode()] raises [RuntimeError]: [_peek] looks at the
    byte after the first one, finds the digit and takes the data for a byte
    string, whose [':'] is missing. The byte string [b'spam'] fares no
    better: [_encode_bytes] returns a [bytearray], which [Decoder] refuses
    with [TypeError], and decoding [b'4:spam'] itself raises
    [RuntimeError]. *)
Theorem roundtrip_examples :
  Bencode.encode (Bencode.VInt 5) = Ok (Bencode.VBytes (Bencode.b "i5e"))
  /\ Bencode.roundtrip (Bencode.VInt 5) = Raise RuntimeError
  /\ Bencode.roundtrip (Bencode.VBytes (Bencode.b "spam")) = Raise TypeError
  /\ fst (Bencode.decode (Bencode.mkDecoder (Bencode.b "4:spam") 0))
     = Raise RuntimeError.
Proof. by repeat split. Qed.

(** A reply with a status other than 200 raises [ConnectionError]. *)
Lemma connect_bad_status (r : Tracker.http_response) :
  Tracker.status r <> 200 -> Tracker.connect r = Raise ConnectionError.
Proof.
  intros H. unfold Tracker.connect.
  by destruct (Z.eqb_spec (Tracker.status r) 200).
Qed.

(** A reply with status 200 raises [AttributeError], whatever its body. *)
Lemma connect_status_200 (r : Tracker.http_response) :
  Tracker.status r = 200 -> Tracker.connect r = Raise AttributeError.
Proof. intros H. unfold Tracker.connect. by rewrite H. Qed.

(** C8. A reply with status 200 whose body is the dictionary
    [{failure reason: oops}] makes [connect] raise [AttributeError], for
    [Tracker] has no [raise_for_error]; the message is not carried. So does
    a reply with status 200 and a peer list: no [TrackerResponse] is
    returned. *)
Theorem connect_examples :
  Tracker.connect
    (Tracker.mk_http_response 200 (Bencode.b "d14:failure reason4:oopse"))
  = Raise AttributeError
  /\ Tracker.connect
       (Tracker.mk_http_response 200 (Bencode.b "d8:intervali1800e5:peers0:e"))
     = Raise AttributeError
  /\ Tracker.connect (Tracker.mk_http_response 404 (Bencode.b ""))
     = Raise ConnectionError.
Proof. by repeat split. Qed.

(** * Further properties *)

(** ** The pieces [_initiate_pieces] builds *)

Lemma final_blocks_returns tor index :
  0 < piece_length tor < 2 ^ 1024 ->
  exists blocks, PieceManager.final_blocks tor index = Ok blocks.
Proof.
  intros [Hpl Hbound]. unfold PieceManager.final_blocks.
  destruct (Z.eqb_spec (piece_length tor) 0) as [|_]; [lia |]. cbn zeta.
  set (r := total_size tor mod piece_length tor).
  assert (Hr : 0 <= r < 2 ^ 1024)
    by (pose proof (Z.mod_pos_bound (total_size tor) _ Hpl); lia).
  destruct (ceil_div_returns r Hr) as (n & -> & Hn). cbn [rbind].
  destruct (Z.ltb_spec 0 (r mod REQUEST_SIZE)) as [Hlt|_]; [|by eexists].
  assert (Hpos : 0 < r).
  { destruct (Z.eq_dec r 0) as [H0|]; [rewrite H0 in Hlt; done | lia]. }
  specialize (Hn Hpos).
  destruct (Z.to_nat n) as [|k] eqn:Hk; [lia |].
  replace n with (Z.of_nat (S k)) by lia.
  rewrite request_blocks_succ, last_snoc. by eexists.
Qed.

Lemma initiate_loop_returns tor total std index hashes :
  0 < piece_length tor < 2 ^ 1024 ->
  exists ps, PieceManager.initiate_loop tor total std index hashes = Ok ps.
Proof.
  intros Hpl. revert index.
  induction hashes as [|h rest IH]; intros index; [by eexists |].
  cbn [PieceManager.initiate_loop].
  destruct (IH (index + 1)) as (tl & ->).
  destruct (index <? total - 1); [by eexists |].
  destruct (final_blocks_returns tor index Hpl) as (blocks & ->). by eexists.
Qed.

Lemma initiate_loop_indexes tor total std index hashes ps :
  PieceManager.initiate_loop tor total std index hashes = Ok ps ->
  Piece.index <$> ps = (fun k => index + Z.of_nat k) <$> seq 0 (length hashes)
  /\ Piece.hash <$> ps = hashes.
Proof.
  revert index ps. induction hashes as [|h rest IH]; intros index ps.
  - by intros [= <-].
  - cbn [PieceManager.initiate_loop].
    destruct (if index <? total - 1 then _ else _) as [blocks|]; [|done].
    cbn [rbind].
    destruct (PieceManager.initiate_loop tor total std (index + 1) rest)
      as [tl|] eqn:Htl; [|done].
    intros [= <-]. destruct (IH _ _ Htl) as [Hi Hh].
    cbn [length seq fmap list_fmap Piece.index Piece.hash]. split.
    + f_equal; [lia |]. rewrite Hi, <- seq_shift, <- list_fmap_compose.
      apply list_fmap_ext. intros _ k _. cbn. lia.
    + by f_equal.
Qed.

Lemma initiate_pieces_loop tor ps :
  PieceManager._initiate_pieces tor = Ok ps ->
  exists std,
    PieceManager.initiate_loop tor (Z.of_nat (length (pieces tor))) std 0
      (pieces tor) = Ok ps.
Proof.
  unfold PieceManager._initiate_pieces.
  destruct (ceil_div (piece_length tor)) as [std|]; [|done]. by exists std.
Qed.

(** X1. The manager [__init__] builds for a torrent has every piece in
    [missing_pieces], in index order, none in the other two lists, no peer
    and no pending request; it satisfies the inventory invariant. *)
Theorem init_state (tor : Torrent) (pm : PieceManager.t) :
  PieceManager.init tor = Ok pm ->
  Piece.index <$> PieceManager.missing_pieces pm
  = piece_indexes (Z.of_nat (length (pieces tor)))
  /\ PieceManager.ongoing_pieces pm = []
  /\ PieceManager.have_pieces pm = []
  /\ PieceManager.pending_blocks pm = []
  /\ PieceManager.peers pm = ∅
  /\ inventory_invariant pm.
Proof.
  unfold PieceManager.init.
  destruct (PieceManager._initiate_pieces tor) as [ps|] eqn:Hps; [|done].
  intros [= <-]. cbn.
  apply initiate_pieces_loop in Hps as [std Hps].
  apply initiate_loop_indexes in Hps as [Hi _].
  assert (Hidx : Piece.index <$> ps = piece_indexes (Z.of_nat (length (pieces tor)))).
  { rewrite Hi. unfold piece_indexes. rewrite Nat2Z.id.
    apply list_fmap_ext. intros _ k _. lia. }
  split; [exact Hidx |]. do 4 (split; [done |]).
  split; cbn.
  - unfold inventory. cbn. rewrite !app_nil_r, Hidx.
    apply Forall_forall. intros i Hi'.
    apply NoDup_count_occ'; [|by apply list_elem_of_In].
    unfold piece_indexes. apply NoDup_ListNoDup, NoDup_fmap; [|apply NoDup_seq].
    intros a c. lia.
  - rewrite <- (length_fmap Piece.index), Hidx. unfold piece_indexes.
    rewrite length_fmap, length_seq, Nat2Z.id. lia.
Qed.

Lemma init_state_witness :
  PieceManager.init example_torrent = Ok example_manager
  /\ inventory_invariant example_manager.
Proof.
  assert (H : PieceManager.init example_torrent = Ok example_manager)
    by reflexivity.
  split; [exact H |].
  apply (init_state example_torrent example_manager H).
Defined.

Lemma initiate_loop_zero_length tor total std index hashes :
  piece_length tor = 0 -> hashes <> [] ->
  index + Z.of_nat (length hashes) = total ->
  PieceManager.initiate_loop tor total std index hashes = Raise ZeroDivisionError.
Proof.
  intros Hpl. revert index. induction hashes as [|h rest IH]; [done |].
  intros index _ Hlen. cbn [PieceManager.initiate_loop]. cbn [length] in Hlen.
  destruct rest as [|h' rest].
  - cbn [length] in Hlen. destruct (Z.ltb_spec index (total - 1)); [lia |].
    unfold PieceManager.final_blocks. by rewrite Hpl.
  - rewrite (IH (index + 1)); [|done|cbn [length] in *; lia].
    destruct (Z.ltb_spec index (total - 1)); [done |].
    cbn [length] in Hlen. lia.
Qed.



(** X3. With piece length 0 and at least one hash [_initiate_pieces]
    raises [ZeroDivisionError], at [total_size % piece_length] for the
    last piece. *)
Theorem initiate_pieces_zero_length (tor : Torrent) :
  piece_length tor = 0 -> pieces tor <> [] ->
  PieceManager._initiate_pieces tor = Raise ZeroDivisionError.
Proof.
  intros Hpl Hne. unfold PieceManager._initiate_pieces.
  rewrite Hpl, ceil_div_0. cbn [rbind].
  apply initiate_loop_zero_length; [done | done | lia].
Qed.

Lemma initiate_pieces_zero_length_witness :
  PieceManager._initiate_pieces (mkTorrent 0 100 [[1]; [2]] "zero.bin")
  = Raise ZeroDivisionError.
Proof.
  apply (initiate_pieces_zero_length (mkTorrent 0 100 [[1]; [2]] "zero.bin"));
    [reflexivity | discriminate].
Defined.

Lemma request_blocks_laid_out index n :
  laid_out index (PieceManager.request_blocks index n).
Proof.
  intros j blk. unfold PieceManager.request_blocks.
  rewrite list_lookup_fmap. intros H.
  destruct (seq 0 (Z.to_nat n) !! j) as [k|] eqn:Hk; [|done].
  apply lookup_seq in Hk as [-> _]. injection H as <-. cbn.
  unfold REQUEST_SIZE, Wire.REQUEST_SIZE. repeat split; lia.
Qed.

Lemma final_blocks_laid_out tor index blocks :
  PieceManager.final_blocks tor index = Ok blocks -> laid_out index blocks.
Proof.
  unfold PieceManager.final_blocks.
  destruct (piece_length tor =? 0); [done |]. cbn zeta.
  set (r := total_size tor mod piece_length tor).
  destruct (ceil_div r) as [n|]; [|done]. cbn [rbind].
  set (bs := PieceManager.request_blocks index n).
  destruct (Z.ltb_spec 0 (r mod REQUEST_SIZE)) as [Hlt|_].
  - destruct (last bs) as [last_block|] eqn:Hlast; [|done].
    intros [= <-] j blk Hj.
    pose proof (request_blocks_laid_out index n) as Hbs.
    fold bs in Hbs.
    destruct (decide (j = (length bs - 1)%nat)) as [->|Hne].
    + rewrite last_lookup in Hlast.
      replace (Nat.pred (length bs)) with (length bs - 1)%nat in Hlast by lia.
      apply lookup_lt_Some in Hlast as Hlen.
      rewrite list_lookup_insert_eq in Hj by lia. injection Hj as <-.
      destruct (Hbs _ _ Hlast) as (H1 & H2 & H3 & H4 & H5). cbn.
      repeat split; try done.
      unfold REQUEST_SIZE, Wire.REQUEST_SIZE in *. change (2 ^ 14) with 16384 in *.
      Z.div_mod_to_equations. lia.
    + rewrite list_lookup_insert_ne in Hj by done. by apply Hbs.
  - intros [= <-]. apply request_blocks_laid_out.
Qed.

Lemma initiate_loop_laid_out tor total std index hashes ps :
  PieceManager.initiate_loop tor total std index hashes = Ok ps ->
  Forall (fun p => laid_out (Piece.index p) (Piece.blocks p)) ps.
Proof.
  revert index ps. induction hashes as [|h rest IH]; intros index ps.
  - intros [= <-]. constructor.
  - cbn [PieceManager.initiate_loop].
    destruct (if index <? total - 1 then _ else _) as [blocks|] eqn:Hb; [|done].
    cbn [rbind].
    destruct (PieceManager.initiate_loop tor total std (index + 1) rest)
      as [tl|] eqn:Htl; [|done].
    intros [= <-]. constructor; [|by eapply IH]. cbn.
    destruct (index <? total - 1).
    + injection Hb as <-. apply request_blocks_laid_out.
    + by eapply final_blocks_laid_out.
Qed.

(** X4. In every piece [_initiate_pieces] returns, the block at position
    [j] belongs to the piece, starts at offset [j * REQUEST_SIZE], is
    [Missing] without data, and asks for at least one and at most
    [REQUEST_SIZE] bytes. *)
Theorem initiate_pieces_blocks (tor : Torrent) (ps : list Piece.t)
    (p : Piece.t) (j : nat) (blk : Block.t) :
  PieceManager._initiate_pieces tor = Ok ps ->
  p ∈ ps -> Piece.blocks p !! j = Some blk ->
  Block.piece blk = Piece.index p
  /\ Block.offset blk = Z.of_nat j * REQUEST_SIZE
  /\ Block.status blk = Block.Missing
  /\ Block.data blk = None
  /\ 0 < Block.length blk <= REQUEST_SIZE.
Proof.
  intros Hps Hp Hj. apply initiate_pieces_loop in Hps as [std Hps].
  apply initiate_loop_laid_out in Hps.
  rewrite Forall_forall in Hps. by apply (Hps p Hp).
Qed.

Lemma initiate_pieces_blocks_witness :
  PieceManager._initiate_pieces example_torrent
  = Ok (PieceManager.missing_pieces example_manager)
  /\ Block.piece (Block.init 2 16384 8080) = 2
  /\ Block.offset (Block.init 2 16384 8080) = Z.of_nat 1 * REQUEST_SIZE
  /\ Block.status (Block.init 2 16384 8080) = Block.Missing
  /\ Block.data (Block.init 2 16384 8080) = None
  /\ 0 < Block.length (Block.init 2 16384 8080) <= REQUEST_SIZE.
Proof.
  assert (H : PieceManager._initiate_pieces example_torrent
              = Ok (PieceManager.missing_pieces example_manager))
    by reflexivity.
  split; [exact H |].
  apply (initiate_pieces_blocks example_torrent
           (PieceManager.missing_pieces example_manager)
           (Piece.mk 2 [Block.init 2 0 16384; Block.init 2 16384 8080] [3])
           1 (Block.init 2 16384 8080) H);
    [apply list_elem_of_In; cbn; auto | reflexivity].
Defined.

(** ** The blocks of a piece *)

Lemma take_missing_some bs blk bs' :
  Piece.take_missing bs = (Some blk, bs') ->
  exists pre blk0 post,
    bs = pre ++ blk0 :: post
    /\ Forall (fun x => Block.is_missing x = false) pre
    /\ Block.status blk0 = Block.Missing
    /\ blk = Block.set_status Block.Pending blk0
    /\ bs' = pre ++ blk :: post.
Proof.
  revert bs'. induction bs as [|x rest IH]; intros bs'; [done |].
  cbn. destruct (Block.is_missing x) eqn:Hx.
  - intros [= <- <-]. exists [], x, rest. repeat split; try done.
    unfold Block.is_missing in Hx. by destruct (Block.status x).
  - destruct (Piece.take_missing rest) as [r rest'] eqn:Hrest.
    intros [= -> <-].
    destruct (IH _ eq_refl) as (pre & blk0 & post & -> & Hpre & H0 & -> & ->).
    exists (x :: pre), blk0, post. repeat split; try done. by constructor.
Qed.

Lemma take_missing_none bs :
  Forall (fun x => Block.is_missing x = false) bs <->
  Piece.take_missing bs = (None, bs).
Proof.
  induction bs as [|x rest IH]; [done |]. cbn. split.
  - intros [Hx Hrest]%Forall_cons. rewrite Hx.
    apply IH in Hrest. by rewrite Hrest.
  - destruct (Block.is_missing x) eqn:Hx; [done |].
    destruct (Piece.take_missing rest) as [r rest'].
    intros [= -> ->]. constructor; [done |]. by apply IH.
Qed.

Lemma piece_next_request_split p p' blk :
  Piece.next_request p = (Some blk, p') ->
  exists pre blk0 post,
    Piece.blocks p = pre ++ blk0 :: post
    /\ Block.status blk0 = Block.Missing
    /\ blk = Block.set_status Block.Pending blk0
    /\ p' = Piece.mk (Piece.index p) (pre ++ blk :: post) (Piece.hash p).
Proof.
  unfold Piece.next_request.
  destruct (Piece.take_missing (Piece.blocks p)) as [r bs'] eqn:Htake.
  intros [= -> <-].
  destruct (take_missing_some _ _ _ Htake)
    as (pre & blk0 & post & Hbs & _ & H0 & -> & ->).
  by exists pre, blk0, post.
Qed.

(** X5. When [Piece.next_request] returns a block, that block is the
    first [Missing] one of the piece, now [Pending]; the blocks before and
    behind it, the index and the hash are as they were. *)
Theorem piece_next_request_block (p p' : Piece.t) (blk : Block.t) :
  Piece.next_request p = (Some blk, p') ->
  exists pre blk0 post,
    Piece.blocks p = pre ++ blk0 :: post
    /\ Forall (fun x => Block.status x <> Block.Missing) pre
    /\ Block.status blk0 = Block.Missing
    /\ blk = Block.set_status Block.Pending blk0
    /\ p' = Piece.mk (Piece.index p) (pre ++ blk :: post) (Piece.hash p).
Proof.
  unfold Piece.next_request.
  destruct (Piece.take_missing (Piece.blocks p)) as [r bs'] eqn:Htake.
  intros [= -> <-].
  destruct (take_missing_some _ _ _ Htake)
    as (pre & blk0 & post & Hbs & Hpre & H0 & -> & ->).
  exists pre, blk0, post. repeat split; try done.
  eapply Forall_impl; [exact Hpre |]. intros x Hx Hs.
  unfold Block.is_missing in Hx. by rewrite Hs in Hx.
Qed.

Lemma piece_next_request_block_witness :
  Piece.next_request
    (Piece.mk 0 [Block.set_status Block.Pending (Block.init 0 0 16384);
                 Block.init 0 16384 16384] [1])
  = (Some (Block.set_status Block.Pending (Block.init 0 16384 16384)),
     Piece.mk 0 [Block.set_status Block.Pending (Block.init 0 0 16384);
                 Block.set_status Block.Pending (Block.init 0 16384 16384)] [1])
  /\ exists pre blk0 post,
       [Block.set_status Block.Pending (Block.init 0 0 16384);
        Block.init 0 16384 16384] = pre ++ blk0 :: post
       /\ Forall (fun x => Block.status x <> Block.Missing) pre
       /\ Block.status blk0 = Block.Missing
       /\ Block.set_status Block.Pending (Block.init 0 16384 16384)
          = Block.set_status Block.Pending blk0
       /\ Piece.mk 0 [Block.set_status Block.Pending (Block.init 0 0 16384);
                      Block.set_status Block.Pending (Block.init 0 16384 16384)] [1]
          = Piece.mk 0 (pre ++ Block.set_status Block.Pending
                                (Block.init 0 16384 16384) :: post) [1].
Proof.
  split; [reflexivity |].
  apply (piece_next_request_block
           (Piece.mk 0 [Block.set_status Block.Pending (Block.init 0 0 16384);
                        Block.init 0 16384 16384] [1]) _ _ eq_refl).
Defined.

(** X6. [Piece.next_request] returns [None] exactly when no block of the
    piece is [Missing], and then leaves the piece as it is. *)
Theorem piece_next_request_none (p : Piece.t) :
  Forall (fun x => Block.status x <> Block.Missing) (Piece.blocks p) <->
  Piece.next_request p = (None, p).
Proof.
  unfold Piece.next_request. split.
  - intros H.
    assert (H' : Forall (fun x => Block.is_missing x = false) (Piece.blocks p)).
    { eapply Forall_impl; [exact H |]. intros x Hx. cbn in Hx.
      unfold Block.is_missing. by destruct (Block.status x). }
    apply take_missing_none in H'. rewrite H'. by destruct p.
  - destruct (Piece.take_missing (Piece.blocks p)) as [r bs'] eqn:Htake.
    intros [= -> Hp].
    apply (f_equal Piece.blocks) in Hp. cbn in Hp. subst bs'.
    apply take_missing_none in Htake.
    eapply Forall_impl; [exact Htake |]. intros x Hx Hs.
    unfold Block.is_missing in Hx. by rewrite Hs in Hx.
Qed.

(** ** The payload of a piece *)

Lemma insert_by_offset_perm x l : Piece.insert_by_offset x l ≡ₚ x :: l.
Proof.
  induction l as [|y r IH]; [done |]. cbn.
  destruct (Block.offset y <=? Block.offset x); [|done].
  by rewrite IH, Permutation_swap.
Qed.

Lemma insert_by_offset_ascending x l :
  ascending l -> ascending (Piece.insert_by_offset x l).
Proof.
  unfold ascending. induction 1 as [|y r Hr IH Hy]; cbn.
  - repeat constructor.
  - destruct (Z.leb_spec (Block.offset y) (Block.offset x)).
    + constructor; [exact IH |].
      rewrite insert_by_offset_perm. by constructor.
    + constructor; [by constructor |]. constructor; [lia |].
      eapply Forall_impl; [exact Hy |]. cbn. intros; lia.
Qed.

Lemma sorted_by_offset_acc acc l :
  ascending acc ->
  foldl (fun a x => Piece.insert_by_offset x a) acc l ≡ₚ acc ++ l
  /\ ascending (foldl (fun a x => Piece.insert_by_offset x a) acc l).
Proof.
  revert acc. induction l as [|x l IH]; intros acc Hacc; cbn.
  - by rewrite app_nil_r.
  - destruct (IH _ (insert_by_offset_ascending x acc Hacc)) as [Hp Hs].
    split; [|exact Hs].
    rewrite Hp, insert_by_offset_perm. cbn. apply Permutation_middle.
Qed.

(** [sorted(self.blocks, key=lambda b: b.offset)], which [Piece.data]
    joins, holds the blocks of the piece, each once, in ascending order of
    offset. *)
Lemma sorted_by_offset_sorts (blocks : list Block.t) :
  Piece.sorted_by_offset blocks ≡ₚ blocks
  /\ ascending (Piece.sorted_by_offset blocks).
Proof.
  unfold Piece.sorted_by_offset.
  apply (sorted_by_offset_acc [] blocks). constructor.
Qed.

Lemma insert_by_offset_last x l :
  Forall (fun y => Block.offset y <= Block.offset x) l ->
  Piece.insert_by_offset x l = l ++ [x].
Proof.
  induction 1 as [|y r Hy _ IH]; [done |]. cbn.
  destruct (Z.leb_spec (Block.offset y) (Block.offset x)); [|lia].
  by rewrite IH.
Qed.

Lemma sorted_by_offset_ascending acc l :
  ascending (acc ++ l) ->
  foldl (fun a x => Piece.insert_by_offset x a) acc l = acc ++ l.
Proof.
  revert acc. induction l as [|x l IH]; intros acc Hs; cbn.
  - by rewrite app_nil_r.
  - rewrite insert_by_offset_last.
    + rewrite IH; rewrite <- app_assoc; done.
    + apply Forall_forall. intros y Hy.
      apply (StronglySorted_app_1_elem_of
               (fun a c => Block.offset a <= Block.offset c) acc (x :: l));
        [exact Hs | exact Hy | constructor].
Qed.

(** X7. For a piece whose blocks are in ascending order of offset and all
    hold data, [Piece.data] is the payloads joined in the order of the
    blocks. *)
Theorem piece_data_in_order (p : Piece.t) :
  ascending (Piece.blocks p) ->
  Forall has_data (Piece.blocks p) ->
  Piece.data p
  = Ok (concat (omap Block.data (Piece.blocks p))).
Proof.
  intros Hs Hd. unfold Piece.data, Piece.sorted_by_offset.
  rewrite (sorted_by_offset_ascending [] (Piece.blocks p) Hs). cbn [app].
  induction Hd as [|blk rest [d Hblk] _ IH]; [done |].
  cbn. rewrite Hblk. apply StronglySorted_inv in Hs as [Hs _].
  by rewrite (IH Hs).
Qed.

Lemma piece_data_in_order_witness :
  Piece.data
    (Piece.mk 0 [Block.mk 0 0 2 Block.Retrieved (Some [1; 2]);
                 Block.mk 0 16384 1 Block.Retrieved (Some [3])] [9])
  = Ok [1; 2; 3].
Proof.
  apply (piece_data_in_order
           (Piece.mk 0 [Block.mk 0 0 2 Block.Retrieved (Some [1; 2]);
                        Block.mk 0 16384 1 Block.Retrieved (Some [3])] [9])).
  - repeat constructor; cbn; lia.
  - repeat constructor; by eexists.
Defined.

(** ** Blocks that arrive *)

Lemma find_piece_absent piece_index ps pos :
  Forall (fun p => Piece.index p <> piece_index) ps ->
  PieceManager.find_piece piece_index ps pos = None.
Proof.
  intros H. revert pos. induction H as [|p ps Hp _ IH]; intros pos; [done |].
  cbn. destruct (Z.eqb_spec (Piece.index p) piece_index); [done | apply IH].
Qed.

Lemma find_piece_middle piece_index pre piece post pos :
  Forall (fun p => Piece.index p <> piece_index) pre ->
  Piece.index piece = piece_index ->
  PieceManager.find_piece piece_index (pre ++ piece :: post) pos
  = Some ((pos + length pre)%nat, piece).
Proof.
  intros H Hi. revert pos. induction H as [|p ps Hp _ IH]; intros pos; cbn.
  - rewrite Hi, Z.eqb_refl. do 2 f_equal. lia.
  - destruct (Z.eqb_spec (Piece.index p) piece_index); [done |].
    rewrite IH. do 2 f_equal. lia.
Qed.

Lemma insert_middle {A} (l1 l2 : list A) (x y : A) :
  <[length l1 := y]> (l1 ++ x :: l2) = l1 ++ y :: l2.
Proof. by induction l1; f_equal/=. Qed.

Lemma drop_pending_first piece_index block_offset requests :
  PieceManager.drop_pending piece_index block_offset requests
  = match list_find (fun r => Block.piece (block r) = piece_index
                              /\ Block.offset (block r) = block_offset)
                    requests with
    | Some (i, _) => delete i requests
    | None => requests
    end.
Proof.
  induction requests as [|request rest IH]; [done |].
  cbn [PieceManager.drop_pending list_find].
  destruct (decide _) as [[Hp Ho]|Hno].
  - by rewrite Hp, Ho, !Z.eqb_refl.
  - destruct (Z.eqb_spec (Block.piece (block request)) piece_index),
      (Z.eqb_spec (Block.offset (block request)) block_offset);
      cbn [andb]; try (by destruct Hno).
    all: rewrite IH; by destruct (list_find _ rest) as [[i r]|].
Qed.

(** X8. A block for a piece that is not among the ongoing ones is dropped:
    [block_received] deletes the first pending request whose block has
    that piece index and that offset, if there is one, and changes
    nothing else. *)
Theorem block_received_not_ongoing (sha1 : bytes -> bytes)
    (peer_id : bytes) (piece_index block_offset : Z) (data : bytes)
    (pm : PieceManager.t) :
  Forall (fun p => Piece.index p <> piece_index) (PieceManager.ongoing_pieces pm) ->
  PieceManager.block_received sha1 peer_id piece_index block_offset data pm
  = (Ok tt,
     PieceManager.mk (PieceManager.torrent pm) (PieceManager.peers pm)
       (match list_find (fun r => Block.piece (block r) = piece_index
                                  /\ Block.offset (block r) = block_offset)
                        (PieceManager.pending_blocks pm) with
        | Some (i, _) => delete i (PieceManager.pending_blocks pm)
        | None => PieceManager.pending_blocks pm
        end)
       (PieceManager.missing_pieces pm) (PieceManager.ongoing_pieces pm)
       (PieceManager.have_pieces pm) (PieceManager.max_pending_time pm)
       (PieceManager.total_pieces pm) (PieceManager.fd pm)).
Proof.
  intros H. unfold PieceManager.block_received. cbn zeta.
  cbn [PieceManager.ongoing_pieces PieceManager.set_pending_blocks].
  rewrite (find_piece_absent _ _ _ H).
  by rewrite drop_pending_first.
Qed.

Lemma block_received_not_ongoing_witness :
  PieceManager.block_received example_sha1 example_peer 1 0 [7]
    manager_three_pending
  = (Ok tt,
     PieceManager.mk example_torrent ∅
       [mkPendingRequest (Block.mk 0 16384 16384 Block.Pending None) 5;
        mkPendingRequest (Block.mk 1 0 16384 Block.Pending None) 20]
       (PieceManager.missing_pieces manager_three_pending)
       (PieceManager.ongoing_pieces manager_three_pending)
       (PieceManager.have_pieces manager_three_pending)
       300000 3 [(32768, [2])]).
Proof.
  apply (block_received_not_ongoing example_sha1 example_peer 1 0 [7]
           manager_three_pending).
  repeat constructor; discriminate.
Defined.


(** X10. When the block completes an ongoing piece whose payload does not
    have the hash of the piece, every block of the piece is [Missing]
    again; the piece keeps its place in [ongoing_pieces], nothing is
    written and [have_pieces] stays. *)
Theorem block_received_corrupt (sha1 : bytes -> bytes)
    (peer_id : bytes) (block_offset : Z) (data payload : bytes)
    (pm : PieceManager.t) (pre post : list Piece.t) (piece0 : Piece.t) :
  PieceManager.ongoing_pieces pm = pre ++ piece0 :: post ->
  Forall (fun p => Piece.index p <> Piece.index piece0) pre ->
  Piece.is_complete (Piece.block_received block_offset data piece0) = true ->
  Piece.data (Piece.block_received block_offset data piece0) = Ok payload ->
  Piece.hash piece0 <> sha1 payload ->
  exists pm',
    PieceManager.block_received sha1 peer_id (Piece.index piece0)
      block_offset data pm = (Ok tt, pm')
    /\ PieceManager.ongoing_pieces pm' = pre ++ Piece.reset (Piece.block_received block_offset data piece0)
              :: post
    /\ Forall (fun blk => Block.status blk = Block.Missing)
              (Piece.blocks
                 (Piece.reset (Piece.block_received block_offset data piece0)))
    /\ PieceManager.have_pieces pm' = PieceManager.have_pieces pm
    /\ PieceManager.fd pm' = PieceManager.fd pm
    /\ PieceManager.missing_pieces pm' = PieceManager.missing_pieces pm.
Proof.
  intros Hongoing Hpre Hcomplete Hdata Hhash.
  set (piece := Piece.block_received block_offset data piece0) in *.
  unfold PieceManager.block_received. cbn zeta.
  cbn [PieceManager.ongoing_pieces PieceManager.set_pending_blocks
       PieceManager.set_ongoing_pieces].
  rewrite Hongoing, (find_piece_middle _ _ _ _ _ Hpre eq_refl).
  cbn [Nat.add]. fold piece. rewrite Hcomplete.
  unfold Piece.is_hash_matching. rewrite Hdata. cbn [rbind Piece.hash].
  change (Piece.hash piece) with (Piece.hash piece0).
  rewrite bool_decide_false by done.
  eexists. split; [reflexivity |]. cbn.
  rewrite list_insert_insert_eq, insert_middle. repeat split; try done.
  apply Forall_forall. intros blk. rewrite list_elem_of_fmap.
  by intros (blk0 & -> & _).
Qed.


Lemma block_received_corrupt_witness :
  exists pm',
    PieceManager.block_received example_sha1 example_peer (Piece.index half_piece)
      16384 [4] manager_downloading = (Ok tt, pm')
    /\ PieceManager.ongoing_pieces pm'
       = [] ++ Piece.reset (Piece.block_received 16384 [4] half_piece) :: []
    /\ Forall (fun blk => Block.status blk = Block.Missing)
              (Piece.blocks
                 (Piece.reset (Piece.block_received 16384 [4] half_piece)))
    /\ PieceManager.have_pieces pm' = PieceManager.have_pieces manager_downloading
    /\ PieceManager.fd pm' = PieceManager.fd manager_downloading
    /\ PieceManager.missing_pieces pm'
       = PieceManager.missing_pieces manager_downloading.
Proof.
  apply (block_received_corrupt example_sha1 example_peer 16384 [4] [1; 2; 4]
           manager_downloading [] [] half_piece);
    [reflexivity | constructor | reflexivity | reflexivity | discriminate].
Defined.

(** ** What [next_request] hands out *)

Lemma piece_next_request_pending p p' blk :
  Piece.next_request p = (Some blk, p') ->
  blk ∈ Piece.blocks p' /\ Block.status blk = Block.Pending
  /\ Piece.index p' = Piece.index p.
Proof.
  intros (pre & blk0 & post & _ & _ & -> & ->)%piece_next_request_split.
  cbn. split; [|done]. apply elem_of_app. right. constructor.
Qed.

Lemma ongoing_loop_block pm peer_id seen rest blk ongoing :
  PieceManager.ongoing_loop pm peer_id seen rest = Ok (Some (blk, ongoing)) ->
  exists p, p ∈ ongoing /\ blk ∈ Piece.blocks p
            /\ Block.status blk = Block.Pending
            /\ PieceManager.peer_has pm peer_id (Piece.index p) = Ok true.
Proof.
  revert seen. induction rest as [|piece rest IH]; intros seen; [done |].
  cbn. destruct (PieceManager.peer_has pm peer_id (Piece.index piece))
    as [[|]|] eqn:Hhas; cbn; [| apply IH | done].
  destruct (Piece.next_request piece) as [[blk'|] piece'] eqn:Hnext; [|apply IH].
  intros [= <- <-].
  apply piece_next_request_pending in Hnext as (Hin & Hst & Hidx).
  exists piece'. split; [|by rewrite Hidx].
  apply elem_of_app. right. constructor.
Qed.

Lemma count_loop_entries pm peer_id pos ps l n c :
  PieceManager.count_loop pm peer_id pos ps = Ok l -> (n, c) ∈ l ->
  exists q, (pos <= n)%nat /\ ps !! (n - pos)%nat = Some q
            /\ PieceManager.peer_has pm peer_id (Piece.index q) = Ok true
            /\ PieceManager.holders pm (Piece.index q) = Ok c.
Proof.
  revert pos l. induction ps as [|piece rest IH]; intros pos l.
  - by intros [= <-] ?%elem_of_nil.
  - cbn [PieceManager.count_loop].
    assert (Hrest : forall l', PieceManager.count_loop pm peer_id (S pos) rest = Ok l' ->
                    (n, c) ∈ l' ->
                    exists q, (pos <= n)%nat
                      /\ (piece :: rest) !! (n - pos)%nat = Some q
                      /\ PieceManager.peer_has pm peer_id (Piece.index q) = Ok true
                      /\ PieceManager.holders pm (Piece.index q) = Ok c).
    { intros l' Hl' Hin. destruct (IH _ _ Hl' Hin) as (q & Hle & Hq & H).
      exists q. split; [lia |]. split; [|exact H].
      replace (n - pos)%nat with (S (n - S pos)) by lia. exact Hq. }
    destruct (PieceManager.peer_has pm peer_id (Piece.index piece))
      as [[|]|] eqn:Hhas; cbn [rbind negb]; [| apply Hrest | done].
    destruct (PieceManager.holders pm (Piece.index piece)) as [c'|] eqn:Hc;
      cbn [rbind]; [|done].
    destruct (PieceManager.count_loop pm peer_id (S pos) rest) as [tl|] eqn:Htl;
      cbn [rbind]; [|done].
    destruct (c' =? 0)%nat; intros [= <-]; [by apply (Hrest tl) |].
    intros [[= -> ->]|Hin]%elem_of_cons; [|by apply (Hrest tl)].
    exists piece. split; [lia |]. by rewrite Nat.sub_diag.
Qed.

Lemma py_min_elem l x : PieceManager.py_min l = Some x -> x ∈ l.
Proof.
  revert x. induction l as [|y r IH]; intros x; [done |].
  cbn [PieceManager.py_min].
  destruct (PieceManager.py_min r) as [z|].
  - destruct (snd z <? snd y)%nat; intros [=]; subst x.
    + apply elem_of_cons. right. by apply IH.
    + constructor.
  - intros [=]; subst x. constructor.
Qed.

Lemma py_min_least l x y :
  PieceManager.py_min l = Some x -> y ∈ l -> (snd x <= snd y)%nat.
Proof.
  revert x. induction l as [|z r IH]; intros x; [done |].
  cbn [PieceManager.py_min].
  destruct (PieceManager.py_min r) as [m|] eqn:Hm.
  - destruct (Nat.ltb_spec (snd m) (snd z)); intros [=]; subst x;
      intros [->|Hin]%elem_of_cons; try lia.
    + by apply IH.
    + specialize (IH _ eq_refl Hin). lia.
  - intros [=]; subst x. intros [->|Hin]%elem_of_cons; [lia |].
    destruct r as [|w r]; [by apply elem_of_nil in Hin |].
    cbn [PieceManager.py_min] in Hm.
    destruct (PieceManager.py_min r) as [m|];
      [destruct (snd m <? snd w)%nat |]; discriminate Hm.
Qed.

Lemma get_rarest_piece_held pm peer_id rarest pm' :
  PieceManager._get_rarest_piece peer_id pm = (Ok rarest, pm') ->
  rarest ∈ PieceManager.missing_pieces pm
  /\ PieceManager.peer_has pm peer_id (Piece.index rarest) = Ok true
  /\ PieceManager.peers pm' = PieceManager.peers pm
  /\ PieceManager.pending_blocks pm' = PieceManager.pending_blocks pm
  /\ PieceManager.ongoing_pieces pm' = PieceManager.ongoing_pieces pm ++ [rarest].
Proof.
  unfold PieceManager._get_rarest_piece.
  destruct (PieceManager.count_loop pm peer_id 0 (PieceManager.missing_pieces pm))
    as [piece_count|] eqn:Hcount; [|done].
  destruct (PieceManager.py_min piece_count) as [[pos c]|] eqn:Hmin; [|done].
  destruct (PieceManager.missing_pieces pm !! pos) as [rarest'|] eqn:Hl; [|done].
  intros [= <- <-]. cbn.
  apply py_min_elem in Hmin.
  destruct (count_loop_entries _ _ _ _ _ _ _ Hcount Hmin) as (q & _ & Hq & Hhas & _).
  rewrite Nat.sub_0_r, Hl in Hq. injection Hq as <-.
  split; [by eapply list_elem_of_lookup_2 |]. by repeat split.
Qed.

(** X11. A block [next_request] returns is [Pending], belongs to a piece
    that is ongoing afterwards, and that piece is one the peer's bit array
    shows. *)
Theorem next_request_block_of_held_piece
    (peer_id : bytes) (current now : Z) (pm pm' : PieceManager.t)
    (blk : Block.t) :
  PieceManager.next_request peer_id current now pm = (Ok (Some blk), pm') ->
  exists p, p ∈ PieceManager.ongoing_pieces pm'
            /\ blk ∈ Piece.blocks p
            /\ Block.status blk = Block.Pending
            /\ PieceManager.peer_has pm peer_id (Piece.index p) = Ok true.
Proof.
  unfold PieceManager.next_request.
  destruct (PieceManager.peers pm !! peer_id); [|done].
  unfold bind at 1, PieceManager._expired_requests.
  pose proof (expired_loop_no_block pm peer_id current
                (PieceManager.pending_blocks pm)) as Hexp.
  destruct (PieceManager.expired_loop pm peer_id current _) as [[b0|]|];
    [by destruct (Hexp b0) | | done].
  unfold bind at 1, PieceManager._next_ongoing.
  destruct (PieceManager.ongoing_loop pm peer_id [] (PieceManager.ongoing_pieces pm))
    as [[[b1 ongoing]|]|] eqn:Hloop; [| | done].
  - intros [= <- <-]. cbn. by eapply ongoing_loop_block.
  - unfold bind.
    destruct (PieceManager._get_rarest_piece peer_id pm) as [[rarest|] pm1]
      eqn:Hrare; [|done].
    apply get_rarest_piece_held in Hrare as (_ & Hhas & _ & _ & Hongoing).
    destruct (Piece.next_request rarest) as [[b2|] rarest'] eqn:Hnext; [|done].
    intros [= <- <-]. cbn. rewrite Hongoing.
    apply piece_next_request_pending in Hnext as (Hin & Hst & Hidx).
    exists rarest'. split; [|by rewrite Hidx].
    rewrite length_app. cbn [length].
    replace (length (PieceManager.ongoing_pieces pm) + 1 - 1)%nat
      with (length (PieceManager.ongoing_pieces pm)) by lia.
    rewrite insert_middle. apply elem_of_app. right. constructor.
Qed.

Lemma next_request_block_of_held_piece_witness :
  exists p, p ∈ PieceManager.ongoing_pieces
                  (snd (PieceManager.next_request example_peer 0 0
                          (manager_with_peer [false; true; true])))
            /\ Block.set_status Block.Pending (Block.init 1 0 16384)
               ∈ Piece.blocks p
            /\ Block.status (Block.set_status Block.Pending (Block.init 1 0 16384))
               = Block.Pending
            /\ PieceManager.peer_has (manager_with_peer [false; true; true])
                 example_peer (Piece.index p) = Ok true.
Proof.
  apply (next_request_block_of_held_piece example_peer 0 0
           (manager_with_peer [false; true; true]) _
           (Block.set_status Block.Pending (Block.init 1 0 16384))).
  reflexivity.
Defined.

(** ** The rarest piece *)

Lemma holders_fold_positive (kvs : list (bytes * list bool)) index k bf c :
  foldr (fun kv acc =>
           rbind acc (fun n =>
           rbind (py_getitem (snd kv) index) (fun bit =>
           Ok (if bit : bool then S n else n))))
        (Ok 0%nat) kvs = Ok c ->
  (k, bf) ∈ kvs -> py_getitem bf index = Ok true -> (1 <= c)%nat.
Proof.
  revert c. induction kvs as [|kv kvs IH]; intros c; [by intros _ ?%elem_of_nil |].
  cbn [foldr].
  destruct (foldr _ (Ok 0%nat) kvs) as [n|]; [|done]. cbn [rbind].
  destruct (py_getitem (snd kv) index) as [bit|] eqn:Hbit; [|done]. cbn [rbind].
  intros [= <-] [<-|Hin]%elem_of_cons Hbf.
  - cbn in Hbit. rewrite Hbf in Hbit. injection Hbit as <-. lia.
  - specialize (IH n eq_refl Hin Hbf). destruct bit; lia.
Qed.

Lemma holders_positive pm peer_id index c :
  PieceManager.peer_has pm peer_id index = Ok true ->
  PieceManager.holders pm index = Ok c -> (1 <= c)%nat.
Proof.
  unfold PieceManager.peer_has, PieceManager.holders.
  destruct (PieceManager.peers pm !! peer_id) as [bf|] eqn:Hbf; [|done].
  intros Hbit Hc.
  eapply (holders_fold_positive _ index peer_id bf c Hc); [|exact Hbit].
  by apply elem_of_map_to_list.
Qed.

Lemma count_loop_complete pm peer_id pos ps l k q c :
  PieceManager.count_loop pm peer_id pos ps = Ok l ->
  ps !! k = Some q ->
  PieceManager.peer_has pm peer_id (Piece.index q) = Ok true ->
  PieceManager.holders pm (Piece.index q) = Ok c ->
  ((pos + k)%nat, c) ∈ l.
Proof.
  revert pos l k. induction ps as [|piece rest IH]; intros pos l k; [done |].
  cbn [PieceManager.count_loop]. intros Hl Hk Hhas Hc.
  destruct k as [|k]; cbn in Hk.
  - injection Hk as ->. rewrite Hhas, Hc in Hl. cbn [rbind negb] in Hl.
    destruct (PieceManager.count_loop pm peer_id (S pos) rest) as [tl|]; [|done].
    cbn [rbind] in Hl.
    pose proof (holders_positive _ _ _ _ Hhas Hc).
    destruct (Nat.eqb_spec c 0); [lia |]. injection Hl as <-.
    rewrite Nat.add_0_r. constructor.
  - assert (Hin : forall tl, PieceManager.count_loop pm peer_id (S pos) rest = Ok tl ->
                     ((pos + S k)%nat, c) ∈ tl).
    { intros tl Htl. replace (pos + S k)%nat with (S pos + k)%nat by lia.
      by eapply IH. }
    destruct (PieceManager.peer_has pm peer_id (Piece.index piece)) as [[|]|];
      cbn [rbind negb] in Hl; [| by apply Hin | done].
    destruct (PieceManager.holders pm (Piece.index piece)) as [c'|];
      cbn [rbind] in Hl; [|done].
    destruct (PieceManager.count_loop pm peer_id (S pos) rest) as [tl|]; [|done].
    cbn [rbind] in Hl. destruct (c' =? 0)%nat; injection Hl as <-.
    + by apply Hin.
    + apply elem_of_cons. right. by apply Hin.
Qed.

Lemma py_getitem_lookup {A} (l : list A) (i : Z) (x : A) :
  py_getitem l i = Ok x -> 0 <= i -> l !! Z.to_nat i = Some x.
Proof.
  unfold py_getitem. intros H Hi.
  destruct (Z.ltb_spec i 0); [lia |].
  destruct (_ || _); [done |].
  by destruct (l !! Z.to_nat i) as [y|]; [injection H as -> |].
Qed.

(** For a position that is not negative, what the inner loop of
    [_get_rarest_piece] counts is the number of registered peers whose
    bit array shows the piece. *)
Lemma holders_count pm index c :
  PieceManager.holders pm index = Ok c -> 0 <= index ->
  c = holder_count pm index.
Proof.
  unfold PieceManager.holders, holder_count. intros H Hi. revert c H.
  induction (map_to_list (PieceManager.peers pm)) as [|kv kvs IH]; intros c.
  - by intros [= <-].
  - cbn [foldr].
    destruct (foldr _ (Ok 0%nat) kvs) as [n|]; [|done]. cbn [rbind].
    destruct (py_getitem (snd kv) index) as [bit|] eqn:Hbit; [|done].
    cbn [rbind]. intros [= <-].
    apply py_getitem_lookup in Hbit; [|done].
    rewrite filter_cons. specialize (IH n eq_refl).
    destruct (decide (snd kv !! Z.to_nat index = Some true)) as [Hyes|Hno].
    + rewrite Hbit in Hyes. injection Hyes as ->. cbn [length]. by f_equal.
    + destruct bit; [by destruct Hno | done].
Qed.

Lemma count_loop_holders pm peer_id pos ps l k q :
  PieceManager.count_loop pm peer_id pos ps = Ok l ->
  ps !! k = Some q ->
  PieceManager.peer_has pm peer_id (Piece.index q) = Ok true ->
  exists c, PieceManager.holders pm (Piece.index q) = Ok c.
Proof.
  revert pos l k. induction ps as [|piece rest IH]; intros pos l k; [done |].
  cbn [PieceManager.count_loop]. intros Hl Hk Hhas.
  destruct k as [|k]; cbn in Hk.
  - injection Hk as ->. rewrite Hhas in Hl. cbn [rbind negb] in Hl.
    destruct (PieceManager.holders pm (Piece.index q)) as [c|]; [|done].
    by exists c.
  - destruct (PieceManager.peer_has pm peer_id (Piece.index piece)) as [[|]|];
      cbn [rbind negb] in Hl; [| by eapply IH | done].
    destruct (PieceManager.holders pm (Piece.index piece)) as [c'|];
      cbn [rbind] in Hl; [|done].
    destruct (PieceManager.count_loop pm peer_id (S pos) rest) as [tl|] eqn:Htl;
      [|done].
    by eapply IH.
Qed.

(** X12. The piece [_get_rarest_piece] returns is a missing piece the peer
    has, and no missing piece the peer has is shown by the bit arrays of
    fewer registered peers; it is moved from [missing_pieces] to the end
    of [ongoing_pieces]. *)
Theorem rarest_piece_is_rarest
    (peer_id : bytes) (pm pm' : PieceManager.t) (rarest : Piece.t) :
  PieceManager._get_rarest_piece peer_id pm = (Ok rarest, pm') ->
  Forall (fun p => 0 <= Piece.index p) (PieceManager.missing_pieces pm) ->
  PieceManager.peer_has pm peer_id (Piece.index rarest) = Ok true
  /\ (exists pos,
        PieceManager.missing_pieces pm !! pos = Some rarest
        /\ PieceManager.missing_pieces pm'
           = delete pos (PieceManager.missing_pieces pm))
  /\ PieceManager.ongoing_pieces pm' = PieceManager.ongoing_pieces pm ++ [rarest]
  /\ forall q,
       q ∈ PieceManager.missing_pieces pm ->
       PieceManager.peer_has pm peer_id (Piece.index q) = Ok true ->
       (holder_count pm (Piece.index rarest) <= holder_count pm (Piece.index q))%nat.
Proof.
  intros Hrare Hidx.
  pose proof (get_rarest_piece_held _ _ _ _ Hrare) as (_ & Hhas & _ & _ & Hongoing).
  split; [exact Hhas |]. revert Hrare.
  unfold PieceManager._get_rarest_piece.
  destruct (PieceManager.count_loop pm peer_id 0 (PieceManager.missing_pieces pm))
    as [piece_count|] eqn:Hcount; [|done].
  destruct (PieceManager.py_min piece_count) as [[pos count]|] eqn:Hmin; [|done].
  destruct (PieceManager.missing_pieces pm !! pos) as [rarest'|] eqn:Hl; [|done].
  intros [= -> <-]. cbn.
  split; [by exists pos |]. split; [done |].
  pose proof (py_min_elem _ _ Hmin) as Hin.
  destruct (count_loop_entries _ _ _ _ _ _ _ Hcount Hin) as (q & _ & Hq & _ & Hc).
  rewrite Nat.sub_0_r, Hl in Hq. injection Hq as <-.
  rewrite Forall_forall in Hidx.
  apply holders_count in Hc;
    [| by apply Hidx; eapply list_elem_of_lookup_2].
  intros q Hqin Hqhas.
  destruct (proj1 (list_elem_of_lookup _ _) Hqin) as [k Hk].
  destruct (count_loop_holders _ _ _ _ _ _ _ Hcount Hk Hqhas) as [c Hqc].
  pose proof (count_loop_complete _ _ _ _ _ _ _ _ Hcount Hk Hqhas Hqc) as Hentry.
  apply holders_count in Hqc; [|by apply Hidx].
  rewrite <- Hc, <- Hqc.
  apply (py_min_least _ _ _ Hmin Hentry).
Qed.

Lemma rarest_piece_is_rarest_witness :
  PieceManager._get_rarest_piece [80; 50] two_peers
  = (Ok (Piece.mk 2 [Block.init 2 0 16384; Block.init 2 16384 8080] [3]),
     snd (PieceManager._get_rarest_piece [80; 50] two_peers))
  /\ PieceManager.peer_has two_peers [80; 50] 1 = Ok true
  /\ holder_count two_peers 1 = 2%nat
  /\ holder_count two_peers 2 = 1%nat
  /\ forall q,
       q ∈ PieceManager.missing_pieces two_peers ->
       PieceManager.peer_has two_peers [80; 50] (Piece.index q) = Ok true ->
       (holder_count two_peers 2 <= holder_count two_peers (Piece.index q))%nat.
Proof.
  assert (H : PieceManager._get_rarest_piece [80; 50] two_peers
              = (Ok (Piece.mk 2 [Block.init 2 0 16384; Block.init 2 16384 8080] [3]),
                 snd (PieceManager._get_rarest_piece [80; 50] two_peers)))
    by reflexivity.
  split; [exact H |]. do 3 (split; [reflexivity |]).
  apply (rarest_piece_is_rarest [80; 50] two_peers _ _ H).
  repeat constructor; done.
Defined.

(** ** The pending requests *)

Lemma ongoing_loop_pm pm peer_id seen rest blk ongoing :
  PieceManager.ongoing_loop pm peer_id seen rest = Ok (Some (blk, ongoing)) ->
  exists p, p ∈ rest /\ Block.status blk = Block.Pending
            /\ exists blk0, blk0 ∈ Piece.blocks p
                            /\ Block.status blk0 = Block.Missing.
Proof.
  revert seen. induction rest as [|piece rest IH]; intros seen; [done |].
  assert (Hnext : PieceManager.ongoing_loop pm peer_id (seen ++ [piece]) rest
                  = Ok (Some (blk, ongoing)) ->
                  exists p, p ∈ piece :: rest /\ Block.status blk = Block.Pending
                    /\ exists blk0, blk0 ∈ Piece.blocks p
                                    /\ Block.status blk0 = Block.Missing).
  { intros (p & Hp & H)%IH. exists p. split; [|exact H].
    apply elem_of_cons. by right. }
  cbn. destruct (PieceManager.peer_has pm peer_id (Piece.index piece))
    as [[|]|]; cbn; [| exact Hnext | done].
  destruct (Piece.next_request piece) as [[blk'|] piece'] eqn:Hreq; [|exact Hnext].
  intros [= <- <-].
  apply piece_next_request_split in Hreq
    as (pre & blk0 & post & Hbs & H0 & -> & _).
  exists piece. split; [constructor |]. split; [done |].
  exists blk0. split; [|done]. rewrite Hbs. apply elem_of_app. right. constructor.
Qed.

(** X13. [next_request] leaves [pending_blocks] as it is or appends one
    request, for the block it returns and stamped with the clock reading
    of [_next_ongoing]. *)
Theorem next_request_pending_blocks
    (peer_id : bytes) (current now : Z) (pm : PieceManager.t) :
  PieceManager.pending_blocks
    (snd (PieceManager.next_request peer_id current now pm))
  = PieceManager.pending_blocks pm
  \/ exists blk,
       fst (PieceManager.next_request peer_id current now pm) = Ok (Some blk)
       /\ PieceManager.pending_blocks
            (snd (PieceManager.next_request peer_id current now pm))
          = PieceManager.pending_blocks pm ++ [mkPendingRequest blk now].
Proof.
  destruct (PieceManager.next_request peer_id current now pm) as [r pm'] eqn:H.
  cbn [fst snd]. revert H. unfold PieceManager.next_request.
  destruct (PieceManager.peers pm !! peer_id); [|intros [= <- <-]; by left].
  unfold bind at 1, PieceManager._expired_requests.
  destruct (PieceManager.expired_loop pm peer_id current _) as [[b0|]|];
    [intros [= <- <-]; by left | | intros [= <- <-]; by left].
  unfold bind at 1, PieceManager._next_ongoing.
  destruct (PieceManager.ongoing_loop pm peer_id [] (PieceManager.ongoing_pieces pm))
    as [[[b1 ongoing]|]|]; [| | intros [= <- <-]; by left].
  - intros [= <- <-]. right. exists b1. split; reflexivity.
  - unfold bind.
    destruct (PieceManager._get_rarest_piece peer_id pm) as [[rarest|] pm1]
      eqn:Hrare.
    + apply get_rarest_piece_held in Hrare as (_ & _ & _ & Hpending & _).
      destruct (Piece.next_request rarest). intros [= <- <-]. by left.
    + intros [= <- <-]. left. revert Hrare. unfold PieceManager._get_rarest_piece.
      destruct (PieceManager.count_loop pm peer_id 0 _); [|by intros [= _ <-]].
      destruct (PieceManager.py_min _) as [[pos c]|]; [|by intros [= _ <-]].
      destruct (PieceManager.missing_pieces pm !! pos); by intros [= _ <-].
Qed.

(** X14. When no ongoing piece has a [Missing] block, as in a manager that
    has not started any piece, [next_request] records no pending request,
    whatever it returns: the block it takes from a piece it starts is
    handed out without one. *)
Theorem next_request_new_piece_not_pending
    (peer_id : bytes) (current now : Z) (pm : PieceManager.t) :
  Forall (fun p => Forall (fun blk => Block.status blk <> Block.Missing)
                          (Piece.blocks p))
         (PieceManager.ongoing_pieces pm) ->
  PieceManager.pending_blocks
    (snd (PieceManager.next_request peer_id current now pm))
  = PieceManager.pending_blocks pm.
Proof.
  intros Hnone.
  destruct (PieceManager.next_request peer_id current now pm) as [r pm'] eqn:H.
  cbn [snd]. revert H. unfold PieceManager.next_request.
  destruct (PieceManager.peers pm !! peer_id); [|by intros [= <- <-]].
  unfold bind at 1, PieceManager._expired_requests.
  destruct (PieceManager.expired_loop pm peer_id current _) as [[b0|]|];
    [by intros [= <- <-] | | by intros [= <- <-]].
  unfold bind at 1, PieceManager._next_ongoing.
  destruct (PieceManager.ongoing_loop pm peer_id [] (PieceManager.ongoing_pieces pm))
    as [[[b1 ongoing]|]|] eqn:Hloop; [| | by intros [= <- <-]].
  - apply ongoing_loop_pm in Hloop as (p & Hp & _ & blk0 & Hin & Hmissing).
    rewrite Forall_forall in Hnone. specialize (Hnone p Hp).
    rewrite Forall_forall in Hnone. by destruct (Hnone blk0 Hin).
  - unfold bind.
    destruct (PieceManager._get_rarest_piece peer_id pm) as [[rarest|] pm1]
      eqn:Hrare.
    + apply get_rarest_piece_held in Hrare as (_ & _ & _ & Hpending & _).
      destruct (Piece.next_request rarest). by intros [= <- <-].
    + intros [= <- <-]. revert Hrare. unfold PieceManager._get_rarest_piece.
      destruct (PieceManager.count_loop pm peer_id 0 _); [|by intros [= _ <-]].
      destruct (PieceManager.py_min _) as [[pos c]|]; [|by intros [= _ <-]].
      destruct (PieceManager.missing_pieces pm !! pos); by intros [= _ <-].
Qed.

Lemma next_request_new_piece_not_pending_witness :
  fst (PieceManager.next_request example_peer 0 0
         (manager_with_peer [true; true; true]))
  = Ok (Some (Block.set_status Block.Pending (Block.init 0 0 16384)))
  /\ PieceManager.pending_blocks
       (snd (PieceManager.next_request example_peer 0 0
               (manager_with_peer [true; true; true])))
     = PieceManager.pending_blocks (manager_with_peer [true; true; true]).
Proof.
  split; [reflexivity |].
  apply (next_request_new_piece_not_pending example_peer 0 0
           (manager_with_peer [true; true; true])).
  constructor.
Defined.

(** ** The peers of the manager *)

(** X15. For a registered peer and a position inside its bit array,
    [update_peer] sets that bit and no other, and touches no other peer:
    the three lists of pieces, the pending requests and the file are as
    they were. *)
Theorem update_peer_sets_bit
    (peer_id : bytes) (index : Z) (pm : PieceManager.t) (bf : list bool) :
  PieceManager.peers pm !! peer_id = Some bf ->
  0 <= index < Z.of_nat (length bf) ->
  exists pm',
    PieceManager.update_peer peer_id index pm = (Ok tt, pm')
    /\ PieceManager.peers pm' !! peer_id = Some (<[Z.to_nat index := true]> bf)
    /\ PieceManager.peer_has pm' peer_id index = Ok true
    /\ (forall j, 0 <= j < Z.of_nat (length bf) -> j <> index ->
          PieceManager.peer_has pm' peer_id j = PieceManager.peer_has pm peer_id j)
    /\ (forall other, other <> peer_id ->
          PieceManager.peers pm' !! other = PieceManager.peers pm !! other)
    /\ PieceManager.missing_pieces pm' = PieceManager.missing_pieces pm
    /\ PieceManager.ongoing_pieces pm' = PieceManager.ongoing_pieces pm
    /\ PieceManager.have_pieces pm' = PieceManager.have_pieces pm
    /\ PieceManager.pending_blocks pm' = PieceManager.pending_blocks pm
    /\ PieceManager.fd pm' = PieceManager.fd pm.
Proof.
  intros Hbf Hi. unfold PieceManager.update_peer. rewrite Hbf. cbn zeta.
  destruct (Z.ltb_spec index 0); [lia |].
  destruct (Z.ltb_spec index 0), (Z.leb_spec (Z.of_nat (length bf)) index);
    try lia. cbn [orb].
  eexists. split; [reflexivity |]. cbn [PieceManager.peers PieceManager.set_peers].
  split; [by rewrite lookup_insert_eq |]. split; [|split; [|split]].
  - unfold PieceManager.peer_has. cbn. rewrite lookup_insert_eq.
    apply py_getitem_nonneg; [lia |].
    apply list_lookup_insert_eq. lia.
  - intros j Hj Hne. unfold PieceManager.peer_has. cbn.
    rewrite lookup_insert_eq, Hbf. unfold py_getitem. rewrite length_insert.
    destruct (Z.ltb_spec j 0); [lia |].
    destruct (Z.ltb_spec j 0), (Z.leb_spec (Z.of_nat (length bf)) j); try lia.
    cbn [orb]. rewrite list_lookup_insert_ne by lia. done.
  - intros other Hne. by rewrite lookup_insert_ne.
  - by repeat split.
Qed.

Lemma update_peer_sets_bit_witness :
  exists pm',
    PieceManager.update_peer example_peer 2 (manager_with_peer [true; false; false])
    = (Ok tt, pm')
    /\ PieceManager.peers pm' !! example_peer
       = Some (<[Z.to_nat 2 := true]> [true; false; false])
    /\ PieceManager.peer_has pm' example_peer 2 = Ok true
    /\ (forall j, 0 <= j < Z.of_nat (length [true; false; false]) -> j <> 2 ->
          PieceManager.peer_has pm' example_peer j
          = PieceManager.peer_has (manager_with_peer [true; false; false])
              example_peer j)
    /\ (forall other, other <> example_peer ->
          PieceManager.peers pm' !! other
          = PieceManager.peers (manager_with_peer [true; false; false]) !! other)
    /\ PieceManager.missing_pieces pm'
       = PieceManager.missing_pieces (manager_with_peer [true; false; false])
    /\ PieceManager.ongoing_pieces pm'
       = PieceManager.ongoing_pieces (manager_with_peer [true; false; false])
    /\ PieceManager.have_pieces pm'
       = PieceManager.have_pieces (manager_with_peer [true; false; false])
    /\ PieceManager.pending_blocks pm'
       = PieceManager.pending_blocks (manager_with_peer [true; false; false])
    /\ PieceManager.fd pm'
       = PieceManager.fd (manager_with_peer [true; false; false]).
Proof.
  apply (update_peer_sets_bit example_peer 2
           (manager_with_peer [true; false; false]) [true; false; false]);
    [reflexivity | cbn; lia].
Defined.

(** [update_peer] with a position at or behind the end of the bit array of
    a registered peer raises [IndexError] and leaves the manager as it
    is. *)
Lemma update_peer_out_of_range
    (peer_id : bytes) (index : Z) (pm : PieceManager.t) (bf : list bool) :
  PieceManager.peers pm !! peer_id = Some bf ->
  Z.of_nat (length bf) <= index ->
  PieceManager.update_peer peer_id index pm = (Raise IndexError, pm).
Proof.
  intros Hbf Hi. unfold PieceManager.update_peer. rewrite Hbf.
  cbn zeta. destruct (Z.ltb_spec index 0); [lia |].
  destruct (Z.ltb_spec index 0), (Z.leb_spec (Z.of_nat (length bf)) index);
    try lia. done.
Qed.

(** X16. Registering a peer that was not known and removing it again gives
    back the manager as it was. *)
Theorem add_then_remove_peer
    (peer_id : bytes) (bitfield : list bool) (pm : PieceManager.t) :
  PieceManager.peers pm !! peer_id = None ->
  snd (PieceManager.remove_peer peer_id
         (snd (PieceManager.add_peer peer_id bitfield pm))) = pm.
Proof.
  intros Hnone. unfold PieceManager.remove_peer, PieceManager.add_peer.
  cbn [snd PieceManager.peers PieceManager.set_peers].
  rewrite lookup_insert_eq. cbn [snd].
  unfold PieceManager.set_peers. cbn.
  rewrite delete_insert_eq, delete_id by done. by destruct pm.
Qed.

Lemma add_then_remove_peer_witness :
  snd (PieceManager.remove_peer example_peer
         (snd (PieceManager.add_peer example_peer [true] example_manager)))
  = example_manager.
Proof.
  apply (add_then_remove_peer example_peer [true] example_manager).
  reflexivity.
Defined.

(** X17. Once a peer is removed, [next_request] answers [None] for it and
    leaves the manager as it is. *)
Theorem next_request_after_remove_peer
    (peer_id : bytes) (current now : Z) (pm : PieceManager.t) :
  PieceManager.next_request peer_id current now
    (snd (PieceManager.remove_peer peer_id pm))
  = (Ok None, snd (PieceManager.remove_peer peer_id pm)).
Proof.
  unfold PieceManager.remove_peer, PieceManager.next_request.
  destruct (PieceManager.peers pm !! peer_id) eqn:Hp; cbn [snd].
  - cbn [PieceManager.peers PieceManager.set_peers].
    by rewrite lookup_delete_eq.
  - by rewrite Hp.
Qed.

(** ** The end of the download *)

(** X18. In a manager that satisfies the inventory invariant, [complete]
    holds exactly when no piece is missing or ongoing. *)
Theorem complete_when_nothing_left (pm : PieceManager.t) :
  inventory_invariant pm ->
  PieceManager.complete pm = true
  <-> PieceManager.missing_pieces pm = [] /\ PieceManager.ongoing_pieces pm = [].
Proof.
  intros [_ Hlen]. unfold PieceManager.complete. rewrite Z.eqb_eq. split.
  - intros Hc.
    destruct (PieceManager.missing_pieces pm), (PieceManager.ongoing_pieces pm);
      cbn [length] in *; try done; lia.
  - intros [Hm Ho]. rewrite Hm, Ho in Hlen. cbn [length] in Hlen. lia.
Qed.

Lemma complete_when_nothing_left_witness :
  inventory_invariant example_manager
  /\ (PieceManager.complete example_manager = true
      <-> PieceManager.missing_pieces example_manager = []
          /\ PieceManager.ongoing_pieces example_manager = []).
Proof.
  assert (H : inventory_invariant example_manager).
  { split; [repeat constructor | reflexivity]. }
  split; [exact H |]. apply (complete_when_nothing_left example_manager H).
Defined.

(** * The handshake and the message stream *)

Lemma field_s_exact (k : nat) (d : Handshake.bytes) :
  length d = k -> Handshake.field_s k d = d.
Proof.
  intros <-. unfold Handshake.field_s.
  by rewrite Nat.sub_diag, firstn_all, app_nil_r.
Qed.

Lemma field_s_length (k : nat) (d : Handshake.bytes) :
  length (Handshake.field_s k d) = k.
Proof.
  unfold Handshake.field_s. rewrite length_app, length_take, length_replicate. lia.
Qed.

Lemma py_slice_middle {A} (l1 l2 l3 : list A) :
  py_slice (l1 ++ l2 ++ l3) (Z.of_nat (length l1))
    (Z.of_nat (length l1) + Z.of_nat (length l2)) = l2.
Proof.
  rewrite py_slice_nonneg by (rewrite ?length_app; lia).
  rewrite Nat2Z.id, drop_app_length.
  replace (Z.to_nat _) with (length l2) by lia.
  by rewrite take_app_length.
Qed.

Lemma handshake_decode_fields (head info_hash peer_id : Handshake.bytes) :
  length head = 28%nat -> length info_hash = 20%nat -> length peer_id = 20%nat ->
  Handshake.decode (head ++ info_hash ++ peer_id)
  = Ok (Some (Handshake.mk info_hash peer_id)).
Proof.
  intros Hh Hi Hp. unfold Handshake.decode.
  rewrite !length_app, Hh, Hi, Hp.
  change (Z.of_nat (28 + (20 + 20)) <? 49 + 19) with false.
  change (Z.of_nat (28 + (20 + 20)) =? 68) with true. cbn match.
  f_equal. f_equal. f_equal.
  - replace 28 with (Z.of_nat (length head)) by lia.
    replace 48 with (Z.of_nat (length head) + Z.of_nat (length info_hash)) by lia.
    apply py_slice_middle.
  - rewrite (app_assoc head info_hash peer_id).
    replace 48 with (Z.of_nat (length (head ++ info_hash)))
      by (rewrite length_app; lia).
    replace 68
      with (Z.of_nat (length (head ++ info_hash))
            + Z.of_nat (length peer_id)) by (rewrite length_app; lia).
    rewrite <- (app_nil_r peer_id) at 1.
    apply py_slice_middle.
Qed.

(** X19. The handshake message has 68 bytes, and for an info hash and a
    peer id of 20 bytes each [decode] gives back the handshake that
    [encode] was called on. *)
Theorem handshake_roundtrip (h : Handshake.t) :
  length (Handshake.info_hash h) = 20%nat ->
  length (Handshake.peer_id h) = 20%nat ->
  Z.of_nat (length (Handshake.encode h)) = Handshake.length
  /\ Handshake.decode (Handshake.encode h) = Ok (Some h).
Proof.
  intros Hi Hp. split.
  - unfold Handshake.encode.
    rewrite !length_app, !field_s_length, length_replicate. done.
  - unfold Handshake.encode. rewrite !(field_s_exact 20) by done.
    destruct h as [ih pid]. cbn [Handshake.info_hash Handshake.peer_id] in *.
    rewrite (app_assoc [19]), (app_assoc _ (replicate 8 0)).
    apply handshake_decode_fields; done.
Qed.

Lemma handshake_roundtrip_witness :
  Z.of_nat (length (Handshake.encode
                      (Handshake.mk (replicate 20 7) (replicate 20 9))))
  = Handshake.length
  /\ Handshake.decode (Handshake.encode
                         (Handshake.mk (replicate 20 7) (replicate 20 9)))
     = Ok (Some (Handshake.mk (replicate 20 7) (replicate 20 9))).
Proof.
  apply (handshake_roundtrip (Handshake.mk (replicate 20 7) (replicate 20 9)));
    reflexivity.
Defined.

(** The loop of [_handshake] drops a read that is too short for a
    handshake. *)
Lemma read_loop_skips (turns : nat) (skipped : list Handshake.bytes)
    (buf full : Handshake.bytes) (more : list Handshake.bytes) :
  (length buf < 68)%nat ->
  Forall (fun d => (length d < 68)%nat) skipped ->
  (length skipped < turns)%nat ->
  (68 <= length full)%nat ->
  PeerHandshake.read_loop turns buf (skipped ++ full :: more) = (full, more).
Proof.
  intros Hbuf Hs. revert turns buf Hbuf.
  induction Hs as [|d skipped Hd _ IH]; intros turns buf Hbuf Hturns Hfull.
  - destruct turns as [|turns]; [cbn in Hturns; lia |].
    cbn [PeerHandshake.read_loop app stream_read].
    unfold Handshake.length.
    destruct (Z.ltb_spec (Z.of_nat (length buf)) (49 + 19)); [|lia].
    destruct turns as [|turns]; [done |].
    cbn [PeerHandshake.read_loop]. unfold Handshake.length.
    destruct (Z.ltb_spec (Z.of_nat (length full)) (49 + 19)); [lia | done].
  - destruct turns as [|turns]; [cbn in Hturns; lia |].
    cbn [PeerHandshake.read_loop app stream_read].
    unfold Handshake.length.
    destruct (Z.ltb_spec (Z.of_nat (length buf)) (49 + 19)); [|lia].
    apply IH; [done | cbn in Hturns; lia | done].
Qed.

(** X20. [_handshake] sends the client's handshake and takes the first read
    of at least 68 bytes among the first nine as the reply, dropping the
    shorter reads before it. When bytes 28 to 47 of that read are the
    client's info hash, the result is the peer id in bytes 48 to 67 and
    the bytes behind them, whatever the first 28 bytes are. *)
Theorem handshake_accepts
    (info_hash peer_id head remote rest : Handshake.bytes)
    (skipped more written : list Handshake.bytes) :
  Forall (fun d => (length d < 68)%nat) skipped ->
  (length skipped <= 8)%nat ->
  length head = 28%nat -> length info_hash = 20%nat -> length remote = 20%nat ->
  PeerHandshake._handshake info_hash peer_id
    (PeerHandshake.mk_io
       (skipped ++ (head ++ info_hash ++ remote ++ rest) :: more) written)
  = (Ok (remote, rest),
     PeerHandshake.mk_io more
       (written ++ [Handshake.encode (Handshake.mk info_hash peer_id)])).
Proof.
  intros Hs Hlen Hh Hi Hr. unfold PeerHandshake._handshake.
  cbn [PeerHandshake.reader PeerHandshake.written].
  rewrite read_loop_skips;
    [| cbn; lia | done | lia | rewrite !length_app; lia].
  replace (head ++ info_hash ++ remote ++ rest)
    with ((head ++ info_hash ++ remote) ++ rest)
    by (by rewrite <- !app_assoc).
  assert (Hl : Handshake.length = Z.of_nat (length (head ++ info_hash ++ remote))).
  { rewrite !length_app, Hh, Hi, Hr. done. }
  rewrite Hl, py_slice_to_app, py_slice_from_app.
  rewrite handshake_decode_fields by done.
  cbn [Handshake.info_hash Handshake.peer_id].
  by rewrite bool_decide_eq_true_2.
Qed.

Lemma handshake_accepts_witness :
  PeerHandshake._handshake (replicate 20 7) (replicate 20 9)
    (PeerHandshake.mk_io
       ([[1; 2; 3]]
        ++ (replicate 28 0 ++ replicate 20 7 ++ replicate 20 5 ++ [0; 0; 0; 0])
           :: [])
       [])
  = (Ok (replicate 20 5, [0; 0; 0; 0]),
     PeerHandshake.mk_io []
       ([] ++ [Handshake.encode
                 (Handshake.mk (replicate 20 7) (replicate 20 9))])).
Proof.
  apply (handshake_accepts (replicate 20 7) (replicate 20 9) (replicate 28 0)
           (replicate 20 5) [0; 0; 0; 0] [[1; 2; 3]] [] []).
  - repeat constructor.
  - cbn. lia.
  - reflexivity.
  - reflexivity.
  - reflexivity.
Defined.

Lemma read_loop_short (turns : nat) (buf : Handshake.bytes)
    (reader : list Handshake.bytes) :
  (length buf < 68)%nat ->
  Forall (fun d => (length d < 68)%nat) (take turns reader) ->
  (length (fst (PeerHandshake.read_loop turns buf reader)) < 68)%nat.
Proof.
  revert buf reader. induction turns as [|turns IH]; intros buf reader Hbuf Hr.
  - done.
  - cbn [PeerHandshake.read_loop]. unfold Handshake.length.
    destruct (Z.ltb_spec (Z.of_nat (length buf)) (49 + 19)); [|done].
    destruct reader as [|d reader]; cbn [stream_read].
    + apply IH; [cbn; lia |]. by rewrite take_nil.
    + cbn [take] in Hr. apply Forall_cons in Hr as [Hd Hr].
      by apply IH.
Qed.

(** X21. When each of the first nine reads returns fewer than 68 bytes, or
    the stream ends before, [_handshake] does not return, whatever the
    reads add up to: each read replaces the buffer, the last one is too
    short to decode, and [raise ProtocolError(...)], which names a class
    that is defined nowhere, raises [NameError]. *)
Theorem handshake_short_reads
    (info_hash peer_id : Handshake.bytes) (s : PeerHandshake.io) :
  Forall (fun d => (length d < 68)%nat) (take 9 (PeerHandshake.reader s)) ->
  fst (PeerHandshake._handshake info_hash peer_id s) = Raise NameError.
Proof.
  intros Hr. unfold PeerHandshake._handshake.
  cbn [PeerHandshake.reader PeerHandshake.written].
  pose proof (read_loop_short 9 [] (PeerHandshake.reader s)) as Hshort.
  destruct (PeerHandshake.read_loop 9 [] (PeerHandshake.reader s))
    as [buf reader'].
  cbn [fst] in Hshort. specialize (Hshort ltac:(cbn; lia) Hr).
  assert (Hlen : (length (py_slice_to buf Handshake.length) < 68)%nat).
  { unfold py_slice_to, py_slice. rewrite length_take, length_drop. lia. }
  unfold Handshake.decode.
  destruct (Z.ltb_spec (Z.of_nat (length (py_slice_to buf Handshake.length)))
              (49 + 19)); [done | lia].
Qed.

Lemma handshake_short_reads_witness :
  fst (PeerHandshake._handshake (replicate 20 7) (replicate 20 9)
         (PeerHandshake.mk_io
            [replicate 28 0 ++ replicate 20 7; replicate 20 5] []))
  = Raise NameError.
Proof.
  apply (handshake_short_reads (replicate 20 7) (replicate 20 9)
           (PeerHandshake.mk_io
              [replicate 28 0 ++ replicate 20 7; replicate 20 5] [])).
  cbn. repeat constructor.
Defined.

(** ** The message stream *)

Lemma parse_keep_alive (x : Z) (rest : Wire.bytes) :
  Wire.parse ([0; 0; 0; 0] ++ x :: rest)
  = (Ok (Some Wire.KeepAlive), [0; 0; 0; 0] ++ x :: rest).
Proof.
  unfold Wire.parse, bind, get, lift, ret.
  destruct (Z.ltb_spec 4 (Z.of_nat (length ([0; 0; 0; 0] ++ x :: rest))));
    [| cbn [length app] in *; lia].
  rewrite py_slice_nonneg by (cbn [length app] in *; lia).
  done.
Qed.

(** X22. A keep-alive at the head of the buffer with at least one byte
    behind it is never consumed: [__anext__] returns [KeepAlive] whatever
    the reader holds, and the buffer starts with the same five bytes
    afterwards, so that every later call returns [KeepAlive] too. *)
Theorem anext_keep_alive_stays
    (s : PeerStreamIterator.t) (x : Z) (rest : Wire.bytes) :
  PeerStreamIterator.buffer s = [0; 0; 0; 0] ++ x :: rest ->
  exists (s' : PeerStreamIterator.t) (rest' : Wire.bytes),
    PeerStreamIterator.__anext__ s
    = (PeerStreamIterator.Message Wire.KeepAlive, s')
    /\ PeerStreamIterator.buffer s' = [0; 0; 0; 0] ++ x :: rest'.
Proof.
  intros Hb. unfold PeerStreamIterator.__anext__. rewrite Hb.
  destruct (PeerStreamIterator.reader s) as [|[|d data] reader'].
  - cbn [PeerStreamIterator.anext_loop PeerStreamIterator.at_end app].
    change (0 :: 0 :: 0 :: 0 :: x :: rest) with ([0; 0; 0; 0] ++ x :: rest).
    rewrite parse_keep_alive. by eexists _, _.
  - cbn [PeerStreamIterator.anext_loop PeerStreamIterator.at_end app].
    change (0 :: 0 :: 0 :: 0 :: x :: rest) with ([0; 0; 0; 0] ++ x :: rest).
    rewrite parse_keep_alive. by eexists _, _.
  - cbn [PeerStreamIterator.anext_loop].
    rewrite <- app_assoc. cbn [app].
    change (0 :: 0 :: 0 :: 0 :: x :: rest ++ d :: data)
      with ([0; 0; 0; 0] ++ x :: (rest ++ d :: data)).
    rewrite parse_keep_alive. by eexists _, _.
Qed.

Lemma anext_keep_alive_stays_witness :
  exists (s' : PeerStreamIterator.t) (rest' : Wire.bytes),
    PeerStreamIterator.__anext__
      (PeerStreamIterator.mk [[0; 0; 0; 1; 2]] [0; 0; 0; 0; 0; 0; 0; 1; 2])
    = (PeerStreamIterator.Message Wire.KeepAlive, s')
    /\ PeerStreamIterator.buffer s' = [0; 0; 0; 0] ++ 0 :: rest'.
Proof.
  apply (anext_keep_alive_stays
           (PeerStreamIterator.mk [[0; 0; 0; 1; 2]] [0; 0; 0; 0; 0; 0; 0; 1; 2])
           0 [0; 0; 1; 2]).
  reflexivity.
Defined.

(** X23. When a read completes a frame that [encode] made, [__anext__]
    returns the message of the frame and keeps the bytes behind the frame
    in the buffer. *)
Theorem anext_delivers_frame
    (m : Wire.message) (frame rest data : Wire.bytes)
    (reader' : list Wire.bytes) (s : PeerStreamIterator.t) :
  Wire.encode m = Ok frame ->
  PeerStreamIterator.reader s = data :: reader' ->
  data <> [] ->
  PeerStreamIterator.buffer s ++ data = frame ++ rest ->
  PeerStreamIterator.__anext__ s
  = (PeerStreamIterator.Message m, PeerStreamIterator.mk reader' rest).
Proof.
  intros Hm Hr Hd Hb. unfold PeerStreamIterator.__anext__. rewrite Hr.
  destruct data as [|d data]; [done |].
  cbn [PeerStreamIterator.anext_loop]. rewrite Hb.
  by rewrite (parse_encode m frame rest Hm).
Qed.

Lemma anext_delivers_frame_witness :
  PeerStreamIterator.__anext__
    (PeerStreamIterator.mk [[1; 0; 0; 0; 0; 1; 2]; [7]] [0; 0; 0; 5; 4; 0; 0])
  = (PeerStreamIterator.Message (Wire.Have 256),
     PeerStreamIterator.mk [[7]] [0; 0; 0; 1; 2]).
Proof.
  apply (anext_delivers_frame (Wire.Have 256) [0; 0; 0; 5; 4; 0; 0; 1; 0]
           [0; 0; 0; 1; 2] [1; 0; 0; 0; 0; 1; 2] [[7]]
           (PeerStreamIterator.mk [[1; 0; 0; 0; 0; 1; 2]; [7]]
              [0; 0; 0; 5; 4; 0; 0])).
  - reflexivity.
  - reflexivity.
  - discriminate.
  - reflexivity.
Defined.

(** * Frames that are only received *)

Lemma unpack_Ibs_frame (hdr : Wire.bytes) (l : Z) (payload : Wire.bytes) :
  Wire.unpack_I hdr = Ok l -> length hdr = 4%nat ->
  Wire.unpack_Ibs (Z.of_nat (length payload)) (hdr ++ [5] ++ payload)
  = Ok (l, 5, payload).
Proof.
  intros Hl H4. unfold Wire.unpack_Ibs.
  destruct hdr as [|a [|b0 [|c [|d [|]]]]]; try done.
  assert (Hlen : Z.of_nat (length ([a; b0; c; d] ++ [5] ++ payload))
                 = 5 + Z.of_nat (length payload)).
  { rewrite !length_app. cbn [length]. lia. }
  destruct (Z.leb_spec 0 (Z.of_nat (length payload))); [|lia].
  rewrite Hlen, Z.eqb_refl. cbn [andb].
  rewrite !py_slice_nonneg by lia.
  change (take (Z.to_nat (4 - 0)) (drop (Z.to_nat 0) ([a; b0; c; d] ++ [5] ++ payload)))
    with [a; b0; c; d].
  rewrite Hl. cbn [rbind].
  change (take (Z.to_nat (5 - 4)) (drop (Z.to_nat 4) ([a; b0; c; d] ++ [5] ++ payload)))
    with [5].
  cbn [Wire.unpack_b rbind]. change (5 <? 128) with true. cbn match.
  do 2 f_equal.
  change (drop (Z.to_nat 5) ([a; b0; c; d] ++ [5] ++ payload)) with payload.
  apply take_ge. lia.
Qed.

(** X24. A [BitField] frame, which [encode] cannot make, is parsed when it
    is the head of the buffer: the message holds the bits of the payload,
    eight for each byte, and the bytes behind the frame stay in the
    buffer. *)
Theorem parse_bitfield_frame (hdr payload rest : Wire.bytes) :
  Wire.pack_I (1 + Z.of_nat (length payload)) = Ok hdr ->
  Wire.parse (hdr ++ [5] ++ payload ++ rest)
  = (Ok (Some (Wire.BitField (Wire.BitArray payload))), rest)
  /\ length (Wire.BitArray payload) = (8 * length payload)%nat.
Proof.
  intros Hhdr. split.
  - pose proof (parse_framed hdr payload rest 5 ltac:(lia) Hhdr) as H.
    cbn zeta in H. change (5 mod 256) with 5 in H.
    rewrite <- !app_assoc in H. rewrite H. clear H.
    apply pack_I_inv in Hhdr as (a & b0 & c & d & -> & Hu).
    unfold Wire.parse_id. eval_tests. unfold bind, put, lift, ret.
    unfold Wire.BitField_decode.
    replace (py_slice_to ([a; b0; c; d] ++ [5] ++ payload) 4) with [a; b0; c; d]
      by (symmetry; apply (py_slice_to_app [a; b0; c; d])).
    rewrite Hu. cbn [rbind].
    replace (1 + Z.of_nat (length payload) - 1) with (Z.of_nat (length payload))
      by lia.
    by rewrite (unpack_Ibs_frame _ _ _ Hu).
  - unfold Wire.BitArray. clear Hhdr.
    induction payload as [|x payload IH]; [done |].
    cbn [map concat]. rewrite length_app, IH. cbn [length Wire.bits_of_byte map].
    lia.
Qed.

Lemma parse_bitfield_frame_witness :
  Wire.parse ([0; 0; 0; 2] ++ [5] ++ [160] ++ [0; 0; 0; 1; 1])
  = (Ok (Some (Wire.BitField (Wire.BitArray [160]))), [0; 0; 0; 1; 1])
  /\ length (Wire.BitArray [160]) = (8 * length [160])%nat.
Proof.
  apply (parse_bitfield_frame [0; 0; 0; 2] [160] [0; 0; 0; 1; 1]).
  reflexivity.
Defined.

(** * The piece hashes of a torrent and the peers of a tracker response *)

Section Chunks.
Context {A : Type}.
Implicit Types l pre rest : list A.

Lemma chunks_nil (fuel k : nat) : chunks fuel k (@nil A) = [].
Proof. by destruct fuel. Qed.

Lemma chunks_concat (fuel k : nat) l :
  (0 < k)%nat -> (length l <= fuel)%nat -> concat (chunks fuel k l) = l.
Proof.
  intros Hk. revert l. induction fuel as [|fuel IH]; intros l Hl.
  - by destruct l; [|cbn in Hl; lia].
  - destruct l as [|x l]; [done |].
    cbn [chunks concat]. rewrite IH; [apply take_drop |].
    rewrite length_drop. cbn [length] in *. lia.
Qed.

Lemma chunks_lookup (fuel k : nat) l (i : nat) (p : list A) :
  chunks fuel k l !! i = Some p ->
  p = take k (drop (k * i) l) /\ (k * i < length l)%nat.
Proof.
  revert l i. induction fuel as [|fuel IH]; intros l i; [done |].
  destruct l as [|x l]; [done |]. cbn [chunks].
  destruct i as [|i].
  - intros [= <-]. rewrite Nat.mul_0_r. cbn [length]. split; [done | lia].
  - cbn [lookup list_lookup]. intros H. apply IH in H as [-> Hlt].
    rewrite drop_drop, length_drop in *.
    replace (k * S i)%nat with (k + k * i)%nat by lia. split; [done | lia].
Qed.

Lemma chunks_length (fuel k n r : nat) l :
  (0 < k)%nat -> (r < k)%nat -> length l = (k * n + r)%nat ->
  (length l <= fuel)%nat ->
  length (chunks fuel k l) = (n + if (r =? 0)%nat then 0 else 1)%nat.
Proof.
  intros Hk Hr. revert l fuel. induction n as [|n IH]; intros l fuel Hl Hfuel.
  - rewrite Nat.mul_0_r in Hl. cbn [Nat.add] in Hl.
    destruct l as [|x l].
    + cbn in Hl. subst r. by rewrite chunks_nil.
    + destruct fuel as [|fuel]; [cbn in Hfuel; lia |].
      cbn [chunks length]. rewrite drop_ge by lia. rewrite chunks_nil.
      destruct (Nat.eqb_spec r 0); [cbn in Hl; lia | done].
  - destruct l as [|x l]; [cbn in Hl; lia |].
    destruct fuel as [|fuel]; [cbn in Hfuel; lia |].
    cbn [chunks length]. rewrite IH; [lia | |].
    + rewrite length_drop, Hl. lia.
    + rewrite length_drop. cbn [length] in *. lia.
Qed.

Lemma py_slice_chunk pre rest (k : nat) :
  py_slice (pre ++ rest) (Z.of_nat (length pre)) (Z.of_nat (length pre) + Z.of_nat k)
  = take k rest.
Proof.
  unfold py_slice, py_clamp. rewrite length_app.
  destruct (Z.ltb_spec (Z.of_nat (length pre)) 0); [lia |].
  destruct (Z.ltb_spec (Z.of_nat (length pre) + Z.of_nat k) 0); [lia |].
  rewrite (Z.min_l (Z.of_nat (length pre))) by lia.
  rewrite Nat2Z.id, drop_app_length.
  destruct (Nat.le_gt_cases k (length rest)).
  - rewrite Z.min_l by lia. f_equal. lia.
  - rewrite Z.min_r by lia. rewrite !take_ge by lia. done.
Qed.

End Chunks.

Lemma pieces_loop_done (turns : nat) (data : Bencode.bytes) (offset : Z) :
  Z.of_nat (length data) <= offset ->
  TorrentFile.pieces_loop turns data offset = [].
Proof.
  intros H. destruct turns as [|turns]; [done |]. cbn [TorrentFile.pieces_loop].
  by destruct (Z.ltb_spec offset (Z.of_nat (length data))); [lia |].
Qed.

Lemma pieces_loop_chunks (turns : nat) (pre rest : Bencode.bytes) :
  (length rest <= turns)%nat ->
  TorrentFile.pieces_loop turns (pre ++ rest) (Z.of_nat (length pre))
  = chunks turns 20 rest.
Proof.
  revert pre rest. induction turns as [|turns IH]; intros pre rest Hl; [done |].
  cbn [TorrentFile.pieces_loop chunks]. rewrite length_app.
  destruct rest as [|x rest].
  - by destruct (Z.ltb_spec (Z.of_nat (length pre))
                   (Z.of_nat (length pre + length (@nil ascii))));
      [cbn [length] in *; lia |].
  - destruct (Z.ltb_spec (Z.of_nat (length pre))
                (Z.of_nat (length pre + length (x :: rest))));
      [| cbn [length] in *; lia].
    change 20 with (Z.of_nat 20). rewrite py_slice_chunk. f_equal.
    destruct (Nat.le_gt_cases 20 (length (x :: rest))) as [Hge|Hlt].
    + rewrite <- (take_drop 20 (x :: rest)) at 1.
      rewrite app_assoc.
      replace (Z.of_nat (length pre) + Z.of_nat 20)
        with (Z.of_nat (length (pre ++ take 20 (x :: rest))))
        by (rewrite length_app, length_take; lia).
      apply IH. rewrite length_drop. cbn [length] in *. lia.
    + rewrite (drop_ge (x :: rest)) by lia. rewrite chunks_nil.
      apply pieces_loop_done. rewrite length_app. lia.
Qed.

(** X25. The [pieces] property cuts the value of [b'pieces'] into
    consecutive slices of 20 bytes, in order and without losing a byte:
    the slices joined give the value back, slice [k] starts at byte
    [20 * k], and a value whose length is no multiple of 20 gives a
    shorter last slice. *)
Theorem pieces_cover_data (data : Bencode.bytes) :
  concat (TorrentFile.pieces data) = data
  /\ length (TorrentFile.pieces data) = ((length data + 19) / 20)%nat
  /\ forall (k : nat) (p : Bencode.bytes),
       TorrentFile.pieces data !! k = Some p ->
       p = take 20 (drop (20 * k) data) /\ (20 * k < length data)%nat.
Proof.
  unfold TorrentFile.pieces.
  pose proof (pieces_loop_chunks (length data) [] data (Nat.le_refl _)) as H.
  cbn [app length] in H. change (Z.of_nat 0) with 0 in H.
  rewrite H. split; [|split].
  - apply chunks_concat; lia.
  - unfold Bencode.bytes.
    rewrite (chunks_length (length data) 20 (length data / 20)
               (length data mod 20)); try lia.
    + pose proof (Nat.div_mod_eq (length data) 20) as Hdm.
      pose proof (Nat.mod_upper_bound (length data) 20 ltac:(lia)) as Hm.
      destruct (Nat.eqb_spec (length data mod 20) 0).
      * apply (Nat.div_unique _ 20 _ 19); lia.
      * apply (Nat.div_unique _ 20 _ (length data mod 20 - 1)); lia.
    + apply Nat.mod_upper_bound. lia.
    + apply Nat.div_mod_eq.
  - intros k p. apply chunks_lookup.
Qed.

(** ** The peers of a tracker response *)

Lemma records_done (turns : nat) (data : Bencode.bytes) (i : Z) :
  Z.of_nat (length data) <= i -> TrackerResponse.records turns data i = [].
Proof.
  intros H. destruct turns as [|turns]; [done |]. cbn [TrackerResponse.records].
  by destruct (Z.ltb_spec i (Z.of_nat (length data))); [lia |].
Qed.

Lemma records_chunks (turns : nat) (pre rest : Bencode.bytes) :
  (length rest <= turns)%nat ->
  TrackerResponse.records turns (pre ++ rest) (Z.of_nat (length pre))
  = chunks turns 6 rest.
Proof.
  revert pre rest. induction turns as [|turns IH]; intros pre rest Hl; [done |].
  cbn [TrackerResponse.records chunks]. rewrite length_app.
  destruct rest as [|x rest].
  - by destruct (Z.ltb_spec (Z.of_nat (length pre))
                   (Z.of_nat (length pre + length (@nil ascii))));
      [cbn [length] in *; lia |].
  - destruct (Z.ltb_spec (Z.of_nat (length pre))
                (Z.of_nat (length pre + length (x :: rest))));
      [| cbn [length] in *; lia].
    change 6 with (Z.of_nat 6). rewrite py_slice_chunk. f_equal.
    destruct (Nat.le_gt_cases 6 (length (x :: rest))) as [Hge|Hlt].
    + rewrite <- (take_drop 6 (x :: rest)) at 1.
      rewrite app_assoc.
      replace (Z.of_nat (length pre) + Z.of_nat 6)
        with (Z.of_nat (length (pre ++ take 6 (x :: rest))))
        by (rewrite length_app, length_take; lia).
      apply IH. rewrite length_drop. cbn [length] in *. lia.
    + rewrite (drop_ge (x :: rest)) by lia. rewrite chunks_nil.
      apply records_done. rewrite length_app. lia.
Qed.

Lemma addresses_record (a b0 c d hi lo : ascii) (rest : list Bencode.bytes) :
  TrackerResponse.addresses ([a; b0; c; d; hi; lo] :: rest)
  = match TrackerResponse.inet_ntoa [a; b0; c; d],
          TrackerResponse._decode_port [hi; lo],
          TrackerResponse.addresses rest with
    | inr ip, inr port, inr tl => inr ((ip, port) :: tl)
    | inr _, inr _, inl e => inl e
    | _, _, _ => inl TrackerResponse.OSError
    end.
Proof. reflexivity. Qed.

Lemma decimal_byte (c : ascii) :
  TrackerResponse.decimal (TrackerResponse.byte_value c) = byte_decimal c.
Proof.
  unfold TrackerResponse.decimal, TrackerResponse.byte_value, byte_decimal.
  by destruct (N_of_ascii c).
Qed.

Lemma chunks_compact (fuel : nat) (records : list compact_peer) :
  (length (concat (compact_bytes <$> records)) <= fuel)%nat ->
  chunks fuel 6 (concat (compact_bytes <$> records)) = compact_bytes <$> records.
Proof.
  revert fuel. induction records as [|r records IH]; intros fuel Hl.
  - apply chunks_nil.
  - destruct r as [[[[[a b0] c] d] hi] lo].
    cbn [fmap list_fmap concat compact_bytes app] in *.
    destruct fuel as [|fuel]; [cbn [length] in Hl; lia |].
    cbn [chunks take drop]. rewrite drop_0, IH; [done |].
    cbn [length] in Hl. lia.
Qed.

Lemma addresses_compact (records : list compact_peer) :
  TrackerResponse.addresses (compact_bytes <$> records)
  = inr ((fun r => (dotted_quad r, port_number r)) <$> records).
Proof.
  induction records as [|r records IH]; [done |].
  destruct r as [[[[[a b0] c] d] hi] lo].
  cbn [fmap list_fmap compact_bytes] in *.
  rewrite addresses_record, IH.
  cbn [TrackerResponse.inet_ntoa TrackerResponse._decode_port].
  rewrite !decimal_byte. do 3 f_equal.
  unfold port_number, TrackerResponse.byte_value. lia.
Qed.

Lemma addresses_truncated (n r fuel : nat) (l : Bencode.bytes) :
  (0 < r < 6)%nat -> length l = (6 * n + r)%nat -> (length l <= fuel)%nat ->
  TrackerResponse.addresses (chunks fuel 6 l)
  = inl (if (r <? 4)%nat then TrackerResponse.OSError
         else TrackerResponse.StructError).
Proof.
  intros Hr. revert fuel l. induction n as [|n IH]; intros fuel l Hl Hfuel.
  - rewrite Nat.mul_0_r in Hl. cbn [Nat.add] in Hl. subst r.
    destruct fuel as [|fuel]; [lia |].
    destruct l as [|a [|b0 [|c [|d [|hi [|lo l]]]]]];
      cbn [length] in Hr; try lia;
      cbn [chunks take drop]; rewrite chunks_nil; reflexivity.
  - destruct l as [|a [|b0 [|c [|d [|hi [|lo l]]]]]]; try (cbn in Hl; lia).
    destruct fuel as [|fuel]; [cbn in Hfuel; lia |].
    cbn [chunks take drop]. rewrite drop_0.
    rewrite addresses_record, (IH fuel l);
      [| cbn [length] in Hl; lia | cbn [length] in Hfuel; lia].
    done.
Qed.

(** X26. For a byte string under [b'peers'] that is made of six-byte
    records, the [peers] property returns one pair for each record, in
    order: the four address bytes in decimal with dots between them, and
    the port [256 * hi + lo] of the two port bytes. *)
Theorem peers_compact (d : list (Bencode.value * Bencode.value))
    (records : list compact_peer) :
  Tracker.dict_get d (Bencode.b "peers")
  = Some (Bencode.VBytes (concat (compact_bytes <$> records))) ->
  TrackerResponse.peers (Tracker.mkTrackerResponse (Bencode.VDict d))
  = inr ((fun r => (dotted_quad r, port_number r)) <$> records).
Proof.
  intros Hd. unfold TrackerResponse.peers. cbn [Tracker.response].
  rewrite Hd.
  pose proof (records_chunks (length (concat (compact_bytes <$> records))) []
                (concat (compact_bytes <$> records)) (Nat.le_refl _)) as H.
  cbn [app length] in H. change (Z.of_nat 0) with 0 in H. rewrite H.
  rewrite chunks_compact by done.
  apply addresses_compact.
Qed.

Lemma peers_compact_witness :
  TrackerResponse.peers
    (Tracker.mkTrackerResponse
       (Bencode.VDict
          [(Bencode.VBytes (Bencode.b "interval"), Bencode.VInt 1800);
           (Bencode.VBytes (Bencode.b "peers"),
            Bencode.VBytes
              (ascii_of_nat <$> [10; 0; 0; 1; 26; 225;
                                 192; 168; 1; 20; 200; 213]%nat))]))
  = inr [("10.0.0.1"%string, 6881); ("192.168.1.20"%string, 51413)].
Proof.
  apply (peers_compact
           [(Bencode.VBytes (Bencode.b "interval"), Bencode.VInt 1800);
            (Bencode.VBytes (Bencode.b "peers"),
             Bencode.VBytes
               (ascii_of_nat <$> [10; 0; 0; 1; 26; 225;
                                  192; 168; 1; 20; 200; 213]%nat))]
           [(ascii_of_nat 10, ascii_of_nat 0, ascii_of_nat 0, ascii_of_nat 1,
             ascii_of_nat 26, ascii_of_nat 225);
            (ascii_of_nat 192, ascii_of_nat 168, ascii_of_nat 1, ascii_of_nat 20,
             ascii_of_nat 200, ascii_of_nat 213)]).
  reflexivity.
Defined.

(** X27. For a byte string under [b'peers'] whose length is no multiple of
    six the [peers] property returns nothing: the last record makes
    [inet_ntoa] raise [OSError] when it has fewer than four bytes, and
    [_decode_port] raise [struct.error] when it has four or five. *)
Theorem peers_truncated (d : list (Bencode.value * Bencode.value))
    (data : Bencode.bytes) :
  Tracker.dict_get d (Bencode.b "peers") = Some (Bencode.VBytes data) ->
  (length data mod 6 <> 0)%nat ->
  TrackerResponse.peers (Tracker.mkTrackerResponse (Bencode.VDict d))
  = inl (if (length data mod 6 <? 4)%nat then TrackerResponse.OSError
         else TrackerResponse.StructError).
Proof.
  intros Hd Hl. unfold TrackerResponse.peers. cbn [Tracker.response].
  rewrite Hd.
  pose proof (records_chunks (length data) [] data (Nat.le_refl _)) as H.
  cbn [app length] in H. change (Z.of_nat 0) with 0 in H. rewrite H.
  apply (addresses_truncated (length data / 6)).
  - pose proof (Nat.mod_upper_bound (length data) 6). lia.
  - apply Nat.div_mod_eq.
  - done.
Qed.

Lemma peers_truncated_witness :
  TrackerResponse.peers
    (Tracker.mkTrackerResponse
       (Bencode.VDict [(Bencode.VBytes (Bencode.b "peers"),
                        Bencode.VBytes (Bencode.b "abcd01efgh"))]))
  = inl (if (length (Bencode.b "abcd01efgh") mod 6 <? 4)%nat
         then TrackerResponse.OSError else TrackerResponse.StructError).
Proof.
  apply (peers_truncated [(Bencode.VBytes (Bencode.b "peers"),
                           Bencode.VBytes (Bencode.b "abcd01efgh"))]
           (Bencode.b "abcd01efgh")).
  - reflexivity.
  - cbn. lia.
Defined.

(** * More on the loop of a connection *)

Lemma py_remove_other (x y : string) (l l' : list string) :
  x <> y -> PeerConnection.py_remove x l = Ok l' ->
  PeerConnection.py_in y l' = PeerConnection.py_in y l.
Proof.
  intros Hxy. revert l'. induction l as [|z l IH]; intros l'; [done |].
  cbn [PeerConnection.py_remove]. destruct (String.eqb_spec x z) as [->|Hne].
  - intros [= <-]. unfold PeerConnection.py_in. cbn [existsb].
    destruct (String.eqb_spec y z); [congruence | done].
  - destruct (PeerConnection.py_remove x l) as [r|] eqn:Hr; [|done].
    cbn [rbind]. intros [= <-]. unfold PeerConnection.py_in in *.
    cbn [existsb]. by rewrite (IH r).
Qed.

(** Whatever the peer sends but [Unstall] leaves a stalled connection
    stalled and writes nothing. *)
Lemma dispatch_stalled (sha1 : bytes -> bytes) (m : Wire.message)
    (c : PeerConnection.t) (pm : PieceManager.t) :
  m <> Wire.Unstall ->
  PeerConnection.py_in "stalled" (PeerConnection.my_state c) = true ->
  PeerConnection.py_in "stalled"
    (PeerConnection.my_state
       (fst (snd (PeerConnection.dispatch sha1 m (c, pm))))) = true
  /\ PeerConnection.written (fst (snd (PeerConnection.dispatch sha1 m (c, pm))))
     = PeerConnection.written c.
Proof.
  intros Hm Hs.
  destruct m as [| | | | |index|bitfield|index begin len|index begin blk|index begin len];
    unfold PeerConnection.dispatch, bind, get, ret, lift,
      PeerConnection.on_manager, PeerConnection.on_conn;
    cbn [fst snd PeerConnection.my_state PeerConnection.set_my_state
         PeerConnection.set_peer_state PeerConnection.written];
    try done.
  - by rewrite py_in_app, Hs.
  - destruct (PeerConnection.py_in "interested" (PeerConnection.peer_state c));
      [|done].
    by destruct (PeerConnection.py_remove "interested" (PeerConnection.peer_state c)).
  - by destruct (PieceManager.update_peer (PeerConnection.remote_id c) index pm).
  - destruct (PeerConnection.py_remove "pending_request" (PeerConnection.my_state c))
      as [l|] eqn:Hl; [|done].
    destruct (PieceManager.block_received sha1 (PeerConnection.remote_id c)
                index begin blk pm) as [[|] pm'];
      cbn [fst snd PeerConnection.my_state PeerConnection.set_my_state
           PeerConnection.written];
      by rewrite (py_remove_other "pending_request" "stalled" _ _ ltac:(done) Hl).
Qed.

Lemma request_step_stalled (current now : Z)
    (c : PeerConnection.t) (pm : PieceManager.t) :
  PeerConnection.py_in "stalled" (PeerConnection.my_state c) = true ->
  PeerConnection.request_step current now (c, pm) = (Ok tt, (c, pm)).
Proof.
  intros Hs. unfold PeerConnection.request_step, bind, get. cbn [fst].
  by rewrite Hs.
Qed.

Lemma on_message_stalled (sha1 : bytes -> bytes) (current now : Z)
    (m : Wire.message) (c : PeerConnection.t) (pm : PieceManager.t) :
  m <> Wire.Unstall ->
  PeerConnection.py_in "stalled" (PeerConnection.my_state c) = true ->
  PeerConnection.py_in "stalled"
    (PeerConnection.my_state
       (fst (snd (PeerConnection.on_message sha1 current now m (c, pm))))) = true
  /\ PeerConnection.written
       (fst (snd (PeerConnection.on_message sha1 current now m (c, pm))))
     = PeerConnection.written c.
Proof.
  intros Hm Hs.
  destruct (PeerConnection.on_message sha1 current now m (c, pm))
    as [r [c' pm']] eqn:H.
  cbn [fst snd]. revert H. unfold PeerConnection.on_message, bind, get.
  cbn [fst].
  destruct (PeerConnection.py_in "stopped" (PeerConnection.my_state c)).
  - unfold ret. by intros [= <- <- <-].
  - pose proof (dispatch_stalled sha1 m c pm Hm Hs) as [Hs' Hw'].
    destruct (PeerConnection.dispatch sha1 m (c, pm)) as [[[]|e] [c1 pm1]];
      cbn [fst snd] in *.
    + rewrite request_step_stalled by done. unfold ret.
      by intros [= <- <- <-].
    + by intros [= <- <- <-].
Qed.

Lemma message_loop_stalled (sha1 : bytes -> bytes) (current now : Z)
    (messages : list Wire.message) (c : PeerConnection.t) (pm : PieceManager.t) :
  Forall (fun m => m <> Wire.Unstall) messages ->
  PeerConnection.py_in "stalled" (PeerConnection.my_state c) = true ->
  PeerConnection.written
    (fst (snd (PeerConnection.message_loop sha1 current now messages (c, pm))))
  = PeerConnection.written c.
Proof.
  intros Hms. revert c pm. induction Hms as [|m messages Hm _ IH]; intros c pm Hs.
  - done.
  - destruct (PeerConnection.message_loop sha1 current now (m :: messages) (c, pm))
      as [r [c' pm']] eqn:H.
    cbn [fst snd]. revert H. cbn [PeerConnection.message_loop]. unfold bind.
    pose proof (on_message_stalled sha1 current now m c pm Hm Hs) as [Hs' Hw'].
    destruct (PeerConnection.on_message sha1 current now m (c, pm))
      as [[[|]|e] [c1 pm1]]; cbn [fst snd] in *.
    + intros H. rewrite <- Hw', <- (IH c1 pm1 Hs'). by rewrite H.
    + unfold ret. by intros [= <- <- <-].
    + by intros [= <- <- <-].
Qed.

(** X28. While the flags hold [stalled] and the peer sends no [Unstall],
    the connection writes nothing: whatever the other messages are, and
    whether the loop ends by itself or by an exception, [self.writer] has
    received what it had received before. *)
Theorem stalled_connection_writes_nothing
    (sha1 : bytes -> bytes) (current now : Z)
    (messages : list Wire.message) (c : PeerConnection.t) (pm : PieceManager.t) :
  PeerConnection.py_in "stalled" (PeerConnection.my_state c) = true ->
  Forall (fun m => m <> Wire.Unstall) messages ->
  PeerConnection.written
    (fst (snd (PeerConnection.serve sha1 current now messages (c, pm))))
  = PeerConnection.written c.
Proof.
  intros Hs Hms.
  pose proof (message_loop_stalled sha1 current now messages c pm Hms Hs) as Hw.
  unfold PeerConnection.serve.
  by destruct (PeerConnection.message_loop sha1 current now messages (c, pm))
    as [[[]|e] [c' pm']].
Qed.

Lemma stalled_connection_writes_nothing_witness :
  PeerConnection.written
    (fst (snd (PeerConnection.serve example_sha1 0 0
                 [Wire.BitField [true; true; true]; Wire.Interested;
                  Wire.Have 1; Wire.KeepAlive]
                 (stalled_connection, example_manager))))
  = PeerConnection.written stalled_connection.
Proof.
  apply (stalled_connection_writes_nothing example_sha1 0 0
           [Wire.BitField [true; true; true]; Wire.Interested;
            Wire.Have 1; Wire.KeepAlive]
           stalled_connection example_manager).
  - reflexivity.
  - repeat constructor; discriminate.
Defined.

(** X29. A [Have] message that names a position at or behind the end of
    the bit array the peer has registered makes [update_peer] raise
    [IndexError] and ends the task: the [try] of [_start] turns the
    exception into [NameError] at [except ProtocolError], the messages
    behind are not read, the manager is as it was and the connection is
    left as it was, not closed by [cancel]. *)
Theorem have_out_of_range_ends_session
    (sha1 : bytes -> bytes) (current now : Z)
    (c : PeerConnection.t) (pm : PieceManager.t)
    (index : Z) (bf : list bool) (rest : list Wire.message) :
  PeerConnection.py_in "stopped" (PeerConnection.my_state c) = false ->
  PieceManager.peers pm !! PeerConnection.remote_id c = Some bf ->
  Z.of_nat (length bf) <= index ->
  PeerConnection.dispatch sha1 (Wire.Have index) (c, pm)
  = (Raise IndexError, (c, pm))
  /\ PeerConnection.serve sha1 current now (Wire.Have index :: rest) (c, pm)
     = (Raise NameError, (c, pm)).
Proof.
  intros Hstopped Hbf Hi.
  assert (Hd : PeerConnection.dispatch sha1 (Wire.Have index) (c, pm)
               = (Raise IndexError, (c, pm))).
  { unfold PeerConnection.dispatch, bind, get, PeerConnection.on_manager.
    cbn [fst snd]. by rewrite (update_peer_out_of_range _ _ _ _ Hbf Hi). }
  split; [exact Hd |].
  unfold PeerConnection.serve. cbn [PeerConnection.message_loop].
  unfold bind at 1, PeerConnection.on_message, bind at 1, get at 1.
  cbn [fst]. rewrite Hstopped. unfold bind at 1. by rewrite Hd.
Qed.

Lemma have_out_of_range_ends_session_witness :
  PeerConnection.dispatch example_sha1 (Wire.Have 3)
    (stalled_connection, manager_with_peer [true; false; false])
  = (Raise IndexError,
     (stalled_connection, manager_with_peer [true; false; false]))
  /\ PeerConnection.serve example_sha1 0 0 [Wire.Have 3; Wire.Unstall]
       (stalled_connection, manager_with_peer [true; false; false])
     = (Raise NameError,
        (stalled_connection, manager_with_peer [true; false; false])).
Proof.
  apply (have_out_of_range_ends_session example_sha1 0 0 stalled_connection
           (manager_with_peer [true; false; false]) 3 [true; false; false]
           [Wire.Unstall]).
  - reflexivity.
  - reflexivity.
  - cbn. lia.
Defined.

(** X30. When the flags hold [interested] and neither [stalled] nor
    [pending_request], and [next_request] has a block for the peer whose
    index, offset and length fit 32 bits, the request step adds
    [pending_request] to the flags and writes one frame of 17 bytes, the
    [Request] for that block; the manager is as [next_request] left it. *)
Theorem request_step_sends_request (current now : Z)
    (c : PeerConnection.t) (pm pm' : PieceManager.t) (blk : Block.t) :
  ready_to_request c ->
  PieceManager.next_request (PeerConnection.remote_id c) current now pm
  = (Ok (Some blk), pm') ->
  0 <= Block.piece blk < 2 ^ 32 ->
  0 <= Block.offset blk < 2 ^ 32 ->
  0 <= Block.length blk < 2 ^ 32 ->
  exists frame,
    Wire.encode (Wire.Request (Block.piece blk) (Block.offset blk)
                   (Block.length blk)) = Ok frame
    /\ length frame = 17%nat
    /\ PeerConnection.request_step current now (c, pm)
       = (Ok tt,
          (PeerConnection.mk
             (PeerConnection.my_state c ++ ["pending_request"%string])
             (PeerConnection.peer_state c) (PeerConnection.remote_id c)
             (PeerConnection.written c ++ [frame]) (PeerConnection.closed c),
           pm')).
Proof.
  intros (Hinterested & Hstalled & Hpending) Hnext Hp Ho Hl.
  destruct (pack_I_ok _ Hp) as (p0 & p1 & p2 & p3 & Hpp & _).
  destruct (pack_I_ok _ Ho) as (o0 & o1 & o2 & o3 & Hpo & _).
  destruct (pack_I_ok _ Hl) as (l0 & l1 & l2 & l3 & Hpl & _).
  eexists. split; [|split].
  - cbn [Wire.encode]. rewrite Hpp, Hpo, Hpl. reflexivity.
  - reflexivity.
  - unfold PeerConnection.request_step.
    unfold bind at 1, get at 1. cbn [fst].
    rewrite Hstalled, Hinterested, Hpending. cbn [negb].
    unfold bind at 1, PeerConnection.on_conn at 1. cbn [fst snd].
    unfold PeerConnection._request_piece, bind, get,
      PeerConnection.on_manager, PeerConnection.on_conn, lift.
    cbn [fst snd PeerConnection.set_my_state PeerConnection.remote_id].
    rewrite Hnext. cbn [Wire.encode]. rewrite Hpp, Hpo, Hpl. reflexivity.
Qed.

Lemma request_step_sends_request_witness :
  exists frame,
    Wire.encode (Wire.Request 0 16384 16384) = Ok frame
    /\ length frame = 17%nat
    /\ PeerConnection.request_step 0 0
         (example_connection, manager_requesting)
       = (Ok tt,
          (PeerConnection.mk
             (PeerConnection.my_state example_connection
              ++ ["pending_request"%string])
             (PeerConnection.peer_state example_connection)
             (PeerConnection.remote_id example_connection)
             (PeerConnection.written example_connection ++ [frame])
             (PeerConnection.closed example_connection),
           snd (PieceManager.next_request example_peer 0 0 manager_requesting))).
Proof.
  apply (request_step_sends_request 0 0 example_connection manager_requesting
           (snd (PieceManager.next_request example_peer 0 0 manager_requesting))
           (Block.mk 0 16384 16384 Block.Pending None)).
  - by repeat split.
  - reflexivity.
  - cbn. lia.
  - cbn. lia.
  - cbn. lia.
Defined.
